(** * llm-pdf-parse: a shallow embedding of the analysis core

    The development follows the four source files of the repository:
    [prompt_builder.py], [gemini_client.py], [excel_export.py] and the batch
    driver [analyze_pdfs] of [app.py].  The parts of the Python standard
    library the code relies on ([str.strip], [str.lower], [re.match] on the
    fence pattern, [json.loads], [json.dumps]) are modelled first; the
    repository's own functions come next, and the theorems last. *)

From Stdlib Require Import Ascii String DecimalString.
From Stdlib.Strings Require Import Byte.
From Stdlib Require Import NArith ZArith QArith Bool Lia List.
Import ListNotations.
Close Scope Q_scope.
Set Warnings "-register-all".
Local Open Scope list_scope.

(* ================================================================== *)
(** ** Python strings *)
(* ================================================================== *)

(** A Python [str] is a sequence of Unicode code points.  Code points are
    kept as binary naturals; [valid_str] below states the range Python
    allows. *)
Abbreviation char := N (only parsing).
Abbreviation pystr := (list N) (only parsing).

(** A literal of the source, written as a Rocq string of ASCII characters. *)
Definition str (s : string) : pystr := map N_of_ascii (list_ascii_of_string s).

Definition LF : char := 10%N.
Definition DQUOTE : char := 34%N.
Definition BACKSLASH_CHAR : char := 92%N.
Definition BACKTICK : char := 96%N.

Fixpoint str_eqb (a b : pystr) : bool :=
  match a, b with
  | [], [] => true
  | x :: a', y :: b' => N.eqb x y && str_eqb a' b'
  | _, _ => false
  end.

(** Truth value of a string: the empty string is falsy. *)
Definition truthy (s : pystr) : bool :=
  match s with [] => false | _ :: _ => true end.

(** [str.isspace] on one code point (CPython's [Py_UNICODE_ISSPACE]): the
    ASCII white space and separators, and the Unicode white space. *)
Definition is_space (c : char) : bool :=
  ((9 <=? c) && (c <=? 13) || (28 <=? c) && (c <=? 32)
   || (c =? 0x85) || (c =? 0xA0) || (c =? 0x1680)
   || (0x2000 <=? c) && (c <=? 0x200A)
   || (c =? 0x2028) || (c =? 0x2029) || (c =? 0x202F)
   || (c =? 0x205F) || (c =? 0x3000))%N.

Fixpoint lstrip (s : pystr) : pystr :=
  match s with
  | c :: r => if is_space c then lstrip r else s
  | [] => []
  end.

Definition rstrip (s : pystr) : pystr := rev (lstrip (rev s)).

(** [s.strip()] *)
Definition strip (s : pystr) : pystr := rstrip (lstrip s).

(** [s.lower()].  The ASCII capitals are mapped to their small letters.  Of
    the code points outside ASCII only U+0130 and U+212A have a lower-case
    form that contains an ASCII letter (i followed by U+0307, and k); they
    are mapped as Python maps them.  Every other code point outside ASCII
    is mapped by Python to code points outside ASCII and is left in place
    here, which does not change any comparison with an ASCII literal. *)
Definition lower_char (c : char) : pystr :=
  (if (65 <=? c) && (c <=? 90) then [c + 32]
   else if c =? 0x130 then [0x69; 0x307]
   else if c =? 0x212A then [0x6B]
   else [c])%N.

Definition lower (s : pystr) : pystr := flat_map lower_char s.

(** [sep.join(parts)] *)
Fixpoint join (sep : pystr) (parts : list pystr) : pystr :=
  match parts with
  | [] => []
  | [p] => p
  | p :: rest => p ++ sep ++ join sep rest
  end.

(** [s.startswith(prefix)] *)
Fixpoint startswith (prefix s : pystr) : bool :=
  match prefix, s with
  | [], _ => true
  | p :: prefix', c :: s' => N.eqb p c && startswith prefix' s'
  | _ :: _, [] => false
  end.

(** [str(n)] for an [int]: the decimal digits, with a minus sign. *)
Definition str_of_int (z : Z) : pystr := str (NilZero.string_of_int (Z.to_int z)).

(** The code points Python allows in a [str]. *)
Definition valid_char (c : char) : Prop := (c <= 0x10FFFF)%N.
Definition valid_str (s : pystr) : Prop := Forall valid_char s.

Definition is_high_surrogate (c : char) : bool := ((0xD800 <=? c) && (c <=? 0xDBFF))%N.
Definition is_low_surrogate (c : char) : bool := ((0xDC00 <=? c) && (c <=? 0xDFFF))%N.

(* ================================================================== *)
(** ** Python values and dictionaries *)
(* ================================================================== *)

(** The values [json.loads] builds, and the values the result dictionaries
    hold.  A [float] is kept as the JSON literal it was read from: its
    binary value plays no part in the code under study.  [PyStrOf v] is the
    string [str(v)] for a value whose rendering is not computed here (a
    float, a list or a nested dictionary). *)
Inductive pyval : Type :=
| PyNone
| PyBool (b : bool)
| PyInt (z : Z)
| PyFloat (literal : pystr)
| PyStr (s : pystr)
| PyList (items : list pyval)
| PyDict (items : list (pystr * pyval))
| PyStrOf (v : pyval).

(** A [dict] with string keys: the items in insertion order, every key
    once. *)
Definition dict := list (pystr * pyval).

(** [d.get(k)] *)
Fixpoint dict_get (k : pystr) (d : dict) : option pyval :=
  match d with
  | [] => None
  | (k', v) :: d' => if str_eqb k k' then Some v else dict_get k d'
  end.

(** [d.get(k, default)] *)
Definition dict_get_default (k : pystr) (default : pyval) (d : dict) : pyval :=
  match dict_get k d with Some v => v | None => default end.

(** [d[k] = v]: an existing key keeps its place and takes the new value, a
    new key goes last. *)
Fixpoint dict_setitem (k : pystr) (v : pyval) (d : dict) : dict :=
  match d with
  | [] => [(k, v)]
  | (k', v') :: d' =>
      if str_eqb k k' then (k', v) :: d' else (k', v') :: dict_setitem k v d'
  end.

(** [dict(pairs)] *)
Definition dict_of_pairs (pairs : list (pystr * pyval)) : dict :=
  fold_left (fun d kv => dict_setitem (fst kv) (snd kv) d) pairs [].

Definition dict_keys (d : dict) : list pystr := map fst d.

(** [str(v)] for the values whose rendering is a fixed text. *)
Definition py_str (v : pyval) : pyval :=
  match v with
  | PyNone => PyStr (str "None")
  | PyBool true => PyStr (str "True")
  | PyBool false => PyStr (str "False")
  | PyInt z => PyStr (str_of_int z)
  | PyStr s => PyStr s
  | other => PyStrOf other
  end.

(* ================================================================== *)
(** ** Regular expressions: [re.match] *)
(* ================================================================== *)

(** The constructs the fence pattern uses.  Repetition is over one
    character at a time, which is all the pattern needs. *)
Inductive regex : Type :=
| Eps                              (* the empty pattern *)
| Bol                              (* ^   (no MULTILINE) *)
| Eol                              (* $   (no MULTILINE) *)
| Chr (c : char)                   (* a literal character *)
| Seq (r1 r2 : regex)              (* r1 r2 *)
| Opt (r : regex)                  (* (?:r)?   greedy *)
| Star (cls : char -> bool)        (* cls*     greedy *)
| LazyStar (cls : char -> bool)    (* cls*?    lazy *)
| Grp (r : regex).                 (* ( r )    capturing group 1 *)

(** A literal text. *)
Fixpoint Lit (s : pystr) : regex :=
  match s with
  | [] => Eps
  | c :: s' => Seq (Chr c) (Lit s')
  end.

(** Greedy repetition: take as many characters of the class as there are,
    and give them back one at a time while the rest of the pattern fails. *)
Fixpoint star_greedy {R : Type} (cls : char -> bool)
    (k : nat -> pystr -> option R) (pos : nat) (s : pystr) : option R :=
  match s with
  | x :: s' =>
      if cls x then
        match star_greedy cls k (S pos) s' with
        | Some res => Some res
        | None => k pos s
        end
      else k pos s
  | [] => k pos s
  end.

(** Lazy repetition: try the rest of the pattern first, and take one more
    character of the class each time it fails. *)
Fixpoint star_lazy {R : Type} (cls : char -> bool)
    (k : nat -> pystr -> option R) (pos : nat) (s : pystr) : option R :=
  match k pos s with
  | Some res => Some res
  | None =>
      match s with
      | x :: s' => if cls x then star_lazy cls k (S pos) s' else None
      | [] => None
      end
  end.

(** The backtracking matcher, in continuation-passing style.  [pos] is the
    number of characters consumed so far, [s] the text that remains and [g]
    the text of group 1 ([None] while the group has not taken part).  The
    continuation answers [None] to ask for the next alternative. *)
Fixpoint rmatch {R : Type} (r : regex) (pos : nat) (s : pystr) (g : option pystr)
    (k : nat -> pystr -> option pystr -> option R) {struct r} : option R :=
  match r with
  | Eps => k pos s g
  | Bol => if Nat.eqb pos 0 then k pos s g else None
  | Eol =>
      match s with
      | [] => k pos s g
      | [c] => if N.eqb c LF then k pos s g else None
      | _ => None
      end
  | Chr c =>
      match s with
      | x :: s' => if N.eqb x c then k (S pos) s' g else None
      | [] => None
      end
  | Seq r1 r2 => rmatch r1 pos s g (fun pos' s' g' => rmatch r2 pos' s' g' k)
  | Opt r1 =>
      match rmatch r1 pos s g k with
      | Some res => Some res
      | None => k pos s g
      end
  | Star cls => star_greedy cls (fun pos' s' => k pos' s' g) pos s
  | LazyStar cls => star_lazy cls (fun pos' s' => k pos' s' g) pos s
  | Grp r1 =>
      rmatch r1 pos s g (fun pos' s' _ => k pos' s' (Some (firstn (pos' - pos) s)))
  end.

(** [re.match(pattern, text)]: the match is anchored at the start of the
    text and need not reach its end.  The result is the match object, here
    the text of group 1. *)
Definition re_match (pattern : regex) (text : pystr) : option (option pystr) :=
  rmatch pattern 0 text None (fun _ _ g => Some g).

(* ================================================================== *)
(** ** [json]: the decoder ([json.loads]) *)
(* ================================================================== *)

(** [WHITESPACE = re.compile(r'[ \t\n\r]*')] *)
Definition is_json_ws (c : char) : bool :=
  ((c =? 32) || (c =? 9) || (c =? 10) || (c =? 13))%N.

Fixpoint skip_ws (s : pystr) : pystr :=
  match s with
  | c :: r => if is_json_ws c then skip_ws r else s
  | [] => []
  end.

Definition is_digit (c : char) : bool := ((48 <=? c) && (c <=? 57))%N.

(** One hexadecimal digit, of either case. *)
Definition hexval (c : char) : option N :=
  (if (48 <=? c) && (c <=? 57) then Some (c - 48)
   else if (97 <=? c) && (c <=? 102) then Some (c - 87)
   else if (65 <=? c) && (c <=? 70) then Some (c - 55)
   else None)%N.

(** [_decode_uXXXX]: the four characters after a backslash and a u. *)
Definition _decode_uXXXX (h1 h2 h3 h4 : char) : option N :=
  match hexval h1, hexval h2, hexval h3, hexval h4 with
  | Some a, Some b, Some c, Some d => Some (((a * 16 + b) * 16 + c) * 16 + d)%N
  | _, _, _, _ => None
  end.

(** The table [BACKSLASH] of the one-letter escapes. *)
Definition BACKSLASH (esc : char) : option char :=
  (if esc =? 34 then Some 34          (* a double quote *)
   else if esc =? 92 then Some 92     (* a backslash *)
   else if esc =? 47 then Some 47     (* / *)
   else if esc =? 98 then Some 8      (* b *)
   else if esc =? 102 then Some 12    (* f *)
   else if esc =? 110 then Some 10    (* n *)
   else if esc =? 114 then Some 13    (* r *)
   else if esc =? 116 then Some 9     (* t *)
   else None)%N.

(** [0x10000 + (((uni - 0xd800) << 10) | (uni2 - 0xdc00))] *)
Definition join_surrogates (uni uni2 : N) : N :=
  (0x10000 + N.lor (N.shiftl (uni - 0xD800) 10) (uni2 - 0xDC00))%N.

Definition consc (c : char) (r : option (pystr * pystr)) : option (pystr * pystr) :=
  match r with
  | Some (x, rest) => Some (c :: x, rest)
  | None => None
  end.

(** [py_scanstring(s, end, strict=True)], from the character after the
    opening quote: the decoded string and the text after the closing
    quote, or [None] for a [JSONDecodeError]. *)
Fixpoint py_scanstring (s : pystr) : option (pystr * pystr) :=
  match s with
  | [] => None                                   (* unterminated string *)
  | c :: r =>
      if (c =? DQUOTE)%N then Some ([], r)
      else if (c =? BACKSLASH_CHAR)%N then
        match r with
        | [] => None                             (* unterminated string *)
        | esc :: r1 =>
            if (esc =? 117)%N then               (* \uXXXX *)
              match r1 with
              | h1 :: h2 :: h3 :: h4 :: r2 =>
                  match _decode_uXXXX h1 h2 h3 h4 with
                  | None => None                 (* invalid \uXXXX escape *)
                  | Some uni =>
                      match r2 with
                      | b :: u :: g1 :: g2 :: g3 :: g4 :: r4 =>
                          if is_high_surrogate uni && (b =? BACKSLASH_CHAR)%N && (u =? 117)%N then
                            match _decode_uXXXX g1 g2 g3 g4 with
                            | None => None
                            | Some uni2 =>
                                if is_low_surrogate uni2
                                then consc (join_surrogates uni uni2) (py_scanstring r4)
                                else consc uni (py_scanstring r2)
                            end
                          else consc uni (py_scanstring r2)
                      | _ => consc uni (py_scanstring r2)
                      end
                  end
              | _ => None                        (* invalid \uXXXX escape *)
              end
            else
              match BACKSLASH esc with
              | Some ch => consc ch (py_scanstring r1)
              | None => None                     (* invalid \escape *)
              end
        end
      else if (c <? 32)%N then None              (* invalid control character *)
      else consc c (py_scanstring r)
  end.

(** [NUMBER_RE]: an optional minus sign and either a single 0 or a digit
    from 1 to 9 followed by digits; then, optionally, a point and one or
    more digits; then, optionally, e or E, an optional sign and one or more
    digits.  All digits are ASCII. *)
Fixpoint take_digits (s : pystr) : pystr * pystr :=
  match s with
  | c :: r =>
      if is_digit c then let (d, rest) := take_digits r in (c :: d, rest)
      else ([], s)
  | [] => ([], [])
  end.

Definition match_integer (s : pystr) : option (pystr * pystr) :=
  let (sign, r) :=
    match s with
    | c :: r => if (c =? 45)%N then ([c], r) else ([], s)
    | [] => ([], s)
    end in
  match r with
  | c :: r' =>
      if (c =? 48)%N then Some (sign ++ [c], r')
      else if is_digit c then
        let (d, rest) := take_digits r' in Some (sign ++ c :: d, rest)
      else None
  | [] => None
  end.

Definition match_frac (s : pystr) : option pystr * pystr :=
  match s with
  | c :: r =>
      if (c =? 46)%N then
        match take_digits r with
        | ([], _) => (None, s)
        | (d, rest) => (Some (c :: d), rest)
        end
      else (None, s)
  | [] => (None, s)
  end.

Definition match_exp (s : pystr) : option pystr * pystr :=
  match s with
  | c :: r =>
      if ((c =? 101) || (c =? 69))%N then
        let (sign, r') :=
          match r with
          | x :: r' => if ((x =? 45) || (x =? 43))%N then ([x], r') else ([], r)
          | [] => ([], r)
          end in
        match take_digits r' with
        | ([], _) => (None, s)
        | (d, rest) => (Some (c :: sign ++ d), rest)
        end
      else (None, s)
  | [] => (None, s)
  end.

(** [int(integer)] on a text the pattern accepted, within the limit on
    the number of digits (the limit is in [parse_int_bounded]). *)
Definition int_of_digits (ds : pystr) : Z :=
  fold_left (fun acc c => (acc * 10 + (Z.of_N c - 48))%Z) ds 0%Z.

Definition parse_int (integer : pystr) : Z :=
  match integer with
  | c :: r => if (c =? 45)%N then (- int_of_digits r)%Z else int_of_digits integer
  | [] => 0%Z
  end.

(** The number at the head of the text: an [int] when the literal has
    neither fraction nor exponent, a [float] otherwise. *)
Definition match_number (s : pystr) : option (pyval * pystr) :=
  match match_integer s with
  | None => None
  | Some (integer, r1) =>
      let (frac, r2) := match_frac r1 in
      let (exp, r3) := match_exp r2 in
      match frac, exp with
      | None, None => Some (PyInt (parse_int integer), r3)
      | _, _ =>
          Some (PyFloat (integer ++ match frac with Some f => f | None => [] end
                                 ++ match exp with Some e => e | None => [] end), r3)
      end
  end.

(** The outcome of a scanning function: a value and the text after it, a
    [JSONDecodeError], or the recursion budget of the model used up. *)
Inductive scan (A : Type) : Type :=
| Done (a : A) (rest : pystr)
| Invalid
| Exhausted.
Arguments Done {A} a rest.
Arguments Invalid {A}.
Arguments Exhausted {A}.

(** [JSONObject], from the character after the opening brace; [items] is
    the loop over the members, entered after the opening quote of the
    first key. *)
Definition JSONObject (items : pystr -> scan (list (pystr * pyval))) (s : pystr)
    : scan pyval :=
  match skip_ws s with
  | c :: r =>
      if (c =? 125)%N then Done (PyDict []) r           (* trivial empty object *)
      else if (c =? DQUOTE)%N then
        match items r with
        | Done pairs rest => Done (PyDict (dict_of_pairs pairs)) rest
        | Invalid => Invalid
        | Exhausted => Exhausted
        end
      else Invalid               (* expecting property name in double quotes *)
  | [] => Invalid
  end.

(** [JSONArray], from the character after the opening bracket. *)
Definition JSONArray (items : pystr -> scan (list pyval)) (s : pystr) : scan pyval :=
  match skip_ws s with
  | c :: r =>
      if (c =? 93)%N then Done (PyList []) r            (* trivial empty array *)
      else
        match items (c :: r) with
        | Done values rest => Done (PyList values) rest
        | Invalid => Invalid
        | Exhausted => Exhausted
        end
  | [] => Invalid
  end.

(** [_scan_once] of [json.scanner], with the two loops of [JSONObject] and
    [JSONArray].  [fuel] bounds the number of nested calls. *)
Fixpoint scan_once (fuel : nat) (s : pystr) {struct fuel} : scan pyval :=
  match fuel with
  | O => Exhausted
  | S fuel' =>
      match s with
      | [] => Invalid                                   (* expecting value *)
      | c :: r =>
          if (c =? DQUOTE)%N then
            match py_scanstring r with
            | Some (x, rest) => Done (PyStr x) rest
            | None => Invalid
            end
          else if (c =? 123)%N then JSONObject (object_items fuel') r
          else if (c =? 91)%N then JSONArray (array_items fuel') r
          else if (c =? 110)%N && startswith (str "null") s then Done PyNone (skipn 4 s)
          else if (c =? 116)%N && startswith (str "true") s then Done (PyBool true) (skipn 4 s)
          else if (c =? 102)%N && startswith (str "false") s then Done (PyBool false) (skipn 5 s)
          else
            match match_number s with
            | Some (number, rest) => Done number rest
            | None =>
                if (c =? 78)%N && startswith (str "NaN") s
                then Done (PyFloat (str "NaN")) (skipn 3 s)
                else if (c =? 73)%N && startswith (str "Infinity") s
                then Done (PyFloat (str "Infinity")) (skipn 8 s)
                else if (c =? 45)%N && startswith (str "-Infinity") s
                then Done (PyFloat (str "-Infinity")) (skipn 9 s)
                else Invalid                            (* expecting value *)
            end
      end
  end

with object_items (fuel : nat) (s : pystr) {struct fuel} : scan (list (pystr * pyval)) :=
  match fuel with
  | O => Exhausted
  | S fuel' =>
      match py_scanstring s with
      | None => Invalid
      | Some (key, r1) =>
          match skip_ws r1 with
          | c :: r2 =>
              if (c =? 58)%N then                        (* the colon *)
                match scan_once fuel' (skip_ws r2) with
                | Done value r3 =>
                    match skip_ws r3 with
                    | c' :: r4 =>
                        if (c' =? 125)%N then Done [(key, value)] r4
                        else if (c' =? 44)%N then        (* the comma *)
                          match skip_ws r4 with
                          | q :: r5 =>
                              if (q =? DQUOTE)%N then
                                match object_items fuel' r5 with
                                | Done pairs rest => Done ((key, value) :: pairs) rest
                                | Invalid => Invalid
                                | Exhausted => Exhausted
                                end
                              else Invalid
                          | [] => Invalid
                          end
                        else Invalid                     (* expecting ',' delimiter *)
                    | [] => Invalid
                    end
                | Invalid => Invalid
                | Exhausted => Exhausted
                end
              else Invalid                               (* expecting ':' delimiter *)
          | [] => Invalid
          end
      end
  end

with array_items (fuel : nat) (s : pystr) {struct fuel} : scan (list pyval) :=
  match fuel with
  | O => Exhausted
  | S fuel' =>
      match scan_once fuel' s with
      | Done value r1 =>
          match skip_ws r1 with
          | c :: r2 =>
              if (c =? 93)%N then Done [value] r2
              else if (c =? 44)%N then
                match array_items fuel' (skip_ws r2) with
                | Done values rest => Done (value :: values) rest
                | Invalid => Invalid
                | Exhausted => Exhausted
                end
              else Invalid                               (* expecting ',' delimiter *)
          | [] => Invalid
          end
      | Invalid => Invalid
      | Exhausted => Exhausted
      end
  end.

(** What [json.loads] does: return a value, raise [JSONDecodeError], or
    (in the model only) run out of fuel. *)
Inductive loads_result : Type :=
| Loaded (v : pyval)
| JSONDecodeError
| OutOfFuel.

(** Fuel that is enough for a text of the given length (see
    [loads_has_fuel]). *)
Definition fuel_for (s : pystr) : nat := 2 * length s + 3.

(** [json.loads(s)] for a [str]: a byte order mark is refused, white space
    is skipped on both sides of the value, and anything else after the
    value is an error ("Extra data").  This is the decoder within the
    limits of the interpreter (the digits of an integer, the depth of
    nesting); [loads_bounded] adds the limits. *)
Definition loads (s : pystr) : loads_result :=
  if startswith [0xFEFF%N] s then JSONDecodeError
  else
    match scan_once (fuel_for s) (skip_ws s) with
    | Done obj rest =>
        match skip_ws rest with
        | [] => Loaded obj
        | _ :: _ => JSONDecodeError
        end
    | Invalid => JSONDecodeError
    | Exhausted => OutOfFuel
    end.

(* ================================================================== *)
(** ** [json]: the encoder ([json.dumps]) on flat string mappings *)
(* ================================================================== *)

(** One hexadecimal digit, as [format(n, '04x')] writes it. *)
Definition hex_digit (d : N) : char := (if d <? 10 then 48 + d else 87 + d)%N.

(** [\uXXXX] *)
Definition u_escape (n : N) : pystr :=
  [BACKSLASH_CHAR; 117%N;
   hex_digit (n / 4096); hex_digit ((n / 256) mod 16);
   hex_digit ((n / 16) mod 16); hex_digit (n mod 16)]%N.

(** The replacement [py_encode_basestring_ascii] makes for one character:
    the characters from the space to the tilde stand for themselves, except
    the double quote and the backslash; the others take their short escape
    or a [\uXXXX] escape, two of them (a surrogate pair) from U+10000 on. *)
Definition escape_char (c : char) : pystr :=
  (if c =? 34 then [92; 34]
   else if c =? 92 then [92; 92]
   else if c =? 10 then [92; 110]
   else if c =? 13 then [92; 114]
   else if c =? 9 then [92; 116]
   else if c =? 12 then [92; 102]
   else if c =? 8 then [92; 98]
   else if (32 <=? c) && (c <=? 126) then [c]
   else if c <? 0x10000 then u_escape c
   else
     let n := c - 0x10000 in
     let s1 := N.lor 0xD800 (N.land (N.shiftr n 10) 0x3FF) in
     let s2 := N.lor 0xDC00 (N.land n 0x3FF) in
     u_escape s1 ++ u_escape s2)%N.

Definition py_encode_basestring_ascii (s : pystr) : pystr :=
  [DQUOTE] ++ flat_map escape_char s ++ [DQUOTE].

(** [json.dumps(m)] for a dictionary whose keys and values are strings:
    the members in order, separated by a comma and a space, the key
    separated from the value by a colon and a space. *)
Definition dumps_member (kv : pystr * pystr) : pystr :=
  py_encode_basestring_ascii (fst kv) ++ str ": " ++ py_encode_basestring_ascii (snd kv).

Definition dumps (m : list (pystr * pystr)) : pystr :=
  str "{" ++ join (str ", ") (map dumps_member m) ++ str "}".

(* ================================================================== *)
(** ** The world outside the program *)
(* ================================================================== *)

Definition bytes := list byte.

(** A Python exception: its class and the text [str(e)]. *)
Record exn : Type := mkExn { exn_class : string; exn_str : pystr }.

(** The file object the Files API returns; the code reads its [name]. *)
Record remote_file : Type := mkRemoteFile { file_name : pystr }.

(** What [generate_content] returns, as the code probes it with [hasattr]:
    a response with a [text] attribute, one with [parts] only (a part has a
    [text] attribute or not), or one with neither. *)
Inductive part : Type :=
| TextPart (text : pystr)
| OtherPart.

Inductive response : Type :=
| WithText (text : pystr)
| WithParts (parts : list part)
| WithNeither.

(** The calls the program makes to the service, the file system and the
    clock, each with what came back. *)
Inductive event : Type :=
| EvCreateTemp (outcome : exn + pystr)
| EvWriteTemp (path : pystr) (content : bytes) (outcome : option exn)
| EvUpload (path : pystr) (outcome : exn + remote_file)
| EvGenerate (model : pystr) (file : remote_file) (prompt : pystr)
             (outcome : exn + response)
| EvSleep (seconds : Q)
| EvDelete (name : pystr) (outcome : option exn)
| EvRemove (path : pystr) (outcome : option exn)
| EvProgress (completed total : nat).

(** The environment decides how each call ends.  It sees every call made
    so far (the latest first), so any deterministic behaviour of the
    service and of the file system is an [Environment].  [None] is a call
    that returns normally, [Some e] one that raises [e]. *)
Record Environment : Type := mkEnvironment {
  (* the directory, prefix and random part of a temporary file's name *)
  env_create_temp : list event -> exn + pystr;
  env_write_temp : list event -> pystr -> bytes -> option exn;
  env_upload : list event -> pystr -> exn + remote_file;
  env_generate : list event -> pystr -> remote_file -> pystr -> exn + response;
  env_delete : list event -> pystr -> option exn;
  env_remove : list event -> pystr -> option exn
}.

(** The state the program runs in: the calls made so far (the latest
    first), the local files that exist and the files the service holds. *)
Record World : Type := mkWorld {
  history : list event;
  local_files : list pystr;
  remote_files : list pystr
}.

Definition record_event (e : event) (w : World) : World :=
  mkWorld (e :: history w) (local_files w) (remote_files w).

Definition str_in (x : pystr) (l : list pystr) : bool := existsb (str_eqb x) l.

Definition str_remove (x : pystr) (l : list pystr) : list pystr :=
  filter (fun y => negb (str_eqb x y)) l.

(** A computation that may raise and that changes the world. *)
Definition M (A : Type) : Type := World -> (exn + A) * World.

Definition ret {A : Type} (a : A) : M A := fun w => (inr a, w).

Definition raise {A : Type} (e : exn) : M A := fun w => (inl e, w).

Definition bind {A B : Type} (m : M A) (f : A -> M B) : M B :=
  fun w =>
    match m w with
    | (inr a, w') => f a w'
    | (inl e, w') => (inl e, w')
    end.

Notation "x <- m ;; k" := (bind m (fun x => k))
  (at level 61, m at next level, right associativity).

(** [tempfile.NamedTemporaryFile(mode='wb', suffix=suffix, delete=False)]:
    the file is created under a name that ends with the suffix. *)
Definition NamedTemporaryFile (env : Environment) (suffix : pystr) : M pystr :=
  fun w =>
    match env_create_temp env (history w) with
    | inl e => (inl e, record_event (EvCreateTemp (inl e)) w)
    | inr stem =>
        let name := stem ++ suffix in
        (inr name,
         mkWorld (EvCreateTemp (inr name) :: history w)
                 (name :: local_files w) (remote_files w))
    end.

(** [temp_file.write(pdf_bytes)] *)
Definition file_write (env : Environment) (name : pystr) (content : bytes) : M unit :=
  fun w =>
    let outcome := env_write_temp env (history w) name content in
    (match outcome with Some e => inl e | None => inr tt end,
     record_event (EvWriteTemp name content outcome) w).

(** [client.files.upload(file=path)] *)
Definition files_upload (env : Environment) (path : pystr) : M remote_file :=
  fun w =>
    let outcome := env_upload env (history w) path in
    (outcome,
     mkWorld (EvUpload path outcome :: history w) (local_files w)
             (match outcome with
              | inr f => file_name f :: remote_files w
              | inl _ => remote_files w
              end)).

(** [client.models.generate_content(model=model, contents=[file, prompt])] *)
Definition generate_content (env : Environment) (model : pystr)
    (file : remote_file) (prompt : pystr) : M response :=
  fun w =>
    let outcome := env_generate env (history w) model file prompt in
    (outcome, record_event (EvGenerate model file prompt outcome) w).

(** [client.files.delete(name=name)] *)
Definition files_delete (env : Environment) (name : pystr) : M unit :=
  fun w =>
    let outcome := env_delete env (history w) name in
    (match outcome with Some e => inl e | None => inr tt end,
     mkWorld (EvDelete name outcome :: history w) (local_files w)
             (match outcome with
              | None => str_remove name (remote_files w)
              | Some _ => remote_files w
              end)).

(** [os.path.exists(path)] *)
Definition os_path_exists (path : pystr) (w : World) : bool :=
  str_in path (local_files w).

(** [os.remove(path)] *)
Definition os_remove (env : Environment) (path : pystr) : M unit :=
  fun w =>
    let outcome := env_remove env (history w) path in
    (match outcome with Some e => inl e | None => inr tt end,
     mkWorld (EvRemove path outcome :: history w)
             (match outcome with
              | None => str_remove path (local_files w)
              | Some _ => local_files w
              end)
             (remote_files w)).

(** [time.sleep(seconds)]: a negative length is a [ValueError]. *)
Definition time_sleep (seconds : Q) : M unit :=
  fun w =>
    if Qle_bool 0 seconds then (inr tt, record_event (EvSleep seconds) w)
    else (inl (mkExn "ValueError" (str "sleep length must be non-negative")), w).

(* ================================================================== *)
(** ** prompt_builder.py *)
(* ================================================================== *)

(** [f'"{col}"'] *)
Definition quoted (col : pystr) : pystr := [DQUOTE] ++ col ++ [DQUOTE].

(** [[col for col in column_names if col.lower() != "document name"]] *)
Definition output_columns (column_names : list pystr) : list pystr :=
  filter (fun col => negb (str_eqb (lower col) (str "document name"))) column_names.

(** [", ".join(f'"{col}"' for col in output_columns)] *)
Definition column_list (columns : list pystr) : pystr :=
  join (str ", ") (map quoted columns).

Definition structured_instruction (keys : pystr) : pystr :=
  [LF; LF]
  ++ str "Based on your analysis, return your findings as a JSON object with exactly these keys: "
  ++ keys
  ++ [LF; LF]
  ++ str "Each value should be a string. If information for a field is not found, use "
  ++ quoted (str "N/A") ++ str "."
  ++ [LF; LF]
  ++ str "Return ONLY the JSON object, no additional text or markdown formatting.".

Definition build_analysis_prompt (user_prompt : pystr) (column_names : list pystr)
    : pystr :=
  match output_columns column_names with
  | [] => user_prompt
  | columns => user_prompt ++ structured_instruction (column_list columns)
  end.

(* ================================================================== *)
(** ** gemini_client.py *)
(* ================================================================== *)

(** The fields of a [GeminiPDFAnalyzer] other than the client, which is
    the [Environment]. *)
Record GeminiPDFAnalyzer : Type := mkAnalyzer {
  model : pystr;
  max_retries : Z;
  api_delay : Q
}.

(** [_write_temp_pdf]: the file is created, written and closed; its name
    is returned.  When the write raises, the file stays (delete=False). *)
Definition _write_temp_pdf (env : Environment) (pdf_bytes : bytes) (filename : pystr)
    : M pystr :=
  let suffix := str ".pdf" in
  temp_file <- NamedTemporaryFile env suffix ;;
  _ <- file_write env temp_file pdf_bytes ;;
  ret temp_file.

Definition _upload_file (env : Environment) (file_path : pystr) : M remote_file :=
  files_upload env file_path.

(** [range(n)] *)
Definition range (n : Z) : list Z := map Z.of_nat (seq 0 (Z.to_nat n)).

Definition part_text (p : part) : pystr :=
  match p with
  | TextPart t => t
  | OtherPart => []
  end.

(** The body of the [try] of [_generate_content_with_retry]: one call, and
    the text of the response. *)
Definition generate_attempt (env : Environment) (self : GeminiPDFAnalyzer)
    (uploaded_file : remote_file) (prompt : pystr) : M pystr :=
  response <- generate_content env (model self) uploaded_file prompt ;;
  match response with
  | WithText text => ret text
  | WithParts parts => ret (flat_map part_text parts)
  | WithNeither =>
      raise (mkExn "ValueError" (str "Unexpected response format from Gemini"))
  end.

(** The loop of [_generate_content_with_retry] over the attempts that are
    left.  An attempt that raises is followed by a sleep when it is not the
    last one allowed, and raises what it caught when it is.  A loop that
    ends without returning makes the function return [None]. *)
Fixpoint retry_loop (env : Environment) (self : GeminiPDFAnalyzer)
    (uploaded_file : remote_file) (prompt : pystr) (attempts : list Z)
    : M (option pystr) :=
  match attempts with
  | [] => ret None
  | attempt :: rest =>
      fun w =>
        match generate_attempt env self uploaded_file prompt w with
        | (inr text, w1) => (inr (Some text), w1)
        | (inl last_exception, w1) =>
            if (attempt <? max_retries self)%Z then
              let wait_time := ((attempt + 1) * 2)%Z in
              (_ <- time_sleep (inject_Z wait_time) ;;
               retry_loop env self uploaded_file prompt rest) w1
            else (inl last_exception, w1)
        end
  end.

Definition _generate_content_with_retry (env : Environment) (self : GeminiPDFAnalyzer)
    (uploaded_file : remote_file) (prompt : pystr) : M (option pystr) :=
  retry_loop env self uploaded_file prompt (range (max_retries self + 1)).

(** [json_pattern]: the start of the text, three backticks, an optional
    [json], white space ending in a newline, group 1 (any characters, as
    few as possible: DOTALL), a newline, three backticks, the end. *)
Definition json_pattern : regex :=
  Seq Bol
   (Seq (Lit [BACKTICK; BACKTICK; BACKTICK])
     (Seq (Opt (Lit (str "json")))
       (Seq (Star is_space)
         (Seq (Chr LF)
           (Seq (Grp (LazyStar (fun _ => true)))
             (Seq (Lit [LF; BACKTICK; BACKTICK; BACKTICK]) Eol)))))).

Definition none_has_no_strip : exn :=
  mkExn "AttributeError" (str "'NoneType' object has no attribute 'strip'").

Definition out_of_fuel : exn := mkExn "OutOfFuel" [].

(** The text [_parse_json_response] hands to [json.loads]: the trimmed
    response, or the trimmed inside of the fence when the pattern
    matches. *)
Definition cleaned_text (response_text : pystr) : exn + pystr :=
  let cleaned := strip response_text in
  match re_match json_pattern cleaned with
  | Some (Some group1) => inr (strip group1)
  | Some None => inl none_has_no_strip
  | None => inr cleaned
  end.

Definition _parse_json_response (response_text : pystr) : exn + dict :=
  match cleaned_text response_text with
  | inl e => inl e
  | inr cleaned =>
      match loads cleaned with
      | Loaded (PyDict result) => inr result
      | Loaded result => inr [(str "Raw Response", py_str result)]
      | JSONDecodeError => inr [(str "Raw Response", PyStr response_text)]
      | OutOfFuel => inl out_of_fuel
      end
  end.

(* ================================================================== *)
(** ** [json.loads] under the limits of the interpreter *)
(* ================================================================== *)

(** [json.loads] raises other exceptions than [JSONDecodeError], which
    [_parse_json_response] does not catch: [int()] refuses a literal of
    more than [sys.int_info.default_max_str_digits] digits with a
    [ValueError], and the scanner raises [RecursionError] when arrays and
    objects nest deeper than the interpreter allows at the call.  The
    decoder above is the decoder within these limits; the definitions
    below add the limits to it. *)

(** [sys.int_info.default_max_str_digits]; the application does not
    change the limit. *)
Definition int_max_str_digits : nat := 4300.

Definition int_digits_exceeded (digits : nat) : exn :=
  mkExn "ValueError"
    (str "Exceeds the limit (4300 digits) for integer string conversion: value has "
     ++ str_of_int (Z.of_nat digits)
     ++ str " digits; use sys.set_int_max_str_digits() to increase the limit").

Definition recursion_exceeded (container : string) : exn :=
  mkExn "RecursionError"
    (str "maximum recursion depth exceeded while decoding a JSON "
     ++ str container ++ str " from a unicode string").

(** The digits of an integer literal, without the sign. *)
Definition literal_digits (integer : pystr) : pystr :=
  match integer with
  | c :: r => if (c =? 45)%N then r else integer
  | [] => []
  end.

(** [int(integer)], with the limit. *)
Definition parse_int_bounded (integer : pystr) : exn + Z :=
  let digits := length (literal_digits integer) in
  if Nat.ltb int_max_str_digits digits then inl (int_digits_exceeded digits)
  else inr (parse_int integer).

(** The outcome of a scanning function under the limits: the outcome of
    the scan, or an exception that is not a [JSONDecodeError]. *)
Inductive bounded (A : Type) : Type :=
| Within (outcome : scan A)
| Raised (e : exn).
Arguments Within {A} outcome.
Arguments Raised {A} e.

(** The number at the head of the text; only an [int] has a limit. *)
Definition match_number_bounded (s : pystr) : exn + option (pyval * pystr) :=
  match match_integer s with
  | None => inr None
  | Some (integer, r1) =>
      let (frac, r2) := match_frac r1 in
      let (exp, r3) := match_exp r2 in
      match frac, exp with
      | None, None =>
          match parse_int_bounded integer with
          | inr n => inr (Some (PyInt n, r3))
          | inl e => inl e
          end
      | _, _ =>
          inr (Some (PyFloat (integer ++ match frac with Some f => f | None => [] end
                                      ++ match exp with Some e => e | None => [] end), r3))
      end
  end.

Definition JSONObject_bounded (items : pystr -> bounded (list (pystr * pyval)))
    (s : pystr) : bounded pyval :=
  match skip_ws s with
  | c :: r =>
      if (c =? 125)%N then Within (Done (PyDict []) r)
      else if (c =? DQUOTE)%N then
        match items r with
        | Within (Done pairs rest) => Within (Done (PyDict (dict_of_pairs pairs)) rest)
        | Within Invalid => Within Invalid
        | Within Exhausted => Within Exhausted
        | Raised e => Raised e
        end
      else Within Invalid
  | [] => Within Invalid
  end.

Definition JSONArray_bounded (items : pystr -> bounded (list pyval)) (s : pystr)
    : bounded pyval :=
  match skip_ws s with
  | c :: r =>
      if (c =? 93)%N then Within (Done (PyList []) r)
      else
        match items (c :: r) with
        | Within (Done values rest) => Within (Done (PyList values) rest)
        | Within Invalid => Within Invalid
        | Within Exhausted => Within Exhausted
        | Raised e => Raised e
        end
  | [] => Within Invalid
  end.

(** [scan_once] under the limits.  [room] is the number of arrays and
    objects, one inside the other, that the interpreter still allows: the
    scanner enters a recursive call for every array and object it starts
    and raises [RecursionError] when none is left. *)
Fixpoint scan_once_bounded (room fuel : nat) (s : pystr) {struct fuel} : bounded pyval :=
  match fuel with
  | O => Within Exhausted
  | S fuel' =>
      match s with
      | [] => Within Invalid
      | c :: r =>
          if (c =? DQUOTE)%N then
            match py_scanstring r with
            | Some (x, rest) => Within (Done (PyStr x) rest)
            | None => Within Invalid
            end
          else if (c =? 123)%N then
            match room with
            | O => Raised (recursion_exceeded "object")
            | S room' => JSONObject_bounded (object_items_bounded room' fuel') r
            end
          else if (c =? 91)%N then
            match room with
            | O => Raised (recursion_exceeded "array")
            | S room' => JSONArray_bounded (array_items_bounded room' fuel') r
            end
          else if (c =? 110)%N && startswith (str "null") s
          then Within (Done PyNone (skipn 4 s))
          else if (c =? 116)%N && startswith (str "true") s
          then Within (Done (PyBool true) (skipn 4 s))
          else if (c =? 102)%N && startswith (str "false") s
          then Within (Done (PyBool false) (skipn 5 s))
          else
            match match_number_bounded s with
            | inl e => Raised e
            | inr (Some (number, rest)) => Within (Done number rest)
            | inr None =>
                if (c =? 78)%N && startswith (str "NaN") s
                then Within (Done (PyFloat (str "NaN")) (skipn 3 s))
                else if (c =? 73)%N && startswith (str "Infinity") s
                then Within (Done (PyFloat (str "Infinity")) (skipn 8 s))
                else if (c =? 45)%N && startswith (str "-Infinity") s
                then Within (Done (PyFloat (str "-Infinity")) (skipn 9 s))
                else Within Invalid
            end
      end
  end

with object_items_bounded (room fuel : nat) (s : pystr) {struct fuel}
    : bounded (list (pystr * pyval)) :=
  match fuel with
  | O => Within Exhausted
  | S fuel' =>
      match py_scanstring s with
      | None => Within Invalid
      | Some (key, r1) =>
          match skip_ws r1 with
          | c :: r2 =>
              if (c =? 58)%N then
                match scan_once_bounded room fuel' (skip_ws r2) with
                | Within (Done value r3) =>
                    match skip_ws r3 with
                    | c' :: r4 =>
                        if (c' =? 125)%N then Within (Done [(key, value)] r4)
                        else if (c' =? 44)%N then
                          match skip_ws r4 with
                          | q :: r5 =>
                              if (q =? DQUOTE)%N then
                                match object_items_bounded room fuel' r5 with
                                | Within (Done pairs rest) =>
                                    Within (Done ((key, value) :: pairs) rest)
                                | Within Invalid => Within Invalid
                                | Within Exhausted => Within Exhausted
                                | Raised e => Raised e
                                end
                              else Within Invalid
                          | [] => Within Invalid
                          end
                        else Within Invalid
                    | [] => Within Invalid
                    end
                | Within Invalid => Within Invalid
                | Within Exhausted => Within Exhausted
                | Raised e => Raised e
                end
              else Within Invalid
          | [] => Within Invalid
          end
      end
  end

with array_items_bounded (room fuel : nat) (s : pystr) {struct fuel}
    : bounded (list pyval) :=
  match fuel with
  | O => Within Exhausted
  | S fuel' =>
      match scan_once_bounded room fuel' s with
      | Within (Done value r1) =>
          match skip_ws r1 with
          | c :: r2 =>
              if (c =? 93)%N then Within (Done [value] r2)
              else if (c =? 44)%N then
                match array_items_bounded room fuel' (skip_ws r2) with
                | Within (Done values rest) => Within (Done (value :: values) rest)
                | Within Invalid => Within Invalid
                | Within Exhausted => Within Exhausted
                | Raised e => Raised e
                end
              else Within Invalid
          | [] => Within Invalid
          end
      | Within Invalid => Within Invalid
      | Within Exhausted => Within Exhausted
      | Raised e => Raised e
      end
  end.

(** [json.loads(s)] under the limits: what [loads] gives, or the
    exception raised. *)
Definition loads_bounded (room : nat) (s : pystr) : exn + loads_result :=
  if startswith [0xFEFF%N] s then inr JSONDecodeError
  else
    match scan_once_bounded room (fuel_for s) (skip_ws s) with
    | Within (Done obj rest) =>
        match skip_ws rest with
        | [] => inr (Loaded obj)
        | _ :: _ => inr JSONDecodeError
        end
    | Within Invalid => inr JSONDecodeError
    | Within Exhausted => inr OutOfFuel
    | Raised e => inl e
    end.

(** [_parse_json_response] under the limits.  The [except] clause names
    [json.JSONDecodeError] only: a [ValueError] that is not one and a
    [RecursionError] leave the function. *)
Definition _parse_json_response_bounded (room : nat) (response_text : pystr)
    : exn + dict :=
  match cleaned_text response_text with
  | inl e => inl e
  | inr cleaned =>
      match loads_bounded room cleaned with
      | inr (Loaded (PyDict result)) => inr result
      | inr (Loaded result) => inr [(str "Raw Response", py_str result)]
      | inr JSONDecodeError => inr [(str "Raw Response", PyStr response_text)]
      | inr OutOfFuel => inl out_of_fuel
      | inl e => inl e
      end
  end.

(** The [finally] block of [analyze_pdf].  An exception of either
    deletion is caught and dropped. *)
Definition cleanup (env : Environment) (uploaded_file : option remote_file)
    (temp_file_path : option pystr) (w : World) : World :=
  let w1 :=
    match uploaded_file with
    | Some f => snd (files_delete env (file_name f) w)
    | None => w
    end in
  match temp_file_path with
  | Some path =>
      if truthy path && os_path_exists path w1
      then snd (os_remove env path w1)
      else w1
  | None => w1
  end.

(** The statements of the [try] block after the upload. *)
Definition analyze_uploaded (env : Environment) (self : GeminiPDFAnalyzer)
    (uploaded_file : remote_file) (prompt : pystr) : M dict :=
  response_text <- _generate_content_with_retry env self uploaded_file prompt ;;
  result_dict <-
    (match response_text with
     | Some text =>
         match _parse_json_response text with
         | inr d => ret d
         | inl e => raise e
         end
     | None => raise none_has_no_strip
     end) ;;
  _ <- time_sleep (api_delay self) ;;
  ret result_dict.

(** The [try] block, with the values of [uploaded_file] and
    [temp_file_path] when it is left. *)
Definition analyze_try (env : Environment) (self : GeminiPDFAnalyzer)
    (pdf_bytes : bytes) (filename prompt : pystr) (w : World)
    : (exn + dict) * option remote_file * option pystr * World :=
  match _write_temp_pdf env pdf_bytes filename w with
  | (inl e, w1) => (inl e, None, None, w1)
  | (inr temp_file_path, w1) =>
      match _upload_file env temp_file_path w1 with
      | (inl e, w2) => (inl e, None, Some temp_file_path, w2)
      | (inr uploaded_file, w2) =>
          let (outcome, w3) := analyze_uploaded env self uploaded_file prompt w2 in
          (outcome, Some uploaded_file, Some temp_file_path, w3)
      end
  end.

(** What [analyze_pdf] returns: [(success, result_dict, error_message)]. *)
Definition analysis := (bool * dict * option pystr)%type.

Definition analyze_pdf (env : Environment) (self : GeminiPDFAnalyzer)
    (pdf_bytes : bytes) (filename prompt : pystr) (w : World) : analysis * World :=
  match analyze_try env self pdf_bytes filename prompt w with
  | (outcome, uploaded_file, temp_file_path, w1) =>
      let returned :=
        match outcome with
        | inr result_dict => (true, result_dict, None)
        | inl e =>
            (false, [],
             Some (str "Error analyzing " ++ filename ++ str ": " ++ exn_str e))
        end in
      (returned, cleanup env uploaded_file temp_file_path w1)
  end.

(** [os.environ.get(name)] *)
Fixpoint environ_get (name : pystr) (environ : list (pystr * pystr)) : option pystr :=
  match environ with
  | [] => None
  | (k, v) :: rest => if str_eqb name k then Some v else environ_get name rest
  end.

Definition validate_api_key (environ : list (pystr * pystr)) : bool * option pystr :=
  let api_key := environ_get (str "GEMINI_API_KEY") environ in
  match api_key with
  | Some key => if truthy key then (true, Some key) else (false, None)
  | None => (false, None)
  end.

(* ================================================================== *)
(** ** excel_export.py *)
(* ================================================================== *)

(** One turn of the outer loop of [format_results_for_export]. *)
Definition format_row (filename : pystr) (result_dict : dict)
    (column_names : list pystr) : dict :=
  fold_left
    (fun formatted_row col_name =>
       if negb (str_eqb col_name (str "Document Name"))
       then dict_setitem col_name
              (dict_get_default col_name (PyStr []) result_dict) formatted_row
       else formatted_row)
    column_names
    [(str "Document Name", PyStr filename)].

Definition format_results_for_export (results : list dict) (filenames : list pystr)
    (column_names : list pystr) : list dict :=
  map (fun fr => format_row (fst fr) (snd fr) column_names)
      (combine filenames results).

(* ================================================================== *)
(** ** app.py: the batch *)
(* ================================================================== *)

(** The three lists [analyze_pdfs] keeps in the session state. *)
Record SessionState : Type := mkSession {
  results : list dict;
  filenames : list pystr;
  processing_status : list (pystr * option pystr)
}.

(** A document to analyse: [(file_path, filename, pdf_bytes)]. *)
Definition pdf_file := (option pystr * pystr * bytes)%type.

Definition CHECK_MARK : pystr := [0x2705%N].
Definition CROSS_MARK : pystr := [0x274C%N].

Definition message (error_msg : option pystr) : pyval :=
  match error_msg with
  | Some m => PyStr m
  | None => PyNone
  end.

(** What the loop stores for one document: the record of a success, or
    the reason of a failure under the key [Error]. *)
Definition stored_result (a : analysis) : dict :=
  match a with
  | (true, result_dict, _) => result_dict
  | (false, _, error_msg) => [(str "Error", message error_msg)]
  end.

Definition stored_status (a : analysis) : pystr * option pystr :=
  match a with
  | (true, _, _) => (CHECK_MARK, Some (str "Success"))
  | (false, _, error_msg) => (CROSS_MARK, error_msg)
  end.

(** The loop of [analyze_pdfs] from document number [idx] on.  The status
    lines shown on the page are not modelled; the progress bar is. *)
Fixpoint analyze_loop (env : Environment) (analyzer : GeminiPDFAnalyzer)
    (full_prompt : pystr) (total idx : nat) (pdf_files : list pdf_file)
    (st : SessionState) (w : World) : SessionState * World :=
  match pdf_files with
  | [] => (st, w)
  | (file_path, filename, pdf_bytes) :: rest =>
      let w0 := record_event (EvProgress idx total) w in
      let (a, w1) := analyze_pdf env analyzer pdf_bytes filename full_prompt w0 in
      let st1 :=
        mkSession (results st ++ [stored_result a])
                  (filenames st ++ [filename])
                  (processing_status st ++ [stored_status a]) in
      analyze_loop env analyzer full_prompt total (S idx) rest st1 w1
  end.

Definition analyze_pdfs (env : Environment) (pdf_files : list pdf_file)
    (analyzer : GeminiPDFAnalyzer) (prompt_text : pystr) (column_names : list pystr)
    (w : World) : SessionState * World :=
  let full_prompt := build_analysis_prompt prompt_text column_names in
  let total := length pdf_files in
  let (st, w1) :=
    analyze_loop env analyzer full_prompt total 0 pdf_files (mkSession [] [] []) w in
  (st, record_event (EvProgress total total) w1).

(* ================================================================== *)
(** ** prompt_builder.py: the default prompt *)
(* ================================================================== *)

Definition get_default_prompt : pystr :=
  str "Analyze this document and extract the following information with high accuracy."
  ++ [LF; LF]
  ++ str "Focus on:" ++ [LF]
  ++ str "- Key facts and data points" ++ [LF]
  ++ str "- Important dates and deadlines" ++ [LF]
  ++ str "- Named entities (people, organizations, locations)" ++ [LF]
  ++ str "- Document type and purpose"
  ++ [LF; LF]
  ++ str "Be precise and only extract information that is explicitly stated in the document.".

(* ================================================================== *)
(** ** excel_export.py: the width of a column *)
(* ================================================================== *)

(** [s.split('\n')]: the lines of a text; a text without a newline is one
    line, the empty text too. *)
Fixpoint split_lines (s : pystr) : list pystr :=
  match s with
  | [] => [[]]
  | c :: s' =>
      if (c =? LF)%N then [] :: split_lines s'
      else
        match split_lines s' with
        | line :: lines => (c :: line) :: lines
        | [] => [[c]]
        end
  end.

(** [max(len(line) for line in lines) if lines else 0] *)
Definition max_line_length (lines : list pystr) : nat :=
  fold_right (fun line longest => Nat.max (length line) longest) 0 lines.

Section ColumnWidth.

(** The text of [str(v)] for a value [py_str] does not render (a float, a
    list, a nested dictionary). *)
Variable rendering : pyval -> pystr.

(** [str(v)], as a text. *)
Definition str_text (v : pyval) : pystr :=
  match py_str v with
  | PyStr s => s
  | _ => rendering v
  end.

(** The value of [max_width] when [_auto_size_columns] sets the width of
    the column of [col_name]: the header and the longest line of every
    value, with two characters of padding, and 50 at most. *)
Definition max_width (col_name : pystr) (results : list dict) : nat :=
  let max_width :=
    fold_left
      (fun max_width result_dict =>
         let value := str_text (dict_get_default col_name (PyStr []) result_dict) in
         let lines := split_lines value in
         Nat.max max_width (max_line_length lines + 2))
      results (length col_name + 2) in
  Nat.min max_width 50.

End ColumnWidth.

(* ================================================================== *)
(** ** app.py: the columns *)
(* ================================================================== *)

(** The entries of the session state the callbacks of the Configure tab
    use.  [new_column_input] is [None] while the session has no such
    entry. *)
Record Configuration : Type := mkConfiguration {
  columns : list pystr;
  prompt_text : pystr;
  new_column_input : option pystr
}.

Definition add_column (st : Configuration) : Configuration :=
  let new_col_name :=
    strip (match new_column_input st with Some text => text | None => [] end) in
  if truthy new_col_name && negb (str_in new_col_name (columns st))
  then mkConfiguration (columns st ++ [new_col_name]) (prompt_text st) (Some [])
  else st.

(** [l.remove(x)]: the first item equal to [x] goes; [ValueError] when
    there is none. *)
Fixpoint list_remove (x : pystr) (l : list pystr) : exn + list pystr :=
  match l with
  | [] => inl (mkExn "ValueError" (str "list.remove(x): x not in list"))
  | y :: l' =>
      if str_eqb y x then inr l'
      else
        match list_remove x l' with
        | inr l'' => inr (y :: l'')
        | inl e => inl e
        end
  end.

Definition remove_column (col_name : pystr) (st : Configuration) : exn + Configuration :=
  if str_in col_name (columns st) && negb (str_eqb col_name (str "Document Name"))
  then
    match list_remove col_name (columns st) with
    | inr remaining => inr (mkConfiguration remaining (prompt_text st) (new_column_input st))
    | inl e => inl e
    end
  else inr st.

(* ================================================================== *)
(** ** app.py: the templates *)
(* ================================================================== *)

(** A newline and the indentation of a nesting level, as [json.dumps]
    writes them with [indent=2]. *)
Definition newline_indent (level : nat) : pystr := LF :: repeat 32%N (2 * level).

(** [json.dumps(items, indent=2)] for a list of strings at a nesting
    level: one item per line, or [[]] for the empty list. *)
Definition dumps_list_indent (level : nat) (items : list pystr) : pystr :=
  match items with
  | [] => str "[]"
  | _ :: _ =>
      str "[" ++ newline_indent (S level)
      ++ join (str "," ++ newline_indent (S level))
              (map py_encode_basestring_ascii items)
      ++ newline_indent level ++ str "]"
  end.

(** [save_template]: the text offered for download,
    [json.dumps(template, indent=2)] for the dictionary with the prompt
    and with the columns other than "Document Name". *)
Definition save_template (st : Configuration) : pystr :=
  let template_columns :=
    filter (fun col => negb (str_eqb col (str "Document Name"))) (columns st) in
  str "{" ++ newline_indent 1
  ++ py_encode_basestring_ascii (str "prompt") ++ str ": "
  ++ py_encode_basestring_ascii (prompt_text st)
  ++ str "," ++ newline_indent 1
  ++ py_encode_basestring_ascii (str "columns") ++ str ": "
  ++ dumps_list_indent 1 template_columns
  ++ newline_indent 0 ++ str "}".

(** The name of the type of a value, as the messages of [TypeError] and
    [AttributeError] give it. *)
Definition type_name (v : pyval) : pystr :=
  match v with
  | PyNone => str "NoneType"
  | PyBool _ => str "bool"
  | PyInt _ => str "int"
  | PyFloat _ => str "float"
  | PyStr _ => str "str"
  | PyList _ => str "list"
  | PyDict _ => str "dict"
  | PyStrOf _ => str "str"
  end.

(** What the page shows: [st.success] or [st.error]. *)
Inductive notice : Type :=
| StSuccess (text : pystr)
| StError (text : pystr).

(** The two entries of the session [load_template] assigns.  A template
    can hold any JSON value, so the entries are values here. *)
Record TemplateEntries : Type := mkEntries {
  entry_prompt_text : pyval;
  entry_columns : pyval
}.

(** [load_template], from what [json.load(uploaded_file)] returned or
    raised.  The prompt is assigned before the columns are looked at. *)
Definition load_template (loaded : exn + pyval) (st : TemplateEntries)
    : TemplateEntries * notice :=
  let failed (e : exn) := StError (str "Error loading template: " ++ exn_str e) in
  match loaded with
  | inl e => (st, failed e)
  | inr (PyDict template) =>
      let st1 :=
        mkEntries (dict_get_default (str "prompt") (PyStr get_default_prompt) template)
                  (entry_columns st) in
      match dict_get_default (str "columns") (PyList []) template with
      | PyList loaded_columns =>
          (mkEntries (entry_prompt_text st1)
                     (PyList (PyStr (str "Document Name") :: loaded_columns)),
           StSuccess (str "Template loaded successfully!"))
      | other =>
          (st1,
           failed (mkExn "TypeError"
                     (str "can only concatenate list (not " ++ quoted (type_name other)
                      ++ str ") to list")))
      end
  | inr other =>
      (st,
       failed (mkExn "AttributeError"
                 (str "'" ++ type_name other ++ str "' object has no attribute 'get'")))
  end.

(* ================================================================== *)
(** * Properties *)
(* ================================================================== *)

(** ** Strings and dictionaries *)

Lemma str_eqb_refl : forall a, str_eqb a a = true.
Proof.
  induction a as [|x a IH]; simpl; [reflexivity|].
  now rewrite N.eqb_refl, IH.
Qed.

Lemma str_eqb_eq : forall a b, str_eqb a b = true <-> a = b.
Proof.
  induction a as [|x a IH]; intros [|y b]; simpl; split; intros H;
    try reflexivity; try discriminate.
  - apply andb_true_iff in H as [Hx Hr].
    apply N.eqb_eq in Hx. apply IH in Hr. now subst.
  - injection H as -> ->. now rewrite N.eqb_refl, str_eqb_refl.
Qed.

Lemma str_eqb_neq : forall a b, str_eqb a b = false <-> a <> b.
Proof.
  intros a b. split.
  - intros H E. apply str_eqb_eq in E. congruence.
  - intros H. destruct (str_eqb a b) eqn:E; [|reflexivity].
    apply str_eqb_eq in E. contradiction.
Qed.

Lemma str_eqb_sym : forall a b, str_eqb a b = str_eqb b a.
Proof.
  intros a b. destruct (str_eqb a b) eqn:E.
  - apply str_eqb_eq in E. subst. now rewrite str_eqb_refl.
  - symmetry. apply str_eqb_neq. apply str_eqb_neq in E. congruence.
Qed.

(** A text occurs in another one. *)
Definition is_substring (needle hay : pystr) : Prop :=
  exists before after, hay = before ++ needle ++ after.

Fixpoint substringb (needle hay : pystr) : bool :=
  startswith needle hay ||
  match hay with
  | [] => false
  | _ :: hay' => substringb needle hay'
  end.

Lemma startswith_app : forall p s, startswith p (p ++ s) = true.
Proof.
  induction p as [|c p IH]; intros s; simpl; [reflexivity|].
  now rewrite N.eqb_refl, IH.
Qed.

Lemma startswith_prefix : forall p s, startswith p s = true -> exists r, s = p ++ r.
Proof.
  induction p as [|c p IH]; intros s H; simpl in *.
  - now exists s.
  - destruct s as [|x s]; [discriminate|].
    apply andb_true_iff in H as [Hc Hp]. apply N.eqb_eq in Hc. subst.
    destruct (IH _ Hp) as [r ->]. now exists r.
Qed.

Lemma substringb_complete :
  forall needle hay, is_substring needle hay -> substringb needle hay = true.
Proof.
  intros needle hay [before [after ->]].
  induction before as [|c before IH].
  - simpl. pose proof (startswith_app needle after) as H.
    destruct (needle ++ after); simpl; now rewrite H.
  - simpl. rewrite IH. apply orb_true_r.
Qed.

Lemma dict_get_setitem_same :
  forall k v d, dict_get k (dict_setitem k v d) = Some v.
Proof.
  intros k v. induction d as [|[k' v'] d IH]; simpl.
  - now rewrite str_eqb_refl.
  - destruct (str_eqb k k') eqn:E; simpl; rewrite E; [reflexivity | exact IH].
Qed.

Lemma dict_get_setitem_other :
  forall k k' v d, k <> k' -> dict_get k (dict_setitem k' v d) = dict_get k d.
Proof.
  intros k k' v d Hne. induction d as [|[k0 v0] d IH]; simpl.
  - apply str_eqb_neq in Hne. now rewrite Hne.
  - destruct (str_eqb k' k0) eqn:E; simpl.
    + apply str_eqb_eq in E. subst k0.
      apply str_eqb_neq in Hne. now rewrite Hne.
    + destruct (str_eqb k k0); [reflexivity | exact IH].
Qed.

(** ** prompt_builder.py *)

Lemma output_columns_In :
  forall cols col,
    In col (output_columns cols) <->
    In col cols /\ lower col <> str "document name".
Proof.
  intros cols col. unfold output_columns. rewrite filter_In.
  rewrite negb_true_iff, str_eqb_neq. reflexivity.
Qed.

Lemma output_columns_without :
  forall cols col,
    lower col = str "document name" ->
    output_columns (filter (fun c => negb (str_eqb c col)) cols) = output_columns cols.
Proof.
  intros cols col Hcol. unfold output_columns.
  induction cols as [|c cols IH]; simpl; [reflexivity|].
  destruct (str_eqb c col) eqn:E; simpl.
  - apply str_eqb_eq in E. subst c. rewrite Hcol, str_eqb_refl. simpl. exact IH.
  - destruct (negb (str_eqb (lower c) (str "document name"))); [f_equal|]; exact IH.
Qed.

Lemma is_substring_refl : forall s, is_substring s s.
Proof. intros s. exists [], []. simpl. now rewrite app_nil_r. Qed.

Lemma is_substring_app_l :
  forall n h pre, is_substring n h -> is_substring n (pre ++ h).
Proof.
  intros n h pre [b [a ->]]. exists (pre ++ b), a. now rewrite <- app_assoc.
Qed.

Lemma is_substring_app_r :
  forall n h post, is_substring n h -> is_substring n (h ++ post).
Proof.
  intros n h post [b [a ->]]. exists b, (a ++ post). now rewrite <- !app_assoc.
Qed.

Lemma join_cons :
  forall sep p rest,
    rest <> [] -> join sep (p :: rest) = p ++ sep ++ join sep rest.
Proof. intros sep p [|q rest] H; [contradiction | reflexivity]. Qed.

Lemma column_list_contains :
  forall cols col, In col cols -> is_substring (quoted col) (column_list cols).
Proof.
  unfold column_list. induction cols as [|c cols IH]; intros col Hin; [contradiction|].
  destruct cols as [|c' cols].
  - destruct Hin as [->|[]]. simpl. apply is_substring_refl.
  - change (map quoted (c :: c' :: cols)) with (quoted c :: map quoted (c' :: cols)).
    rewrite join_cons by discriminate.
    destruct Hin as [->|Hin].
    + apply is_substring_app_r, is_substring_refl.
    + apply is_substring_app_l, is_substring_app_l, IH, Hin.
Qed.

Lemma quoted_contains : forall col, is_substring col (quoted col).
Proof. intros col. exists [DQUOTE], [DQUOTE]. reflexivity. Qed.

(** The spec's reading of the remaining fields: the field list without the
    reserved field, spelled as it is reserved. *)
Definition remaining_fields (column_names : list pystr) : list pystr :=
  filter (fun col => negb (str_eqb col (str "Document Name"))) column_names.

(** C8, as amended.  [build_analysis_prompt] leaves out every column whose
    lower-case form is "document name" (not only the reserved spelling).
    When no column is left the output is the user instruction unchanged;
    otherwise the output is the instruction followed by the structured
    request, every column that is left occurs verbatim (in double quotes)
    in the list of requested keys and in the output, and the reserved
    field "Document Name" is not among the requested keys. *)
Theorem build_analysis_prompt_requests_remaining_fields :
  forall (user_prompt : pystr) (column_names : list pystr),
    (forall col, In col (output_columns column_names) <->
                 In col column_names /\ lower col <> str "document name") /\
    (output_columns column_names = [] ->
       build_analysis_prompt user_prompt column_names = user_prompt) /\
    (output_columns column_names <> [] ->
       build_analysis_prompt user_prompt column_names =
         user_prompt ++ structured_instruction (column_list (output_columns column_names)) /\
       (forall col, In col (output_columns column_names) ->
          is_substring (quoted col) (column_list (output_columns column_names)) /\
          is_substring (quoted col) (build_analysis_prompt user_prompt column_names)) /\
       ~ In (str "Document Name") (output_columns column_names)).
Proof.
  intros user_prompt column_names. split; [|split].
  - intros col. apply output_columns_In.
  - intros H. unfold build_analysis_prompt. now rewrite H.
  - intros Hne.
    assert (Hb : build_analysis_prompt user_prompt column_names =
                 user_prompt ++ structured_instruction
                                  (column_list (output_columns column_names))).
    { unfold build_analysis_prompt.
      destruct (output_columns column_names); [contradiction | reflexivity]. }
    split; [exact Hb | split].
    + intros col Hin.
      pose proof (column_list_contains _ _ Hin) as Hs.
      split; [exact Hs|].
      rewrite Hb. apply is_substring_app_l. unfold structured_instruction.
      apply is_substring_app_l, is_substring_app_l, is_substring_app_r. exact Hs.
    + intros Hin. apply output_columns_In in Hin as [_ Hl]. apply Hl. reflexivity.
Qed.

(** C8 as stated fails: with the columns "Document Name" and "document
    name", the field list minus the reserved field is not empty, yet the
    output is the user instruction alone and does not contain the
    remaining field name. *)
Lemma build_analysis_prompt_case_variant :
  remaining_fields [str "Document Name"; str "document name"] = [str "document name"] /\
  build_analysis_prompt (str "P") [str "Document Name"; str "document name"] = str "P" /\
  substringb (str "document name")
    (build_analysis_prompt (str "P") [str "Document Name"; str "document name"]) = false.
Proof. repeat split; reflexivity. Qed.

(** C9.  The exclusion of the identity field ignores letter case: a
    column whose lower-case form is "document name" is never among the
    requested keys, and the compiled prompt is the one the field list
    without that column gives. *)
Theorem identity_exclusion_ignores_case :
  forall (user_prompt : pystr) (column_names : list pystr) (col : pystr),
    lower col = str "document name" ->
    ~ In col (output_columns column_names) /\
    build_analysis_prompt user_prompt column_names =
      build_analysis_prompt user_prompt
        (filter (fun c => negb (str_eqb c col)) column_names).
Proof.
  intros user_prompt column_names col Hcol. split.
  - intros Hin. apply output_columns_In in Hin as [_ Hl]. contradiction.
  - unfold build_analysis_prompt. now rewrite output_columns_without.
Qed.

Lemma identity_exclusion_ignores_case_witness :
  lower (str "DOCUMENT NAME") = str "document name" /\
  (~ In (str "DOCUMENT NAME")
       (output_columns [str "Document Name"; str "DOCUMENT NAME"; str "Summary"]) /\
   build_analysis_prompt (str "P") [str "Document Name"; str "DOCUMENT NAME"; str "Summary"] =
     build_analysis_prompt (str "P")
       (filter (fun c => negb (str_eqb c (str "DOCUMENT NAME")))
               [str "Document Name"; str "DOCUMENT NAME"; str "Summary"])).
Proof.
  split; [reflexivity|].
  apply (identity_exclusion_ignores_case (str "P")
           [str "Document Name"; str "DOCUMENT NAME"; str "Summary"] (str "DOCUMENT NAME")).
  reflexivity.
Defined.

(** ** gemini_client.py: the credential *)

(** C10.  [validate_api_key] answers [(False, None)] when the variable
    GEMINI_API_KEY is unset and when it is set to the empty string, and
    [(True, key)] with the key as it is for every other value. *)
Theorem validate_api_key_empty_is_absent :
  forall environ : list (pystr * pystr),
    (environ_get (str "GEMINI_API_KEY") environ = None ->
       validate_api_key environ = (false, None)) /\
    (environ_get (str "GEMINI_API_KEY") environ = Some [] ->
       validate_api_key environ = (false, None)) /\
    (forall key, key <> [] ->
       environ_get (str "GEMINI_API_KEY") environ = Some key ->
       validate_api_key environ = (true, Some key)).
Proof.
  intros environ. unfold validate_api_key. repeat split.
  - intros ->. reflexivity.
  - intros ->. reflexivity.
  - intros key Hne ->. destruct key; [contradiction | reflexivity].
Qed.

(** ** excel_export.py *)

(** The value [format_row] gives a declared column. *)
Definition exported_value (result_dict : dict) (col_name : pystr) : pyval :=
  dict_get_default col_name (PyStr []) result_dict.

Lemma format_row_fold_get :
  forall result_dict column_names acc k,
    dict_get k
      (fold_left
         (fun formatted_row col_name =>
            if negb (str_eqb col_name (str "Document Name"))
            then dict_setitem col_name
                   (dict_get_default col_name (PyStr []) result_dict) formatted_row
            else formatted_row)
         column_names acc) =
    if str_in k column_names && negb (str_eqb k (str "Document Name"))
    then Some (exported_value result_dict k)
    else dict_get k acc.
Proof.
  intros result_dict. induction column_names as [|c cols IH]; intros acc k.
  - reflexivity.
  - cbn [fold_left]. rewrite IH. unfold str_in. cbn [existsb].
    destruct (str_eqb k (str "Document Name")) eqn:Ek; cbn [negb].
    + rewrite !andb_false_r.
      destruct (str_eqb c (str "Document Name")) eqn:Ec; cbn [negb]; [reflexivity|].
      apply dict_get_setitem_other. apply str_eqb_eq in Ek. subst k.
      intros E. subst c. rewrite str_eqb_refl in Ec. discriminate.
    + rewrite !andb_true_r.
      destruct (existsb (str_eqb k) cols) eqn:Ein.
      * rewrite orb_true_r. reflexivity.
      * rewrite orb_false_r.
        destruct (str_eqb k c) eqn:Ekc.
        -- apply str_eqb_eq in Ekc. subst c. rewrite Ek. cbn [negb].
           now rewrite dict_get_setitem_same.
        -- destruct (str_eqb c (str "Document Name")); cbn [negb]; [reflexivity|].
           apply dict_get_setitem_other. now apply str_eqb_neq.
Qed.

Lemma str_in_In : forall x l, str_in x l = true <-> In x l.
Proof.
  intros x l. unfold str_in. rewrite existsb_exists. split.
  - intros [y [Hin Heq]]. apply str_eqb_eq in Heq. now subst.
  - intros Hin. exists x. split; [exact Hin | apply str_eqb_refl].
Qed.

Lemma format_row_identity :
  forall filename result_dict column_names,
    dict_get (str "Document Name") (format_row filename result_dict column_names)
    = Some (PyStr filename).
Proof.
  intros. unfold format_row. rewrite format_row_fold_get.
  rewrite str_eqb_refl. cbn [negb]. rewrite andb_false_r. reflexivity.
Qed.

Lemma format_row_column :
  forall filename result_dict column_names col,
    In col column_names -> col <> str "Document Name" ->
    dict_get col (format_row filename result_dict column_names)
    = Some (exported_value result_dict col).
Proof.
  intros filename result_dict column_names col Hin Hne. unfold format_row.
  rewrite format_row_fold_get.
  apply str_in_In in Hin. apply str_eqb_neq in Hne. now rewrite Hin, Hne.
Qed.

Lemma nth_error_zip :
  forall {A B : Type} (l : list A) (l' : list B) i a b,
    nth_error l i = Some a -> nth_error l' i = Some b ->
    nth_error (combine l l') i = Some (a, b).
Proof.
  intros A B. induction l as [|x l IH]; intros l' i a b Ha Hb.
  - destruct i; discriminate.
  - destruct l' as [|y l']; [destruct i; discriminate|].
    destruct i as [|i]; simpl in *.
    + now injection Ha as ->; injection Hb as ->.
    + now apply IH.
Qed.

Lemma exported_value_failure :
  forall record reason col,
    exported_value (stored_result (false, record, reason)) col =
    if str_eqb col (str "Error") then message reason else PyStr [].
Proof.
  intros record reason col. unfold exported_value, dict_get_default. simpl.
  now destruct (str_eqb col (str "Error")).
Qed.

(** C5, as amended.  For every outcome and its file name,
    [format_results_for_export] makes a row whose field "Document Name" is
    the file name.  For a success every declared column other than
    "Document Name" holds the value the record has under that key, and the
    empty string when the record has no such key.  For a failure every
    declared column other than "Document Name" and "Error" holds the empty
    string, and a declared column named "Error" holds the failure
    reason. *)
Theorem format_results_for_export_rows :
  forall (outcomes : list analysis) (filenames column_names : list pystr)
         (i : nat) (filename : pystr) (a : analysis),
    nth_error filenames i = Some filename ->
    nth_error outcomes i = Some a ->
    exists row,
      nth_error (format_results_for_export (map stored_result outcomes)
                   filenames column_names) i = Some row /\
      dict_get (str "Document Name") row = Some (PyStr filename) /\
      match a with
      | (true, record, _) =>
          forall col, In col column_names -> col <> str "Document Name" ->
            dict_get col row = Some (dict_get_default col (PyStr []) record)
      | (false, _, reason) =>
          forall col, In col column_names -> col <> str "Document Name" ->
            dict_get col row =
              Some (if str_eqb col (str "Error") then message reason else PyStr [])
      end.
Proof.
  intros outcomes filenames column_names i filename a Hf Ha.
  exists (format_row filename (stored_result a) column_names).
  split; [|split].
  - unfold format_results_for_export.
    apply (map_nth_error stored_result) in Ha.
    pose proof (nth_error_zip _ _ _ _ _ Hf Ha) as Hz.
    apply (map_nth_error
             (fun fr => format_row (fst fr) (snd fr) column_names)) in Hz.
    exact Hz.
  - apply format_row_identity.
  - destruct a as [[[|] record] reason].
    + intros col Hin Hne. now apply format_row_column.
    + intros col Hin Hne. rewrite format_row_column by assumption.
      now rewrite exported_value_failure.
Qed.

Lemma format_results_for_export_rows_witness :
  exists row,
    nth_error (format_results_for_export
                 (map stored_result [(true, [(str "Summary", PyStr (str "ok"))], None)])
                 [str "a.pdf"] [str "Document Name"; str "Summary"; str "Date"]) 0
    = Some row /\
    dict_get (str "Document Name") row = Some (PyStr (str "a.pdf")) /\
    (forall col, In col [str "Document Name"; str "Summary"; str "Date"] ->
       col <> str "Document Name" ->
       dict_get col row =
         Some (dict_get_default col (PyStr []) [(str "Summary", PyStr (str "ok"))])).
Proof.
  apply (format_results_for_export_rows
           [(true, [(str "Summary", PyStr (str "ok"))], None)]
           [str "a.pdf"] [str "Document Name"; str "Summary"; str "Date"]
           0 (str "a.pdf") (true, [(str "Summary", PyStr (str "ok"))], None));
    reflexivity.
Defined.

(** C5 as stated fails: a failure stored by [analyze_pdfs] fills the
    declared column "Error" with its reason. *)
Lemma format_results_failure_fills_error_column :
  format_results_for_export
    [stored_result (false, [], Some (str "Error analyzing a.pdf: boom"))]
    [str "a.pdf"] [str "Document Name"; str "Error"; str "Summary"]
  = [[(str "Document Name", PyStr (str "a.pdf"));
      (str "Error", PyStr (str "Error analyzing a.pdf: boom"));
      (str "Summary", PyStr [])]].
Proof. reflexivity. Qed.

(** ** gemini_client.py: generation with retries *)

(** What one attempt makes of the outcome of its call: the text of the
    response, or the exception the attempt raises. *)
Definition attempt_result (outcome : exn + response) : exn + pystr :=
  match outcome with
  | inl e => inl e
  | inr (WithText text) => inr text
  | inr (WithParts parts) => inr (flat_map part_text parts)
  | inr WithNeither =>
      inl (mkExn "ValueError" (str "Unexpected response format from Gemini"))
  end.

Definition failed_attempt (outcome : exn + response) : Prop :=
  exists e, attempt_result outcome = inl e.

(** The backoff after attempt number [attempt]. *)
Definition backoff (attempt : Z) : Q := inject_Z ((attempt + 1) * 2).

(** The calls a run of attempts makes, in the order they are made: the
    attempts are numbered from [attempt] on, and every attempt but the
    last is followed by its backoff. *)
Fixpoint retry_trace (model : pystr) (file : remote_file) (prompt : pystr)
    (attempt : Z) (outcomes : list (exn + response)) : list event :=
  match outcomes with
  | [] => []
  | o :: rest =>
      EvGenerate model file prompt o ::
      match rest with
      | [] => []
      | _ :: _ =>
          EvSleep (backoff attempt) :: retry_trace model file prompt (attempt + 1) rest
      end
  end.

Lemma generate_attempt_run :
  forall env self file prompt w,
    generate_attempt env self file prompt w =
    (attempt_result (env_generate env (history w) (model self) file prompt),
     record_event
       (EvGenerate (model self) file prompt
          (env_generate env (history w) (model self) file prompt)) w).
Proof.
  intros. unfold generate_attempt, bind, generate_content.
  destruct (env_generate env (history w) (model self) file prompt) as [e|[t|ps|]];
    reflexivity.
Qed.

Lemma backoff_sleep :
  forall attempt w, (0 <= attempt)%Z ->
    time_sleep (backoff attempt) w = (inr tt, record_event (EvSleep (backoff attempt)) w).
Proof.
  intros attempt w H. unfold time_sleep, backoff.
  assert (E : Qle_bool 0 (inject_Z ((attempt + 1) * 2)) = true).
  { unfold Qle_bool, inject_Z. simpl. apply Z.leb_le. lia. }
  now rewrite E.
Qed.

Lemma range_succ : forall i m, seq i (S m) = i :: seq (S i) m.
Proof. reflexivity. Qed.

(** The loop over the attempts [i, i+1, ..., i+m-1], the last of which is
    attempt number [max_retries]. *)
Lemma retry_loop_trace :
  forall env self file prompt m i w,
    (Z.of_nat i + Z.of_nat m = max_retries self + 1)%Z ->
    (1 <= m)%nat ->
    exists failed last,
      hd_error (failed ++ [last]) =
        Some (env_generate env (history w) (model self) file prompt) /\
      history (snd (retry_loop env self file prompt (map Z.of_nat (seq i m)) w)) =
        rev (retry_trace (model self) file prompt (Z.of_nat i) (failed ++ [last]))
        ++ history w /\
      local_files (snd (retry_loop env self file prompt (map Z.of_nat (seq i m)) w))
        = local_files w /\
      remote_files (snd (retry_loop env self file prompt (map Z.of_nat (seq i m)) w))
        = remote_files w /\
      Forall failed_attempt failed /\
      (S (length failed) <= m)%nat /\
      match attempt_result last with
      | inr text =>
          fst (retry_loop env self file prompt (map Z.of_nat (seq i m)) w)
          = inr (Some text)
      | inl e =>
          S (length failed) = m /\
          fst (retry_loop env self file prompt (map Z.of_nat (seq i m)) w) = inl e
      end.
Proof.
  intros env self file prompt. induction m as [|m IH]; intros i w Hsum Hm; [lia|].
  rewrite range_succ. cbn [map retry_loop]. rewrite generate_attempt_run.
  set (o := env_generate env (history w) (model self) file prompt).
  set (w1 := record_event (EvGenerate (model self) file prompt o) w).
  destruct (attempt_result o) as [e|text] eqn:Eo.
  - destruct (Z.of_nat i <? max_retries self)%Z eqn:Elt.
    + apply Z.ltb_lt in Elt.
      cbv zeta. unfold bind. fold (backoff (Z.of_nat i)).
      rewrite backoff_sleep by lia.
      set (w2 := record_event (EvSleep (backoff (Z.of_nat i))) w1).
      destruct (IH (S i) w2) as [failed [last [_ [Hh [Hl [Hr [Hf [Hlen Hres]]]]]]]];
        [lia | lia |].
      exists (o :: failed), last. rewrite Hh, Hl, Hr.
      split; [reflexivity|].
      split; [|split; [reflexivity | split; [reflexivity | split; [|split]]]].
      * cbn [app retry_trace]. destruct (failed ++ [last]) eqn:Ef.
        { destruct failed; discriminate. }
        rewrite <- Ef. cbn [rev]. rewrite <- !app_assoc. cbn [app].
        replace (Z.of_nat i + 1)%Z with (Z.of_nat (S i)) by lia. reflexivity.
      * constructor; [now exists e | exact Hf].
      * cbn [length]. lia.
      * destruct (attempt_result last); [|exact Hres].
        destruct Hres as [Hm' Hres]. split; [cbn [length]; lia | exact Hres].
    + apply Z.ltb_ge in Elt. exists [], o. cbn [app retry_trace rev length fst snd].
      rewrite Eo. split; [reflexivity|].
      split; [reflexivity | split; [reflexivity | split; [reflexivity |]]].
      split; [constructor | split; [lia | split; [lia | reflexivity]]].
  - exists [], o. cbn [app retry_trace rev length fst snd]. rewrite Eo.
    split; [reflexivity|].
    split; [reflexivity | split; [reflexivity | split; [reflexivity |]]].
    split; [constructor | split; [lia | reflexivity]].
Qed.

Lemma range_seq :
  forall n, (0 <= n)%Z -> range (n + 1) = map Z.of_nat (seq 0 (S (Z.to_nat n))).
Proof.
  intros n H. unfold range. do 2 f_equal. lia.
Qed.

(** The sleeps and the generation calls of a trace. *)
Definition waits (trace : list event) : list Q :=
  flat_map (fun e => match e with EvSleep seconds => [seconds] | _ => [] end) trace.

Definition attempts_made (trace : list event) : nat :=
  length (filter (fun e => match e with EvGenerate _ _ _ _ => true | _ => false end)
                 trace).

Lemma retry_trace_attempts :
  forall model file prompt outcomes i,
    attempts_made (retry_trace model file prompt i outcomes) = length outcomes.
Proof.
  intros model file prompt. unfold attempts_made.
  induction outcomes as [|o rest IH]; intros i; [reflexivity|].
  cbn [retry_trace filter length]. destruct rest as [|o' rest]; [reflexivity|].
  cbn [filter]. now rewrite IH.
Qed.

Lemma retry_trace_waits :
  forall model file prompt failed last i,
    waits (retry_trace model file prompt i (failed ++ [last])) =
    map (fun k => backoff (i + Z.of_nat k)) (seq 0 (length failed)).
Proof.
  intros model file prompt. unfold waits.
  induction failed as [|o failed IH]; intros last i; [reflexivity|].
  cbn [app retry_trace flat_map length seq map].
  destruct (failed ++ [last]) eqn:E; [destruct failed; discriminate|].
  rewrite <- E. cbn [flat_map app]. rewrite IH.
  rewrite Z.add_0_r. f_equal. rewrite <- seq_shift, map_map.
  apply map_ext. intros k. f_equal. lia.
Qed.

(** What [analyze_pdf] makes of an exception of
    [_generate_content_with_retry]: the [except] clause turns it into the
    reason of the failure, and the [finally] block does not change what is
    returned. *)
Lemma analyze_pdf_reports_generation_failure :
  forall (env : Environment) (self : GeminiPDFAnalyzer) (file : remote_file)
         (prompt : pystr) (w : World) (e : exn)
         (pdf_bytes : bytes) (filename temp_file_path : pystr) (w0 w1 : World),
    fst (_generate_content_with_retry env self file prompt w) = inl e ->
    _write_temp_pdf env pdf_bytes filename w0 = (inr temp_file_path, w1) ->
    _upload_file env temp_file_path w1 = (inr file, w) ->
    fst (analyze_pdf env self pdf_bytes filename prompt w0)
    = (false, [], Some (str "Error analyzing " ++ filename ++ str ": " ++ exn_str e)).
Proof.
  intros env self file prompt w e pdf_bytes filename temp_file_path w0 w1
         Hraised Hwrite Hupload.
  unfold analyze_pdf, analyze_try. rewrite Hwrite, Hupload.
  unfold analyze_uploaded, bind.
  destruct (_generate_content_with_retry env self file prompt w) as [outcome w2].
  cbn [fst] in Hraised. subst outcome. reflexivity.
Qed.

(** C4.  With [max_retries = n] (n not negative), the calls
    [_generate_content_with_retry] makes are, in order: attempt 0, and for
    each failed attempt i that is not the last one allowed, a sleep of
    (i+1)*2 seconds followed by attempt i+1.  Nothing is slept before the
    first attempt, every attempt but the last made has failed, and at most
    n+1 attempts are made.  When the last attempt made succeeds its text is
    returned; when it fails, n+1 attempts were made, its exception is the
    one raised, and it is the reason [analyze_pdf] gives for the failure of
    the document: the result of an analysis whose upload gave the file is
    [(False, {}, "Error analyzing <filename>: <str(e)>")] for that
    exception [e].  In particular two failures with n = 2 give the waits 2
    and 4 and three attempts. *)
Theorem generate_with_retry_backoff :
  forall (env : Environment) (self : GeminiPDFAnalyzer) (file : remote_file)
         (prompt : pystr) (w : World),
    (0 <= max_retries self)%Z ->
    exists (failed : list (exn + response)) (last : exn + response) (new : list event),
      new = retry_trace (model self) file prompt 0 (failed ++ [last]) /\
      history (snd (_generate_content_with_retry env self file prompt w))
        = rev new ++ history w /\
      hd_error new =
        Some (EvGenerate (model self) file prompt
                (env_generate env (history w) (model self) file prompt)) /\
      Forall failed_attempt failed /\
      attempts_made new = S (length failed) /\
      (Z.of_nat (attempts_made new) <= max_retries self + 1)%Z /\
      waits new = map (fun i => backoff (Z.of_nat i)) (seq 0 (length failed)) /\
      match attempt_result last with
      | inr text =>
          fst (_generate_content_with_retry env self file prompt w) = inr (Some text)
      | inl e =>
          Z.of_nat (attempts_made new) = (max_retries self + 1)%Z /\
          fst (_generate_content_with_retry env self file prompt w) = inl e /\
          (forall (pdf_bytes : bytes) (filename temp_file_path : pystr) (w0 w1 : World),
             _write_temp_pdf env pdf_bytes filename w0 = (inr temp_file_path, w1) ->
             _upload_file env temp_file_path w1 = (inr file, w) ->
             fst (analyze_pdf env self pdf_bytes filename prompt w0)
             = (false, [],
                Some (str "Error analyzing " ++ filename ++ str ": " ++ exn_str e)))
      end /\
      (max_retries self = 2%Z -> length failed = 2 ->
         waits new = [inject_Z 2; inject_Z 4] /\ attempts_made new = 3).
Proof.
  intros env self file prompt w Hn.
  pose proof (analyze_pdf_reports_generation_failure env self file prompt w) as Hreason.
  unfold _generate_content_with_retry in *. rewrite range_seq in * by exact Hn.
  destruct (retry_loop_trace env self file prompt (S (Z.to_nat (max_retries self))) 0 w)
    as [failed [last [Hhd [Hh [_ [_ [Hf [Hlen Hres]]]]]]]]; [lia | lia |].
  exists failed, last, (retry_trace (model self) file prompt 0 (failed ++ [last])).
  assert (Ha : attempts_made (retry_trace (model self) file prompt 0 (failed ++ [last]))
               = S (length failed)).
  { rewrite retry_trace_attempts, length_app. cbn [length]. lia. }
  assert (Hw : waits (retry_trace (model self) file prompt 0 (failed ++ [last]))
               = map (fun i => backoff (Z.of_nat i)) (seq 0 (length failed))).
  { rewrite retry_trace_waits. apply map_ext. intros k. reflexivity. }
  split; [reflexivity|]. split; [exact Hh|].
  split.
  { destruct (failed ++ [last]) as [|o rest]; [discriminate|].
    cbn [hd_error] in Hhd. injection Hhd as ->. reflexivity. }
  split; [exact Hf|]. split; [exact Ha|]. split; [rewrite Ha; lia|].
  split; [exact Hw|]. split.
  - destruct (attempt_result last) as [e|text]; [|exact Hres].
    destruct Hres as [Hm Hres]. split; [rewrite Ha; lia|]. split; [exact Hres|].
    intros pdf_bytes filename temp_file_path w0 w1 Hwrite Hupload.
    apply (Hreason e pdf_bytes filename temp_file_path w0 w1); assumption.
  - intros _ H2. rewrite Hw, Ha, H2. split; reflexivity.
Qed.

Definition flaky_env : Environment :=
  mkEnvironment
    (fun _ => inr (str "/tmp/tmpa1b2c3"))
    (fun _ _ _ => None)
    (fun _ _ => inr (mkRemoteFile (str "files/abc")))
    (fun h _ _ _ =>
       if Nat.ltb (length h) 3 then inl (mkExn "ServerError" (str "503"))
       else inr (WithText (str "{}")))
    (fun _ _ => None)
    (fun _ _ => None).

Definition flaky_analyzer : GeminiPDFAnalyzer :=
  mkAnalyzer (str "gemini-3-pro-preview") 2 1%Q.

Definition empty_world : World := mkWorld [] [] [].

Lemma generate_with_retry_backoff_witness :
  (0 <= max_retries flaky_analyzer)%Z /\
  exists (failed : list (exn + response)) (last : exn + response) (new : list event),
    new = retry_trace (model flaky_analyzer) (mkRemoteFile (str "files/abc")) (str "P") 0
            (failed ++ [last]) /\
    history (snd (_generate_content_with_retry flaky_env flaky_analyzer
                    (mkRemoteFile (str "files/abc")) (str "P") empty_world))
      = rev new ++ history empty_world /\
    hd_error new =
      Some (EvGenerate (model flaky_analyzer) (mkRemoteFile (str "files/abc")) (str "P")
              (env_generate flaky_env (history empty_world) (model flaky_analyzer)
                 (mkRemoteFile (str "files/abc")) (str "P"))) /\
    Forall failed_attempt failed /\
    attempts_made new = S (length failed) /\
    (Z.of_nat (attempts_made new) <= max_retries flaky_analyzer + 1)%Z /\
    waits new = map (fun i => backoff (Z.of_nat i)) (seq 0 (length failed)) /\
    match attempt_result last with
    | inr text =>
        fst (_generate_content_with_retry flaky_env flaky_analyzer
               (mkRemoteFile (str "files/abc")) (str "P") empty_world) = inr (Some text)
    | inl e =>
        Z.of_nat (attempts_made new) = (max_retries flaky_analyzer + 1)%Z /\
        fst (_generate_content_with_retry flaky_env flaky_analyzer
               (mkRemoteFile (str "files/abc")) (str "P") empty_world) = inl e /\
        (forall (pdf_bytes : bytes) (filename temp_file_path : pystr) (w0 w1 : World),
           _write_temp_pdf flaky_env pdf_bytes filename w0 = (inr temp_file_path, w1) ->
           _upload_file flaky_env temp_file_path w1
           = (inr (mkRemoteFile (str "files/abc")), empty_world) ->
           fst (analyze_pdf flaky_env flaky_analyzer pdf_bytes filename (str "P") w0)
           = (false, [],
              Some (str "Error analyzing " ++ filename ++ str ": " ++ exn_str e)))
    end /\
    (max_retries flaky_analyzer = 2%Z -> length failed = 2 ->
       waits new = [inject_Z 2; inject_Z 4] /\ attempts_made new = 3).
Proof.
  split; [simpl; lia|].
  apply (generate_with_retry_backoff flaky_env flaky_analyzer
           (mkRemoteFile (str "files/abc")) (str "P") empty_world).
  simpl; lia.
Defined.

(** The scenario of the specification, run: two failures, then a success. *)
Example retry_scenario_two_failures :
  fst (_generate_content_with_retry flaky_env flaky_analyzer
         (mkRemoteFile (str "files/abc")) (str "P") empty_world)
    = inr (Some (str "{}")) /\
  waits (rev (history (snd (_generate_content_with_retry flaky_env flaky_analyzer
                              (mkRemoteFile (str "files/abc")) (str "P") empty_world))))
    = [inject_Z 2; inject_Z 4] /\
  attempts_made (history (snd (_generate_content_with_retry flaky_env flaky_analyzer
                                 (mkRemoteFile (str "files/abc")) (str "P") empty_world)))
    = 3.
Proof. repeat split; reflexivity. Qed.

(** A service that fails every call, each time with another message (the
    number of calls made before it). *)
Definition failing_env : Environment :=
  mkEnvironment
    (fun _ => inr (str "/tmp/tmpa1b2c3"))
    (fun _ _ _ => None)
    (fun _ _ => inr (mkRemoteFile (str "files/abc")))
    (fun h _ _ _ =>
       inl (mkExn "ServerError" (str "503 after " ++ [48 + N.of_nat (length h)]%N)))
    (fun _ _ => None)
    (fun _ _ => None).

(** The scenario where every attempt fails: three attempts with the waits
    2 and 4, and the document fails with the message of the third
    attempt, not of the first. *)
Example retry_scenario_all_fail :
  fst (analyze_pdf failing_env flaky_analyzer [] (str "a.pdf") (str "P") empty_world)
    = (false, [], Some (str "Error analyzing a.pdf: 503 after 7")) /\
  flat_map (fun e => match e with
                     | EvGenerate _ _ _ (inl e) => [exn_str e]
                     | _ => []
                     end)
      (rev (history (snd (analyze_pdf failing_env flaky_analyzer [] (str "a.pdf")
                            (str "P") empty_world))))
    = [str "503 after 3"; str "503 after 5"; str "503 after 7"] /\
  waits (rev (history (snd (analyze_pdf failing_env flaky_analyzer [] (str "a.pdf")
                              (str "P") empty_world))))
    = [inject_Z 2; inject_Z 4].
Proof. repeat split; reflexivity. Qed.

(** ** gemini_client.py: the resources of one analysis *)

(** What a trace says about the two kinds of resource: the remote files
    obtained and the deletions asked of the service, the temporary files
    created and the removals asked of the file system. *)
Definition handles_obtained (trace : list event) : list pystr :=
  flat_map (fun e => match e with EvUpload _ (inr f) => [file_name f] | _ => [] end) trace.

Definition handles_released (trace : list event) : list pystr :=
  flat_map (fun e => match e with EvDelete name _ => [name] | _ => [] end) trace.

Definition staged_created (trace : list event) : list pystr :=
  flat_map (fun e => match e with EvCreateTemp (inr path) => [path] | _ => [] end) trace.

Definition staged_removed (trace : list event) : list pystr :=
  flat_map (fun e => match e with EvRemove path _ => [path] | _ => [] end) trace.

(** The calls that neither obtain nor release anything. *)
Definition quiet (e : event) : Prop :=
  match e with
  | EvGenerate _ _ _ _ | EvSleep _ => True
  | _ => False
  end.

Lemma quiet_ledger :
  forall trace, Forall quiet trace ->
    handles_obtained trace = [] /\ handles_released trace = [] /\
    staged_created trace = [] /\ staged_removed trace = [].
Proof.
  induction 1 as [|e trace He _ [IH1 [IH2 [IH3 IH4]]]]; [repeat split|].
  unfold handles_obtained, handles_released, staged_created, staged_removed in *.
  cbn [flat_map]. rewrite IH1, IH2, IH3, IH4.
  destruct e; try contradiction; repeat split.
Qed.

(** A step that only adds quiet calls and leaves the files alone. *)
Definition quiet_step (w w' : World) : Prop :=
  exists new,
    history w' = new ++ history w /\ Forall quiet new /\
    local_files w' = local_files w /\ remote_files w' = remote_files w.

Lemma quiet_step_refl : forall w, quiet_step w w.
Proof. intros w. exists []. repeat split. constructor. Qed.

Lemma quiet_step_trans :
  forall w1 w2 w3, quiet_step w1 w2 -> quiet_step w2 w3 -> quiet_step w1 w3.
Proof.
  intros w1 w2 w3 [n1 [H1 [Q1 [L1 R1]]]] [n2 [H2 [Q2 [L2 R2]]]].
  exists (n2 ++ n1). rewrite H2, H1, app_assoc. repeat split; try congruence.
  apply Forall_app. now split.
Qed.

Lemma quiet_step_record :
  forall e w, quiet e -> quiet_step w (record_event e w).
Proof.
  intros e w He. exists [e]. repeat split. now constructor.
Qed.

Lemma time_sleep_quiet : forall seconds w, quiet_step w (snd (time_sleep seconds w)).
Proof.
  intros seconds w. unfold time_sleep. destruct (Qle_bool 0 seconds); cbn [snd].
  - now apply quiet_step_record.
  - apply quiet_step_refl.
Qed.

Lemma generate_attempt_quiet :
  forall env self file prompt w,
    quiet_step w (snd (generate_attempt env self file prompt w)).
Proof.
  intros. rewrite generate_attempt_run. cbn [snd]. now apply quiet_step_record.
Qed.

Lemma retry_loop_quiet :
  forall env self file prompt attempts w,
    quiet_step w (snd (retry_loop env self file prompt attempts w)).
Proof.
  intros env self file prompt. induction attempts as [|attempt rest IH]; intros w.
  - apply quiet_step_refl.
  - cbn [retry_loop].
    pose proof (generate_attempt_quiet env self file prompt w) as Hg.
    destruct (generate_attempt env self file prompt w) as [[e|text] w1]; cbn [snd] in *.
    + destruct (attempt <? max_retries self)%Z; cbn [snd]; [|exact Hg].
      cbv zeta. unfold bind.
      pose proof (time_sleep_quiet (inject_Z ((attempt + 1) * 2)) w1) as Hs.
      destruct (time_sleep (inject_Z ((attempt + 1) * 2)) w1) as [[e'|u] w2];
        cbn [snd] in *.
      * eapply quiet_step_trans; eassumption.
      * eapply quiet_step_trans; [exact Hg|].
        eapply quiet_step_trans; [exact Hs | apply IH].
    + exact Hg.
Qed.

Lemma analyze_uploaded_quiet :
  forall env self file prompt w,
    quiet_step w (snd (analyze_uploaded env self file prompt w)).
Proof.
  intros env self file prompt w. unfold analyze_uploaded, bind,
    _generate_content_with_retry.
  pose proof (retry_loop_quiet env self file prompt (range (max_retries self + 1)) w)
    as Hr.
  destruct (retry_loop env self file prompt (range (max_retries self + 1)) w)
    as [[e|response_text] w1]; cbn [snd] in *; [exact Hr|].
  assert (Hp : forall (m : M dict) ,
             (forall w0, snd (m w0) = w0) ->
             quiet_step w
               (snd (match m w1 with
                     | (inr a, w') =>
                         match time_sleep (api_delay self) w' with
                         | (inr a0, w'0) => ret a w'0
                         | (inl e, w'0) => (inl e, w'0)
                         end
                     | (inl e, w') => (inl e, w')
                     end))).
  { intros m Hm. specialize (Hm w1).
    destruct (m w1) as [[e|d] w2]; cbn [snd] in *; subst w2; [exact Hr|].
    pose proof (time_sleep_quiet (api_delay self) w1) as Hs.
    destruct (time_sleep (api_delay self) w1) as [[e|u] w3]; cbn [snd] in *;
      eapply quiet_step_trans; eassumption. }
  destruct response_text as [text|].
  - destruct (_parse_json_response text); apply Hp; reflexivity.
  - apply Hp. reflexivity.
Qed.

Lemma str_in_remove : forall x l, str_in x (str_remove x l) = false.
Proof.
  intros x l. unfold str_in, str_remove. induction l as [|y l IH]; [reflexivity|].
  cbn [filter]. destruct (str_eqb x y) eqn:E; cbn [negb]; [exact IH|].
  cbn [existsb]. now rewrite E, IH.
Qed.

Lemma write_temp_pdf_staged :
  forall env pdf_bytes filename w path,
    fst (_write_temp_pdf env pdf_bytes filename w) = inr path ->
    truthy path = true /\
    snd (_write_temp_pdf env pdf_bytes filename w) =
      mkWorld (EvWriteTemp path pdf_bytes None :: EvCreateTemp (inr path) :: history w)
              (path :: local_files w) (remote_files w).
Proof.
  intros env pdf_bytes filename w path.
  unfold _write_temp_pdf, bind, NamedTemporaryFile, file_write, ret, record_event.
  destruct (env_create_temp env (history w)) as [e|stem]; cbn [fst snd history];
    [discriminate|].
  destruct (env_write_temp env _ _ pdf_bytes) as [e|]; cbn [fst snd];
    [discriminate|].
  intros H. injection H as <-. split; [|reflexivity].
  destruct stem; reflexivity.
Qed.

(** Two environments that answer the calls of the [try] block alike; they
    may differ in how the two deletions of the [finally] block end. *)
Definition same_but_cleanup (env env' : Environment) : Prop :=
  env_create_temp env' = env_create_temp env /\
  env_write_temp env' = env_write_temp env /\
  env_upload env' = env_upload env /\
  env_generate env' = env_generate env.

Lemma generate_attempt_same :
  forall env env' self file prompt w,
    same_but_cleanup env env' ->
    generate_attempt env' self file prompt w = generate_attempt env self file prompt w.
Proof.
  intros env env' self file prompt w [_ [_ [_ Hg]]].
  unfold generate_attempt, bind, generate_content. now rewrite Hg.
Qed.

Lemma retry_loop_same :
  forall env env' self file prompt attempts w,
    same_but_cleanup env env' ->
    retry_loop env' self file prompt attempts w
    = retry_loop env self file prompt attempts w.
Proof.
  intros env env' self file prompt attempts w Hs. revert w.
  induction attempts as [|attempt rest IH]; intros w; [reflexivity|].
  cbn [retry_loop]. rewrite (generate_attempt_same env env') by exact Hs.
  destruct (generate_attempt env self file prompt w) as [[e|text] w1]; [|reflexivity].
  destruct (attempt <? max_retries self)%Z; [|reflexivity].
  cbv zeta. unfold bind.
  destruct (time_sleep (inject_Z ((attempt + 1) * 2)) w1) as [[e'|u] w2];
    [reflexivity | apply IH].
Qed.

Lemma analyze_try_same :
  forall env env' self pdf_bytes filename prompt w,
    same_but_cleanup env env' ->
    analyze_try env' self pdf_bytes filename prompt w
    = analyze_try env self pdf_bytes filename prompt w.
Proof.
  intros env env' self pdf_bytes filename prompt w Hs.
  pose proof Hs as [Hc [Hw [Hu Hg]]].
  unfold analyze_try, _write_temp_pdf, _upload_file, bind, NamedTemporaryFile,
    file_write, files_upload. rewrite Hc, Hw, Hu.
  destruct (env_create_temp env (history w)) as [e|stem]; [reflexivity|].
  cbn [history]. destruct (env_write_temp env _ _ pdf_bytes); [reflexivity|].
  cbn [ret record_event history local_files remote_files].
  destruct (env_upload env _ _) as [e|file]; [reflexivity|].
  unfold analyze_uploaded, _generate_content_with_retry, bind.
  now rewrite (retry_loop_same env env') by exact Hs.
Qed.

Lemma analyze_pdf_same :
  forall env env' self pdf_bytes filename prompt w,
    same_but_cleanup env env' ->
    fst (analyze_pdf env' self pdf_bytes filename prompt w)
    = fst (analyze_pdf env self pdf_bytes filename prompt w).
Proof.
  intros env env' self pdf_bytes filename prompt w Hs. unfold analyze_pdf.
  rewrite (analyze_try_same env env') by exact Hs.
  destruct (analyze_try env self pdf_bytes filename prompt w) as [[[o u] t] w1].
  reflexivity.
Qed.

(** The calls of a run in which the document was staged. *)
Lemma analyze_pdf_ledger :
  forall (env : Environment) (self : GeminiPDFAnalyzer) (pdf_bytes : bytes)
         (filename prompt : pystr) (w : World) (path : pystr),
    fst (_write_temp_pdf env pdf_bytes filename w) = inr path ->
    exists new : list event,
      history (snd (analyze_pdf env self pdf_bytes filename prompt w))
        = new ++ history w /\
      staged_created new = [path] /\
      staged_removed new = [path] /\
      handles_released new = handles_obtained new /\
      length (handles_obtained new) <= 1 /\
      (forall name, In (EvDelete name None) new ->
         str_in name
           (remote_files (snd (analyze_pdf env self pdf_bytes filename prompt w)))
         = false) /\
      (In (EvRemove path None) new ->
         str_in path
           (local_files (snd (analyze_pdf env self pdf_bytes filename prompt w)))
         = false).
Proof.
  intros env self pdf_bytes filename prompt w path Hstaged.
  destruct (write_temp_pdf_staged _ _ _ _ _ Hstaged) as [Htruthy Hw1].
  unfold analyze_pdf, analyze_try.
  destruct (_write_temp_pdf env pdf_bytes filename w) as [[e|p] w1];
    cbn [fst snd] in Hstaged, Hw1; [discriminate|].
  injection Hstaged as ->. subst w1.
  unfold _upload_file, files_upload. cbn [history local_files remote_files].
  set (h1 := EvWriteTemp path pdf_bytes None :: EvCreateTemp (inr path) :: history w).
  destruct (env_upload env h1 path) as [e|file] eqn:Eup.
  - (* the upload fails: no remote file, the temporary file is removed *)
    cbn [cleanup snd]. rewrite Htruthy. unfold os_path_exists, str_in.
    cbn [local_files existsb andb]. rewrite str_eqb_refl. cbn [orb].
    unfold os_remove. cbn [snd history local_files remote_files].
    set (o := env_remove env (EvUpload path (inl e) :: h1) path).
    exists [EvRemove path o; EvUpload path (inl e);
            EvWriteTemp path pdf_bytes None; EvCreateTemp (inr path)].
    split; [reflexivity|]. split; [reflexivity|]. split; [reflexivity|].
    split; [reflexivity|]. split; [cbn; lia|]. split.
    + intros name [H|[H|[H|[H|[]]]]]; discriminate.
    + intros [H|[H|[H|[H|[]]]]]; try discriminate.
      injection H as H. rewrite H. apply (str_in_remove path (path :: local_files w)).
  - (* the upload succeeds *)
    set (w2 := mkWorld (EvUpload path (inr file) :: h1) (path :: local_files w)
                       (file_name file :: remote_files w)).
    pose proof (analyze_uploaded_quiet env self file prompt w2)
      as [q [Hq [Hquiet [Hl Hr]]]].
    destruct (analyze_uploaded env self file prompt w2) as [outcome w3].
    cbn [snd] in Hq, Hl, Hr. cbn [cleanup snd].
    unfold files_delete. cbn [snd].
    rewrite Htruthy. unfold os_path_exists. cbn [local_files andb].
    rewrite Hl.
    assert (Hex : str_in path (local_files w2) = true).
    { unfold w2, str_in. cbn [local_files existsb]. now rewrite str_eqb_refl. }
    rewrite Hex.
    unfold os_remove. cbn [snd history local_files remote_files].
    set (o1 := env_delete env (history w3) (file_name file)).
    set (o2 := env_remove env (EvDelete (file_name file) o1 :: history w3) path).
    destruct (quiet_ledger q Hquiet) as [Q1 [Q2 [Q3 Q4]]].
    exists ([EvRemove path o2; EvDelete (file_name file) o1] ++ q ++
            [EvUpload path (inr file); EvWriteTemp path pdf_bytes None;
             EvCreateTemp (inr path)]).
    split.
    { rewrite Hq. unfold w2, h1. cbn [history]. rewrite <- !app_assoc. reflexivity. }
    unfold staged_created, staged_removed, handles_released, handles_obtained in *.
    rewrite !flat_map_app, Q1, Q2, Q3, Q4.
    split; [reflexivity|]. split; [reflexivity|]. split; [reflexivity|].
    split; [cbn; lia|]. split.
    + intros name Hin. apply in_app_or in Hin as [Hin|Hin].
      * destruct Hin as [H|[H|[]]]; [discriminate|].
        injection H as <- Ho. rewrite Ho. apply str_in_remove.
      * apply in_app_or in Hin as [Hin|Hin].
        -- rewrite Forall_forall in Hquiet. apply Hquiet in Hin. contradiction.
        -- destruct Hin as [H|[H|[H|[]]]]; discriminate.
    + intros Hin. apply in_app_or in Hin as [Hin|Hin].
      * destruct Hin as [H|[H|[]]]; [|discriminate].
        injection H as Ho. rewrite Ho. apply str_in_remove.
      * apply in_app_or in Hin as [Hin|Hin].
        -- rewrite Forall_forall in Hquiet. apply Hquiet in Hin. contradiction.
        -- destruct Hin as [H|[H|[H|[]]]]; discriminate.
Qed.

(** C1.  Take any run of [analyze_pdf] in which the document was staged
    (the four paths of the claim: success, upload failure, generation
    failure after the retries, response of an unexpected format; a
    failure of the pacing sleep too).  Among the calls the run makes,
    exactly one temporary file is created and exactly one removal is
    asked, of that file; a remote file is obtained at most once and the
    deletions asked of the service are exactly the remote files obtained,
    so that each is released once and nothing else is.  A deletion that
    ends normally leaves the resource gone when the call returns.  What
    the call returns does not depend on how the two deletions end: an
    environment that differs only there gives the same success flag,
    record and reason. *)
Theorem analyze_pdf_releases_resources_once :
  forall (env : Environment) (self : GeminiPDFAnalyzer) (pdf_bytes : bytes)
         (filename prompt : pystr) (w : World) (path : pystr),
    fst (_write_temp_pdf env pdf_bytes filename w) = inr path ->
    (exists new : list event,
       history (snd (analyze_pdf env self pdf_bytes filename prompt w))
         = new ++ history w /\
       staged_created new = [path] /\
       staged_removed new = [path] /\
       handles_released new = handles_obtained new /\
       length (handles_obtained new) <= 1 /\
       (forall name, In (EvDelete name None) new ->
          str_in name
            (remote_files (snd (analyze_pdf env self pdf_bytes filename prompt w)))
          = false) /\
       (In (EvRemove path None) new ->
          str_in path
            (local_files (snd (analyze_pdf env self pdf_bytes filename prompt w)))
          = false)) /\
    (forall env', same_but_cleanup env env' ->
       fst (analyze_pdf env' self pdf_bytes filename prompt w)
       = fst (analyze_pdf env self pdf_bytes filename prompt w)).
Proof.
  intros env self pdf_bytes filename prompt w path Hstaged. split.
  - exact (analyze_pdf_ledger env self pdf_bytes filename prompt w path Hstaged).
  - intros env' Hs. now apply analyze_pdf_same.
Qed.

Lemma analyze_pdf_releases_resources_once_witness :
  fst (_write_temp_pdf flaky_env [] (str "a.pdf") empty_world)
    = inr (str "/tmp/tmpa1b2c3.pdf") /\
  (exists new : list event,
     history (snd (analyze_pdf flaky_env flaky_analyzer [] (str "a.pdf") (str "P")
                     empty_world))
       = new ++ history empty_world /\
     staged_created new = [str "/tmp/tmpa1b2c3.pdf"] /\
     staged_removed new = [str "/tmp/tmpa1b2c3.pdf"] /\
     handles_released new = handles_obtained new /\
     length (handles_obtained new) <= 1 /\
     (forall name, In (EvDelete name None) new ->
        str_in name
          (remote_files (snd (analyze_pdf flaky_env flaky_analyzer [] (str "a.pdf")
                                (str "P") empty_world)))
        = false) /\
     (In (EvRemove (str "/tmp/tmpa1b2c3.pdf") None) new ->
        str_in (str "/tmp/tmpa1b2c3.pdf")
          (local_files (snd (analyze_pdf flaky_env flaky_analyzer [] (str "a.pdf")
                               (str "P") empty_world)))
        = false)) /\
  (forall env', same_but_cleanup flaky_env env' ->
     fst (analyze_pdf env' flaky_analyzer [] (str "a.pdf") (str "P") empty_world)
     = fst (analyze_pdf flaky_env flaky_analyzer [] (str "a.pdf") (str "P")
              empty_world)).
Proof.
  split; [reflexivity|].
  apply (analyze_pdf_releases_resources_once flaky_env flaky_analyzer []
           (str "a.pdf") (str "P") empty_world (str "/tmp/tmpa1b2c3.pdf")).
  reflexivity.
Defined.

(** A failing deletion on the service does not change what is returned:
    the same run with a service that refuses every deletion. *)
Definition stubborn_env : Environment :=
  mkEnvironment
    (env_create_temp flaky_env) (env_write_temp flaky_env)
    (env_upload flaky_env) (env_generate flaky_env)
    (fun _ _ => Some (mkExn "ClientError" (str "404")))
    (fun _ _ => Some (mkExn "PermissionError" (str "denied"))).

Example cleanup_failure_keeps_outcome :
  fst (analyze_pdf stubborn_env flaky_analyzer [] (str "a.pdf") (str "P") empty_world)
  = fst (analyze_pdf flaky_env flaky_analyzer [] (str "a.pdf") (str "P") empty_world)
  /\
  fst (analyze_pdf flaky_env flaky_analyzer [] (str "a.pdf") (str "P") empty_world)
  = (true, [], None).
Proof. split; reflexivity. Qed.

(** Outside the four paths: when the write into the temporary file
    raises, [temp_file_path] is still [None] in the [finally] block, and
    the file that was created stays. *)
Definition full_disk_env : Environment :=
  mkEnvironment
    (env_create_temp flaky_env)
    (fun _ _ _ => Some (mkExn "OSError" (str "No space left on device")))
    (env_upload flaky_env) (env_generate flaky_env)
    (env_delete flaky_env) (env_remove flaky_env).

Example staging_write_failure_leaves_file :
  local_files (snd (analyze_pdf full_disk_env flaky_analyzer [] (str "a.pdf") (str "P")
                      empty_world))
  = [str "/tmp/tmpa1b2c3.pdf"] /\
  staged_removed (history (snd (analyze_pdf full_disk_env flaky_analyzer []
                                  (str "a.pdf") (str "P") empty_world))) = [].
Proof. split; reflexivity. Qed.

(** ** app.py: the batch *)

Definition pdf_filename (f : pdf_file) : pystr := snd (fst f).
Definition pdf_content (f : pdf_file) : bytes := snd f.

Lemma analyze_loop_outcomes :
  forall env analyzer full_prompt total pdf_files idx st w,
    length (results st) = length (filenames st) ->
    length (processing_status st) = length (filenames st) ->
    let final := fst (analyze_loop env analyzer full_prompt total idx pdf_files st w) in
    filenames final = filenames st ++ map pdf_filename pdf_files /\
    length (results final) = length (filenames final) /\
    length (processing_status final) = length (filenames final) /\
    (forall i, i < length (filenames st) ->
       nth_error (results final) i = nth_error (results st) i /\
       nth_error (processing_status final) i = nth_error (processing_status st) i) /\
    (forall i f, nth_error pdf_files i = Some f ->
       exists w_i,
         nth_error (results final) (length (filenames st) + i) =
           Some (stored_result
                   (fst (analyze_pdf env analyzer (pdf_content f) (pdf_filename f)
                           full_prompt w_i))) /\
         nth_error (processing_status final) (length (filenames st) + i) =
           Some (stored_status
                   (fst (analyze_pdf env analyzer (pdf_content f) (pdf_filename f)
                           full_prompt w_i)))).
Proof.
  intros env analyzer full_prompt total.
  induction pdf_files as [|[[file_path filename] pdf_bytes] rest IH];
    intros idx st w Hr Hs; cbv zeta.
  - cbn [analyze_loop fst map]. rewrite app_nil_r.
    repeat split; try assumption; try reflexivity.
    intros i f Hi. destruct i; discriminate.
  - cbn [analyze_loop].
    set (w0 := record_event (EvProgress idx total) w).
    destruct (analyze_pdf env analyzer pdf_bytes filename full_prompt w0) as [a w1] eqn:Ea.
    set (st1 := mkSession (results st ++ [stored_result a])
                          (filenames st ++ [filename])
                          (processing_status st ++ [stored_status a])).
    specialize (IH (S idx) st1 w1).
    assert (Hr1 : length (results st1) = length (filenames st1)).
    { unfold st1. cbn [results filenames]. rewrite !length_app. cbn [length]. lia. }
    assert (Hs1 : length (processing_status st1) = length (filenames st1)).
    { unfold st1. cbn [processing_status filenames]. rewrite !length_app.
      cbn [length]. lia. }
    specialize (IH Hr1 Hs1). cbv zeta in IH.
    destruct IH as [Hf [Hlr [Hls [Hold Hnew]]]].
    assert (Hlen1 : length (filenames st1) = S (length (filenames st))).
    { unfold st1. cbn [filenames]. rewrite length_app. cbn [length]. lia. }
    split; [|split; [exact Hlr | split; [exact Hls | split]]].
    + rewrite Hf. unfold st1. cbn [filenames map]. rewrite <- app_assoc. reflexivity.
    + intros i Hi. destruct (Hold i) as [H1 H2]; [lia|]. rewrite H1, H2.
      unfold st1. cbn [results processing_status].
      rewrite !nth_error_app1 by lia. split; reflexivity.
    + intros i f Hi. destruct i as [|i].
      * cbn [nth_error] in Hi. injection Hi as <-.
        exists w0. unfold pdf_content, pdf_filename. cbn [fst snd].
        rewrite Ea. cbn [fst]. rewrite Nat.add_0_r.
        destruct (Hold (length (filenames st))) as [H1 H2]; [lia|].
        rewrite H1, H2. unfold st1. cbn [results processing_status].
        rewrite !nth_error_app2 by lia.
        replace (length (filenames st) - length (results st)) with 0 by lia.
        replace (length (filenames st) - length (processing_status st)) with 0 by lia.
        split; reflexivity.
      * cbn [nth_error] in Hi. destruct (Hnew i f Hi) as [w_i [H1 H2]].
        exists w_i. rewrite Hlen1 in H1, H2.
        replace (length (filenames st) + S i) with (S (length (filenames st)) + i)
          by lia.
        split; assumption.
Qed.

(** C2.  For every sequence of documents, [analyze_pdfs] stores exactly
    one result, one file name and one status per document, in the order of
    the input: the file names are those of the documents, and entry number
    i is what [analyze_pdf] returned for document number i, whether that
    was a success or a failure and whatever the other documents did. *)
Theorem analyze_pdfs_one_outcome_per_document :
  forall (env : Environment) (pdf_files : list pdf_file)
         (analyzer : GeminiPDFAnalyzer) (prompt_text : pystr)
         (column_names : list pystr) (w : World),
    let final := fst (analyze_pdfs env pdf_files analyzer prompt_text column_names w) in
    length (results final) = length pdf_files /\
    length (processing_status final) = length pdf_files /\
    filenames final = map pdf_filename pdf_files /\
    (forall i f, nth_error pdf_files i = Some f ->
       exists w_i,
         nth_error (results final) i =
           Some (stored_result
                   (fst (analyze_pdf env analyzer (pdf_content f) (pdf_filename f)
                           (build_analysis_prompt prompt_text column_names) w_i))) /\
         nth_error (processing_status final) i =
           Some (stored_status
                   (fst (analyze_pdf env analyzer (pdf_content f) (pdf_filename f)
                           (build_analysis_prompt prompt_text column_names) w_i)))).
Proof.
  intros env pdf_files analyzer prompt_text column_names w. cbv zeta.
  unfold analyze_pdfs.
  pose proof (analyze_loop_outcomes env analyzer
                (build_analysis_prompt prompt_text column_names)
                (length pdf_files) pdf_files 0 (mkSession [] [] []) w
                eq_refl eq_refl) as H.
  cbv zeta in H.
  destruct (analyze_loop env analyzer (build_analysis_prompt prompt_text column_names)
              (length pdf_files) 0 pdf_files (mkSession [] [] []) w) as [st w1].
  cbn [fst filenames app length Nat.add] in *.
  destruct H as [Hf [Hlr [Hls [_ Hnew]]]].
  rewrite Hlr, Hls, Hf, length_map. repeat split; try reflexivity. exact Hnew.
Qed.

(** A batch of three in which the second document cannot be uploaded. *)
Definition second_upload_fails : Environment :=
  mkEnvironment
    (env_create_temp flaky_env) (env_write_temp flaky_env)
    (fun h _ =>
       if Nat.eqb (length (staged_created h)) 2
       then inl (mkExn "ClientError" (str "upload refused"))
       else inr (mkRemoteFile (str "files/abc")))
    (fun _ _ _ _ => inr (WithText (str "not json")))
    (env_delete flaky_env) (env_remove flaky_env).

Example batch_continues_after_failure :
  map fst (processing_status
             (fst (analyze_pdfs second_upload_fails
                     [(None, str "a.pdf", []); (None, str "b.pdf", []);
                      (None, str "c.pdf", [])]
                     flaky_analyzer (str "P") [str "Document Name"; str "Summary"]
                     empty_world)))
  = [CHECK_MARK; CROSS_MARK; CHECK_MARK] /\
  results (fst (analyze_pdfs second_upload_fails
                  [(None, str "a.pdf", []); (None, str "b.pdf", []);
                   (None, str "c.pdf", [])]
                  flaky_analyzer (str "P") [str "Document Name"; str "Summary"]
                  empty_world))
  = [[(str "Raw Response", PyStr (str "not json"))];
     [(str "Error", PyStr (str "Error analyzing b.pdf: upload refused"))];
     [(str "Raw Response", PyStr (str "not json"))]].
Proof. split; vm_compute; reflexivity. Qed.

(** ** [json.loads]: the fuel is enough *)

Lemma skip_ws_length : forall s, length (skip_ws s) <= length s.
Proof.
  induction s as [|c s IH]; simpl; [lia|].
  destruct (is_json_ws c); simpl; lia.
Qed.

Lemma consc_inv :
  forall c r x rest,
    consc c r = Some (x, rest) -> exists x', r = Some (x', rest) /\ x = c :: x'.
Proof.
  intros c [[x' rest']|] x rest H; simpl in H; [|discriminate].
  injection H as <- <-. now exists x'.
Qed.

(** One step of [py_scanstring], by the kind of its first character. *)
Lemma py_scanstring_shorter_aux :
  forall n s x rest,
    length s <= n -> py_scanstring s = Some (x, rest) -> length rest < length s.
Proof.
  induction n as [|n IH]; intros s x rest Hn H.
  - destruct s; [discriminate | simpl in Hn; lia].
  - destruct s as [|c r]; [discriminate|].
    cbn [py_scanstring] in H. cbn [length] in *.
    destruct (c =? DQUOTE)%N; [injection H as _ <-; lia|].
    destruct (c =? BACKSLASH_CHAR)%N.
    + destruct r as [|esc r1]; [discriminate|]. cbn [length] in *.
      destruct (esc =? 117)%N.
      * destruct r1 as [|h1 [|h2 [|h3 [|h4 r2]]]]; try discriminate.
        cbn [length] in *.
        destruct (_decode_uXXXX h1 h2 h3 h4) as [uni|]; [|discriminate].
        assert (Hplain : forall y, consc y (py_scanstring r2) = Some (x, rest) ->
                                   length rest < S (S (S (S (S (S (length r2))))))).
        { intros y Hy. apply consc_inv in Hy as [x' [Hy _]].
          apply IH in Hy; lia. }
        destruct r2 as [|b [|u [|g1 [|g2 [|g3 [|g4 r4]]]]]];
          try (apply Hplain in H; exact H).
        destruct (is_high_surrogate uni && (b =? BACKSLASH_CHAR)%N && (u =? 117)%N);
          [|apply Hplain in H; exact H].
        destruct (_decode_uXXXX g1 g2 g3 g4) as [uni2|]; [|discriminate].
        destruct (is_low_surrogate uni2); [|apply Hplain in H; exact H].
        apply consc_inv in H as [x' [Hy _]]. apply IH in Hy; cbn [length] in *; lia.
      * destruct (BACKSLASH esc); [|discriminate].
        apply consc_inv in H as [x' [Hy _]]. apply IH in Hy; lia.
    + destruct (c <? 32)%N; [discriminate|].
      apply consc_inv in H as [x' [Hy _]]. apply IH in Hy; lia.
Qed.

Lemma py_scanstring_shorter :
  forall s x rest, py_scanstring s = Some (x, rest) -> length rest < length s.
Proof. intros s x rest. now apply (py_scanstring_shorter_aux (length s)). Qed.

Lemma take_digits_length :
  forall s d rest, take_digits s = (d, rest) -> length rest <= length s.
Proof.
  induction s as [|c s IH]; intros d rest H; simpl in H.
  - injection H as _ <-. simpl. lia.
  - destruct (is_digit c).
    + destruct (take_digits s) as [d' rest'] eqn:E. injection H as _ <-.
      specialize (IH _ _ eq_refl). simpl. lia.
    + injection H as _ <-. simpl. lia.
Qed.

Lemma match_integer_shorter :
  forall s x rest, match_integer s = Some (x, rest) -> length rest < length s.
Proof.
  intros s x rest H. unfold match_integer in H.
  assert (Hcore : forall r sign,
            match r with
            | c :: r' =>
                if (c =? 48)%N then Some (sign ++ [c], r')
                else if is_digit c then
                  let (d, rest) := take_digits r' in Some (sign ++ c :: d, rest)
                else None
            | [] => None
            end = Some (x, rest) -> length rest < length r).
  { clear H. intros r sign Hr. destruct r as [|c r']; [discriminate|].
    destruct (c =? 48)%N; [injection Hr as _ <-; simpl; lia|].
    destruct (is_digit c); [|discriminate].
    destruct (take_digits r') as [d rest'] eqn:E. injection Hr as _ <-.
    apply take_digits_length in E. simpl. lia. }
  destruct s as [|c r]; [discriminate|].
  destruct (c =? 45)%N.
  - apply Hcore in H. simpl. lia.
  - apply (Hcore (c :: r) []) in H. exact H.
Qed.

Lemma match_frac_length :
  forall s f rest, match_frac s = (f, rest) -> length rest <= length s.
Proof.
  intros s f rest H. unfold match_frac in H.
  destruct s as [|c r]; [injection H as _ <-; lia|].
  destruct (c =? 46)%N; [|injection H as _ <-; lia].
  destruct (take_digits r) as [[|d ds] rest'] eqn:E; injection H as _ <-; [lia|].
  apply take_digits_length in E. simpl. lia.
Qed.

Lemma match_exp_length :
  forall s e rest, match_exp s = (e, rest) -> length rest <= length s.
Proof.
  intros s e rest H. unfold match_exp in H.
  destruct s as [|c r]; [injection H as _ <-; lia|].
  destruct ((c =? 101) || (c =? 69))%N; [|injection H as _ <-; lia].
  destruct r as [|x r'].
  - simpl in H. injection H as _ <-. lia.
  - destruct ((x =? 45) || (x =? 43))%N.
    + destruct (take_digits r') as [[|d ds] rest'] eqn:E; injection H as _ <-; [lia|].
      apply take_digits_length in E. simpl. lia.
    + destruct (take_digits (x :: r')) as [[|d ds] rest'] eqn:E;
        injection H as _ <-; [lia|].
      apply take_digits_length in E. simpl in *. lia.
Qed.

Lemma match_number_shorter :
  forall s v rest, match_number s = Some (v, rest) -> length rest < length s.
Proof.
  intros s v rest H. unfold match_number in H.
  destruct (match_integer s) as [[integer r1]|] eqn:Ei; [|discriminate].
  destruct (match_frac r1) as [frac r2] eqn:Ef.
  destruct (match_exp r2) as [exp r3] eqn:Ee.
  apply match_integer_shorter in Ei. apply match_frac_length in Ef.
  apply match_exp_length in Ee.
  destruct frac, exp; injection H as _ <-; lia.
Qed.

Ltac break_in H :=
  match type of H with
  | context [match ?x with _ => _ end] => destruct x eqn:?
  end.

Ltac length_facts :=
  repeat match goal with
  | H : py_scanstring ?s = Some (_, _) |- _ => apply py_scanstring_shorter in H
  | H : match_number ?s = Some (_, _) |- _ => apply match_number_shorter in H
  | H : skip_ws ?s = ?r |- _ =>
      let L := fresh "L" in
      pose proof (skip_ws_length s) as L; rewrite H in L; clear H
  end;
  repeat match goal with
  | H : context [length (skip_ws ?s)] |- _ =>
      lazymatch goal with
      | _ : length (skip_ws s) <= length s |- _ => fail
      | _ => pose proof (skip_ws_length s)
      end
  | |- context [length (skip_ws ?s)] =>
      lazymatch goal with
      | _ : length (skip_ws s) <= length s |- _ => fail
      | _ => pose proof (skip_ws_length s)
      end
  end.

(** Every scanning function consumes at least one character. *)
Lemma scan_shorter :
  forall fuel,
    (forall s v r, scan_once fuel s = Done v r -> length r < length s) /\
    (forall s ps r, object_items fuel s = Done ps r -> length r < length s) /\
    (forall s vs r, array_items fuel s = Done vs r -> length r < length s).
Proof.
  induction fuel as [|fuel [IHs [IHo IHa]]].
  - repeat split; intros; discriminate.
  - split; [|split].
    + intros s v r H. cbn [scan_once] in H. unfold JSONObject, JSONArray in H.
      repeat break_in H; try discriminate; injection H as <- <-;
        repeat match goal with
        | H : object_items _ _ = Done _ _ |- _ => apply IHo in H
        | H : array_items _ _ = Done _ _ |- _ => apply IHa in H
        end;
        length_facts;
        repeat match goal with
        | |- context [match ?x with _ => _ end] => destruct x
        end;
        cbn [length] in *; lia.
    + intros s ps r H. cbn [object_items] in H.
      repeat break_in H; try discriminate; injection H as <- <-;
        repeat match goal with
        | H : object_items _ _ = Done _ _ |- _ => apply IHo in H
        | H : scan_once _ _ = Done _ _ |- _ => apply IHs in H
        end;
        length_facts; cbn [length] in *; lia.
    + intros s vs r H. cbn [array_items] in H.
      repeat break_in H; try discriminate; injection H as <- <-;
        repeat match goal with
        | H : array_items _ _ = Done _ _ |- _ => apply IHa in H
        | H : scan_once _ _ = Done _ _ |- _ => apply IHs in H
        end;
        length_facts; cbn [length] in *; lia.
Qed.

Ltac shorter_facts :=
  repeat match goal with
  | H : scan_once ?f _ = Done _ _ |- _ => apply (proj1 (scan_shorter f)) in H
  | H : object_items ?f _ = Done _ _ |- _ =>
      apply (proj1 (proj2 (scan_shorter f))) in H
  | H : array_items ?f _ = Done _ _ |- _ =>
      apply (proj2 (proj2 (scan_shorter f))) in H
  end.

(** The scanning functions do not run out of fuel when they start with
    about twice the length of the text. *)
Lemma scan_has_fuel :
  forall fuel,
    (forall s, 2 * length s + 1 <= fuel -> scan_once fuel s <> Exhausted) /\
    (forall s, 2 * length s + 1 <= fuel -> object_items fuel s <> Exhausted) /\
    (forall s, 2 * length s + 2 <= fuel -> array_items fuel s <> Exhausted).
Proof.
  induction fuel as [|fuel [IHs [IHo IHa]]].
  - repeat split; intros; lia.
  - split; [|split]; intros s Hf H.
    + cbn [scan_once] in H. unfold JSONObject, JSONArray in H.
      repeat break_in H; try discriminate;
        match goal with
        | Hx : object_items fuel ?x = Exhausted |- _ => apply (IHo x); [|exact Hx]
        | Hx : array_items fuel ?x = Exhausted |- _ => apply (IHa x); [|exact Hx]
        end;
        subst; length_facts; cbn [length] in *; lia.
    + cbn [object_items] in H.
      repeat break_in H; try discriminate;
        match goal with
        | Hx : object_items fuel ?x = Exhausted |- _ => apply (IHo x); [|exact Hx]
        | Hx : scan_once fuel ?x = Exhausted |- _ => apply (IHs x); [|exact Hx]
        end;
        subst; shorter_facts; length_facts; cbn [length] in *; lia.
    + cbn [array_items] in H.
      repeat break_in H; try discriminate;
        match goal with
        | Hx : array_items fuel ?x = Exhausted |- _ => apply (IHa x); [|exact Hx]
        | Hx : scan_once fuel ?x = Exhausted |- _ => apply (IHs x); [|exact Hx]
        end;
        subst; shorter_facts; length_facts; cbn [length] in *; lia.
Qed.

(** [json.loads] always has fuel enough: it returns a value or raises
    [JSONDecodeError]. *)
Lemma loads_has_fuel : forall s, loads s <> OutOfFuel.
Proof.
  intros s H. unfold loads in H.
  destruct (startswith [0xFEFF%N] s); [discriminate|].
  destruct (scan_once (fuel_for s) (skip_ws s)) as [obj rest| |] eqn:E.
  - destruct (skip_ws rest); discriminate.
  - discriminate.
  - apply (proj1 (scan_has_fuel (fuel_for s))) in E; [exact E|].
    pose proof (skip_ws_length s). unfold fuel_for. lia.
Qed.

(** ** [re.match]: group 1 of the fence pattern *)

(** The pattern cannot match without going through its group. *)
Fixpoint sets_group (r : regex) : bool :=
  match r with
  | Grp _ => true
  | Seq r1 r2 => sets_group r1 || sets_group r2
  | _ => false
  end.

Lemma star_greedy_result :
  forall {R : Type} cls (k : nat -> list N -> option R) s pos res,
    star_greedy cls k pos s = Some res -> exists pos' s', k pos' s' = Some res.
Proof.
  intros R cls k. induction s as [|x s IH]; intros pos res H; cbn [star_greedy] in H.
  - eauto.
  - destruct (cls x); [|eauto].
    destruct (star_greedy cls k (S pos) s) eqn:E; [|eauto].
    injection H as <-. eapply IH. exact E.
Qed.

Lemma star_lazy_result :
  forall {R : Type} cls (k : nat -> list N -> option R) s pos res,
    star_lazy cls k pos s = Some res -> exists pos' s', k pos' s' = Some res.
Proof.
  intros R cls k. induction s as [|x s IH]; intros pos res H; cbn [star_lazy] in H.
  - destruct (k pos []) eqn:E; [injection H as <-; eauto | discriminate].
  - destruct (k pos (x :: s)) eqn:E; [injection H as <-; eauto|].
    destruct (cls x); [|discriminate]. eapply IH. exact H.
Qed.

Lemma rmatch_group :
  forall {R : Type} (r : regex) pos s g (k : nat -> list N -> option (list N) -> option R)
         res,
    rmatch r pos s g k = Some res ->
    exists pos' s' g',
      k pos' s' g' = Some res /\
      (g' = g \/ exists t, g' = Some t) /\
      (sets_group r = true -> exists t, g' = Some t).
Proof.
  intros R. induction r as [| | |c|r1 IH1 r2 IH2|r1 IH1|cls|cls|r1 IH1];
    intros pos s g k res H; cbn [rmatch sets_group] in *.
  - exists pos, s, g. repeat split; auto; discriminate.
  - destruct (Nat.eqb pos 0); [|discriminate].
    exists pos, s, g. repeat split; auto; discriminate.
  - destruct s as [|c [|c' s]]; try discriminate.
    + exists pos, [], g. repeat split; auto; discriminate.
    + destruct (c =? LF)%N; [|discriminate].
      exists pos, [c], g. repeat split; auto; discriminate.
  - destruct s as [|x s]; [discriminate|]. destruct (x =? c)%N; [|discriminate].
    exists (S pos), s, g. repeat split; auto; discriminate.
  - apply IH1 in H as [p1 [s1 [g1 [H [Hg1 Hs1]]]]].
    apply IH2 in H as [p2 [s2 [g2 [H [Hg2 Hs2]]]]].
    exists p2, s2, g2. split; [exact H|]. split.
    + destruct Hg2 as [->|Ht]; [exact Hg1 | now right].
    + intros Hor. apply orb_true_iff in Hor as [Hr|Hr].
      * destruct (Hs1 Hr) as [t Ht]. destruct Hg2 as [->|Ht2]; eauto.
      * auto.
  - destruct (rmatch r1 pos s g k) eqn:E.
    + injection H as <-. apply IH1 in E as [p1 [s1 [g1 [H [Hg1 _]]]]].
      exists p1, s1, g1. repeat split; auto; discriminate.
    + exists pos, s, g. repeat split; auto; discriminate.
  - apply star_greedy_result in H as [p [s' H]].
    exists p, s', g. repeat split; auto; discriminate.
  - apply star_lazy_result in H as [p [s' H]].
    exists p, s', g. repeat split; auto; discriminate.
  - apply IH1 in H as [p1 [s1 [g1 [H _]]]].
    exists p1, s1, (Some (firstn (p1 - pos) s)). repeat split; eauto.
Qed.

Lemma json_pattern_group :
  forall text, re_match json_pattern text <> Some None.
Proof.
  intros text H. unfold re_match in H.
  apply rmatch_group in H as [p [s [g [H [_ Hs]]]]].
  destruct (Hs eq_refl) as [t ->]. discriminate.
Qed.

Lemma cleaned_text_total :
  forall response_text, exists cleaned, cleaned_text response_text = inr cleaned.
Proof.
  intros response_text. unfold cleaned_text.
  destruct (re_match json_pattern (strip response_text)) as [[group1|]|] eqn:E; eauto.
  now apply json_pattern_group in E.
Qed.

(** ** [_parse_json_response] never fails *)

Definition all_json_ws (ws : list N) : Prop := Forall (fun c => is_json_ws c = true) ws.

(** The text of an empty JSON object: the two braces, with nothing but
    JSON white space before, between and after them. *)
Definition empty_object_text (text : list N) : Prop :=
  exists ws1 ws2 ws3,
    all_json_ws ws1 /\ all_json_ws ws2 /\ all_json_ws ws3 /\
    text = ws1 ++ [123%N] ++ ws2 ++ [125%N] ++ ws3.

Lemma skip_ws_split :
  forall s, exists ws, all_json_ws ws /\ s = ws ++ skip_ws s.
Proof.
  induction s as [|c s [ws [Hws Hs]]].
  - exists []. split; [constructor | reflexivity].
  - cbn [skip_ws]. destruct (is_json_ws c) eqn:E.
    + exists (c :: ws). split; [now constructor | cbn; now f_equal].
    + exists []. split; [constructor | reflexivity].
Qed.

Lemma skip_ws_app :
  forall ws r, all_json_ws ws -> skip_ws (ws ++ r) = skip_ws r.
Proof.
  induction 1 as [|c ws Hc _ IH]; [reflexivity|]. cbn. now rewrite Hc.
Qed.

Lemma skip_ws_all : forall ws, all_json_ws ws -> skip_ws ws = [].
Proof.
  intros ws H. rewrite <- (app_nil_r ws). now rewrite skip_ws_app.
Qed.

Lemma skip_ws_nil_all : forall s, skip_ws s = [] -> all_json_ws s.
Proof.
  intros s H. destruct (skip_ws_split s) as [ws [Hws Hs]].
  rewrite H, app_nil_r in Hs. now subst.
Qed.

Lemma dict_setitem_nonempty : forall k v d, dict_setitem k v d <> [].
Proof.
  intros k v [|[k' v'] d]; cbn; [discriminate|].
  destruct (str_eqb k k'); discriminate.
Qed.

Lemma dict_of_pairs_nonempty :
  forall p pairs, dict_of_pairs (p :: pairs) <> [].
Proof.
  intros p pairs. unfold dict_of_pairs. cbn [fold_left].
  generalize (dict_setitem_nonempty (fst p) (snd p) []).
  generalize (dict_setitem (fst p) (snd p) []).
  induction pairs as [|q pairs IH]; intros d Hd; cbn [fold_left]; [exact Hd|].
  apply IH. apply dict_setitem_nonempty.
Qed.

Lemma object_items_nonempty :
  forall fuel s pairs rest, object_items fuel s = Done pairs rest -> pairs <> [].
Proof.
  intros [|fuel] s pairs rest H; [discriminate|]. cbn [object_items] in H.
  repeat break_in H; try discriminate; injection H as <- _; discriminate.
Qed.

Lemma match_number_value :
  forall s v rest,
    match_number s = Some (v, rest) -> (exists z, v = PyInt z) \/ (exists f, v = PyFloat f).
Proof.
  intros s v rest H. unfold match_number in H.
  destruct (match_integer s) as [[integer r1]|]; [|discriminate].
  destruct (match_frac r1) as [frac r2]. destruct (match_exp r2) as [exp r3].
  destruct frac, exp; injection H as <- _; eauto.
Qed.

Lemma scan_once_empty_dict :
  forall fuel s rest,
    scan_once fuel s = Done (PyDict []) rest ->
    exists ws, all_json_ws ws /\ s = [123%N] ++ ws ++ [125%N] ++ rest.
Proof.
  intros [|fuel] s rest H; [discriminate|]. cbn [scan_once] in H.
  destruct s as [|c r]; [discriminate|].
  destruct (c =? DQUOTE)%N.
  { destruct (py_scanstring r) as [[x r']|]; discriminate. }
  destruct (c =? 123)%N eqn:Ec.
  - apply N.eqb_eq in Ec. subst c. unfold JSONObject in H.
    destruct (skip_ws_split r) as [ws [Hws Hr]].
    destruct (skip_ws r) as [|c' r'] eqn:Er; [discriminate|].
    destruct (c' =? 125)%N eqn:Ec'.
    + apply N.eqb_eq in Ec'. subst c'. injection H as <-.
      exists ws. split; [exact Hws|]. cbn. now f_equal.
    + destruct (c' =? DQUOTE)%N; [|discriminate].
      destruct (object_items fuel r') as [pairs rest'| |] eqn:Ei; try discriminate.
      injection H as Hd _. apply object_items_nonempty in Ei.
      destruct pairs as [|p pairs]; [contradiction|].
      now apply dict_of_pairs_nonempty in Hd.
  - destruct (c =? 91)%N.
    { unfold JSONArray in H. repeat break_in H; discriminate. }
    repeat break_in H; try discriminate.
    injection H as -> _.
    match goal with
    | Hn : match_number _ = Some _ |- _ =>
        apply match_number_value in Hn as [[z Hz]|[f Hf]]; discriminate
    end.
Qed.

Lemma loads_empty_dict :
  forall text, loads text = Loaded (PyDict []) <-> empty_object_text text.
Proof.
  intros text. unfold loads, empty_object_text. split.
  - intros H. destruct (startswith [0xFEFF%N] text); [discriminate|].
    destruct (scan_once (fuel_for text) (skip_ws text)) as [obj rest| |] eqn:E;
      try discriminate.
    destruct (skip_ws rest) eqn:Er; [|discriminate]. injection H as ->.
    apply scan_once_empty_dict in E as [ws2 [Hws2 E]].
    destruct (skip_ws_split text) as [ws1 [Hws1 Ht]].
    exists ws1, ws2, rest. split; [exact Hws1|]. split; [exact Hws2|].
    split; [now apply skip_ws_nil_all|]. now rewrite <- E.
  - intros [ws1 [ws2 [ws3 [H1 [H2 [H3 ->]]]]]].
    assert (Hbom : startswith [0xFEFF%N] (ws1 ++ [123%N] ++ ws2 ++ [125%N] ++ ws3) = false).
    { destruct H1 as [|c ws1 Hc _]; [reflexivity|]. cbn [app startswith].
      destruct (0xFEFF =? c)%N eqn:E; [|reflexivity].
      apply N.eqb_eq in E. subst c. discriminate. }
    rewrite Hbom, skip_ws_app by exact H1. unfold fuel_for.
    rewrite Nat.add_comm. cbn [Nat.add app skip_ws is_json_ws N.eqb Pos.eqb orb].
    cbn [scan_once]. cbn [N.eqb Pos.eqb DQUOTE]. unfold JSONObject.
    rewrite skip_ws_app by exact H2. cbn [skip_ws is_json_ws N.eqb Pos.eqb orb].
    now rewrite skip_ws_all.
Qed.

(** Within the limits of the interpreter: the fence pattern always has
    its group, the decoder has enough fuel, and every outcome of the
    decoder is turned into a mapping.  The mapping has at least one key
    unless the text handed to [json.loads] is an empty JSON object. *)
Lemma parse_json_response_decoded :
  forall response_text : pystr,
    exists (cleaned : pystr) (result : dict),
      cleaned_text response_text = inr cleaned /\
      _parse_json_response response_text = inr result /\
      (result = [] <-> empty_object_text cleaned) /\
      (~ empty_object_text cleaned ->
         exists key value others, result = (key, value) :: others).
Proof.
  intros response_text.
  destruct (cleaned_text_total response_text) as [cleaned Hc].
  exists cleaned. unfold _parse_json_response. rewrite Hc.
  pose proof (loads_empty_dict cleaned) as Hempty.
  pose proof (loads_has_fuel cleaned) as Hfuel.
  enough (exists result : dict,
            match loads cleaned with
            | Loaded (PyDict result) => inr result
            | Loaded result => inr [(str "Raw Response", py_str result)]
            | JSONDecodeError => inr [(str "Raw Response", PyStr response_text)]
            | OutOfFuel => inl out_of_fuel
            end = inr result /\
            (result = [] <-> empty_object_text cleaned) /\
            (~ empty_object_text cleaned ->
             exists key value others, result = (key, value) :: others))
    as [result H].
  { exists result. split; [reflexivity | exact H]. }
  assert (Hraw : forall value,
            loads cleaned <> Loaded (PyDict []) ->
            exists result : dict,
              inr (A := exn) [(str "Raw Response", value)] = inr result /\
              (result = [] <-> empty_object_text cleaned) /\
              (~ empty_object_text cleaned ->
               exists key v others, result = (key, v) :: others)).
  { intros value Hne. exists [(str "Raw Response", value)].
    split; [reflexivity|]. split; [split|].
    - discriminate.
    - intros He. apply Hempty in He. contradiction.
    - intros _. eauto. }
  destruct (loads cleaned) as [v| |] eqn:El.
  - destruct v as [| | | | | |d|]; try (apply Hraw; discriminate).
    exists d. split; [reflexivity|]. split.
    + rewrite <- Hempty. split; [now intros -> | now intros [= ->]].
    + intros Hne. destruct d as [|[key value] others]; [|eauto].
      exfalso. apply Hne, Hempty. reflexivity.
  - apply Hraw. discriminate.
  - contradiction.
Qed.

(** ** [json.loads] under the limits of the interpreter *)

(** Where the limits are not met, the decoder under the limits is the
    decoder. *)
Lemma match_number_bounded_agrees :
  forall s r, match_number_bounded s = inr r -> match_number s = r.
Proof.
  intros s r H. unfold match_number_bounded, match_number, parse_int_bounded in *.
  destruct (match_integer s) as [[integer r1]|]; [|now injection H as <-].
  destruct (match_frac r1) as [frac r2]. destruct (match_exp r2) as [exp r3].
  destruct frac, exp; try (now injection H as <-).
  destruct (Nat.ltb int_max_str_digits (length (literal_digits integer)));
    [discriminate | now injection H as <-].
Qed.

Ltac break_bounded H IHs IHo IHa :=
  repeat first
    [ discriminate
    | match type of H with
      | context [match scan_once_bounded ?room ?f ?x with _ => _ end] =>
          let E := fresh "E" in
          destruct (scan_once_bounded room f x) as [[? ?| |]|?] eqn:E;
          [ rewrite (IHs _ _ _ E) | rewrite (IHs _ _ _ E) | rewrite (IHs _ _ _ E) | ]
      | context [match object_items_bounded ?room ?f ?x with _ => _ end] =>
          let E := fresh "E" in
          destruct (object_items_bounded room f x) as [[? ?| |]|?] eqn:E;
          [ rewrite (IHo _ _ _ E) | rewrite (IHo _ _ _ E) | rewrite (IHo _ _ _ E) | ]
      | context [match array_items_bounded ?room ?f ?x with _ => _ end] =>
          let E := fresh "E" in
          destruct (array_items_bounded room f x) as [[? ?| |]|?] eqn:E;
          [ rewrite (IHa _ _ _ E) | rewrite (IHa _ _ _ E) | rewrite (IHa _ _ _ E) | ]
      | context [match match_number_bounded ?x with _ => _ end] =>
          let E := fresh "E" in
          destruct (match_number_bounded x) as [?|[[? ?]|]] eqn:E;
          [ | rewrite (match_number_bounded_agrees _ _ E)
            | rewrite (match_number_bounded_agrees _ _ E) ]
      | context [match ?x with _ => _ end] => destruct x eqn:?
      end ].

Lemma scan_bounded_agrees :
  forall fuel,
    (forall room s r, scan_once_bounded room fuel s = Within r -> scan_once fuel s = r) /\
    (forall room s r,
       object_items_bounded room fuel s = Within r -> object_items fuel s = r) /\
    (forall room s r,
       array_items_bounded room fuel s = Within r -> array_items fuel s = r).
Proof.
  induction fuel as [|fuel [IHs [IHo IHa]]].
  { repeat split; intros room s r H; cbn in H; now injection H as <-. }
  split; [|split]; intros room s r H.
  - cbn [scan_once_bounded] in H. cbn [scan_once].
    unfold JSONObject_bounded, JSONArray_bounded, JSONObject, JSONArray in *.
    break_bounded H IHs IHo IHa; now injection H as <-.
  - cbn [object_items_bounded] in H. cbn [object_items].
    break_bounded H IHs IHo IHa; now injection H as <-.
  - cbn [array_items_bounded] in H. cbn [array_items].
    break_bounded H IHs IHo IHa; now injection H as <-.
Qed.

Lemma loads_bounded_agrees :
  forall room s outcome, loads_bounded room s = inr outcome -> loads s = outcome.
Proof.
  intros room s outcome H. unfold loads_bounded, loads in *.
  destruct (startswith [0xFEFF%N] s); [now injection H as <-|].
  destruct (scan_once_bounded room (fuel_for s) (skip_ws s)) as [r|e] eqn:E;
    [|discriminate].
  rewrite (proj1 (scan_bounded_agrees (fuel_for s)) _ _ _ E).
  destruct r as [obj rest| |]; [|now injection H as <- ..].
  destruct (skip_ws rest); now injection H as <-.
Qed.

(** Where [json.loads] meets no limit, [_parse_json_response] under the
    limits is [_parse_json_response]. *)
Lemma parse_json_response_bounded_agrees :
  forall room response_text,
    (forall cleaned e,
       cleaned_text response_text = inr cleaned -> loads_bounded room cleaned <> inl e) ->
    _parse_json_response_bounded room response_text = _parse_json_response response_text.
Proof.
  intros room response_text Hlim.
  unfold _parse_json_response_bounded, _parse_json_response.
  destruct (cleaned_text response_text) as [e|cleaned]; [reflexivity|].
  destruct (loads_bounded room cleaned) as [e|outcome] eqn:E;
    [now elim (Hlim cleaned e)|].
  now rewrite (loads_bounded_agrees _ _ _ E).
Qed.

(** C3, as amended.  For every input string on which [json.loads] stays
    within the limits of the interpreter (it raises neither the
    [ValueError] of an integer literal of more than 4300 digits nor a
    [RecursionError], for whatever nesting [room] the interpreter allows),
    [_parse_json_response] returns without error a mapping from strings to
    values.  The mapping has at least one key unless the text handed to
    [json.loads] (the trimmed response, or the trimmed inside of its
    fence) is an empty JSON object (the two braces and nothing but white
    space); in that case, and only then, the mapping is empty.  What the
    function does when a limit is met is left out. *)
Theorem parse_json_response_within_limits :
  forall (room : nat) (response_text : pystr),
    (forall cleaned e,
       cleaned_text response_text = inr cleaned -> loads_bounded room cleaned <> inl e) ->
    exists (cleaned : pystr) (result : dict),
      cleaned_text response_text = inr cleaned /\
      _parse_json_response_bounded room response_text = inr result /\
      _parse_json_response response_text = inr result /\
      (result = [] <-> empty_object_text cleaned) /\
      (~ empty_object_text cleaned ->
         exists key value others, result = (key, value) :: others).
Proof.
  intros room response_text Hlim.
  destruct (parse_json_response_decoded response_text)
    as [cleaned [result [Hc [Hp Hkeys]]]].
  exists cleaned, result. split; [exact Hc|].
  rewrite (parse_json_response_bounded_agrees _ _ Hlim).
  split; [exact Hp|]. split; [exact Hp | exact Hkeys].
Qed.

Definition fenced_response : pystr :=
  str "```json" ++ [LF] ++ str "{" ++ [DQUOTE] ++ str "Pages" ++ [DQUOTE]
  ++ str ": [12, 3.5e2, {}]}" ++ [LF] ++ str "```".

Lemma parse_json_response_within_limits_witness :
  (forall cleaned e,
     cleaned_text fenced_response = inr cleaned -> loads_bounded 3 cleaned <> inl e) /\
  exists (cleaned : pystr) (result : dict),
    cleaned_text fenced_response = inr cleaned /\
    _parse_json_response_bounded 3 fenced_response = inr result /\
    _parse_json_response fenced_response = inr result /\
    (result = [] <-> empty_object_text cleaned) /\
    (~ empty_object_text cleaned ->
       exists key value others, result = (key, value) :: others).
Proof.
  assert (Hlim : forall cleaned e,
            cleaned_text fenced_response = inr cleaned ->
            loads_bounded 3 cleaned <> inl e).
  { intros cleaned e Hc. vm_compute in Hc. injection Hc as Hc. subst cleaned.
    vm_compute. discriminate. }
  split; [exact Hlim|].
  exact (parse_json_response_within_limits 3 fenced_response Hlim).
Defined.

(** The same response where the interpreter allows two levels only: the
    object inside the array is one too many, and the [RecursionError]
    leaves [_parse_json_response]. *)
Example fenced_response_too_deep :
  _parse_json_response_bounded 3 fenced_response
    = inr [(str "Pages", PyList [PyInt 12; PyFloat (str "3.5e2"); PyDict []])] /\
  _parse_json_response_bounded 2 fenced_response = inl (recursion_exceeded "object").
Proof. split; reflexivity. Qed.

(** C3 as stated fails: the response [{}] gives a mapping with no key. *)
Lemma parse_json_response_empty_object :
  _parse_json_response (str "{}") = inr [] /\
  _parse_json_response_bounded 1 (str "{}") = inr [] /\
  dict_keys [] = [].
Proof. repeat split; reflexivity. Qed.

(** ** [json]: what is written is read back *)

(** Bits that do not overlap add up. *)
Lemma lor_shifted :
  forall a b n : N, (b < 2 ^ n)%N -> N.lor (a * 2 ^ n) b = (a * 2 ^ n + b)%N.
Proof.
  intros a b n Hb.
  assert (Hland : N.land (a * 2 ^ n) b = 0%N).
  { apply N.bits_inj. intros m. rewrite N.land_spec, N.bits_0.
    destruct (N.lt_ge_cases m n) as [Hm|Hm].
    - now rewrite N.mul_pow2_bits_low.
    - destruct (N.eq_dec b 0) as [->|Hb0]; [now rewrite N.bits_0, andb_false_r|].
      rewrite (N.bits_above_log2 b m), andb_false_r; [reflexivity|].
      apply N.log2_lt_pow2 in Hb; lia. }
  rewrite <- N.lxor_lor by exact Hland.
  symmetry. now apply N.add_nocarry_lxor.
Qed.

Lemma surrogate_pair_high :
  forall n : N, (n < 0x100000)%N ->
    N.lor 0xD800 (N.land (N.shiftr n 10) 0x3FF) = (0xD800 + n / 1024)%N.
Proof.
  intros n Hn. rewrite N.shiftr_div_pow2.
  change 0x3FF%N with (N.ones 10). rewrite N.land_ones.
  change (2 ^ 10)%N with 1024%N.
  assert (Hq : (n / 1024 < 1024)%N) by (apply N.Div0.div_lt_upper_bound; lia).
  rewrite N.mod_small by exact Hq.
  change 0xD800%N with (54 * 2 ^ 10)%N. apply lor_shifted. exact Hq.
Qed.

Lemma surrogate_pair_low :
  forall n : N, N.lor 0xDC00 (N.land n 0x3FF) = (0xDC00 + n mod 1024)%N.
Proof.
  intros n. change 0x3FF%N with (N.ones 10). rewrite N.land_ones.
  change (2 ^ 10)%N with 1024%N.
  change 0xDC00%N with (55 * 2 ^ 10)%N. apply lor_shifted.
  apply N.mod_lt. discriminate.
Qed.

Lemma join_surrogates_pair :
  forall n : N, (n < 0x100000)%N ->
    join_surrogates (0xD800 + n / 1024) (0xDC00 + n mod 1024) = (0x10000 + n)%N.
Proof.
  intros n Hn. unfold join_surrogates.
  replace (0xD800 + n / 1024 - 0xD800)%N with (n / 1024)%N
    by (generalize (n / 1024)%N; intros; lia).
  replace (0xDC00 + n mod 1024 - 0xDC00)%N with (n mod 1024)%N
    by (generalize (n mod 1024)%N; intros; lia).
  rewrite N.shiftl_mul_pow2. change (2 ^ 10)%N with 1024%N.
  change 1024%N with (2 ^ 10)%N at 1 2.
  rewrite lor_shifted by (change (2 ^ 10)%N with 1024%N; apply N.mod_lt; discriminate).
  change (2 ^ 10)%N with 1024%N.
  rewrite (N.div_mod n 1024) at 3 by discriminate. lia.
Qed.

(** Hexadecimal digits. *)
Lemma hexval_hex_digit : forall d : N, (d < 16)%N -> hexval (hex_digit d) = Some d.
Proof.
  intros d Hd. unfold hexval, hex_digit.
  destruct (d <? 10)%N eqn:E.
  - apply N.ltb_lt in E.
    replace ((48 <=? 48 + d) && (48 + d <=? 57))%N with true.
    + f_equal. lia.
    + symmetry. apply andb_true_iff. split; apply N.leb_le; lia.
  - apply N.ltb_ge in E.
    replace ((48 <=? 87 + d) && (87 + d <=? 57))%N with false.
    + replace ((97 <=? 87 + d) && (87 + d <=? 102))%N with true.
      * f_equal. lia.
      * symmetry. apply andb_true_iff. split; apply N.leb_le; lia.
    + symmetry. apply andb_false_iff. right. apply N.leb_gt. lia.
Qed.

Lemma decode_u_escape :
  forall n : N, (n < 0x10000)%N ->
    _decode_uXXXX (hex_digit (n / 4096)) (hex_digit ((n / 256) mod 16))
                  (hex_digit ((n / 16) mod 16)) (hex_digit (n mod 16)) = Some n.
Proof.
  intros n Hn. unfold _decode_uXXXX.
  assert (H3 : (n / 4096 < 16)%N) by (apply N.Div0.div_lt_upper_bound; lia).
  assert (H2 : ((n / 256) mod 16 < 16)%N) by (apply N.mod_lt; discriminate).
  assert (H1 : ((n / 16) mod 16 < 16)%N) by (apply N.mod_lt; discriminate).
  assert (H0 : (n mod 16 < 16)%N) by (apply N.mod_lt; discriminate).
  rewrite !hexval_hex_digit by assumption. f_equal.
  pose proof (N.div_mod n 16 ltac:(discriminate)) as E0.
  pose proof (N.div_mod (n / 16) 16 ltac:(discriminate)) as E1.
  pose proof (N.div_mod (n / 256) 16 ltac:(discriminate)) as E2.
  replace (n / 16 / 16)%N with (n / 256)%N in E1
    by (rewrite N.Div0.div_div; reflexivity).
  replace (n / 256 / 16)%N with (n / 4096)%N in E2
    by (rewrite N.Div0.div_div; reflexivity).
  assert (E3 : ((n / 4096) mod 16 = n / 4096)%N) by (apply N.mod_small; exact H3).
  lia.
Qed.

(** The text that follows starts with the escape of a low surrogate. *)
Definition follows_low (rest : list N) : bool :=
  match rest with
  | b :: r1 =>
      (b =? BACKSLASH_CHAR)%N &&
      match r1 with
      | u :: r2 =>
          (u =? 117)%N &&
          match r2 with
          | g1 :: g2 :: g3 :: g4 :: _ =>
              match _decode_uXXXX g1 g2 g3 g4 with
              | Some uni2 => is_low_surrogate uni2
              | None => false
              end
          | _ => false
          end
      | [] => false
      end
  | [] => false
  end.

Lemma py_scanstring_u :
  forall h1 h2 h3 h4 r2,
    py_scanstring (BACKSLASH_CHAR :: 117%N :: h1 :: h2 :: h3 :: h4 :: r2) =
    match _decode_uXXXX h1 h2 h3 h4 with
    | None => None
    | Some uni =>
        match r2 with
        | b :: u :: g1 :: g2 :: g3 :: g4 :: r4 =>
            if is_high_surrogate uni && (b =? BACKSLASH_CHAR)%N && (u =? 117)%N then
              match _decode_uXXXX g1 g2 g3 g4 with
              | None => None
              | Some uni2 =>
                  if is_low_surrogate uni2
                  then consc (join_surrogates uni uni2) (py_scanstring r4)
                  else consc uni (py_scanstring r2)
              end
            else consc uni (py_scanstring r2)
        | _ => consc uni (py_scanstring r2)
        end
    end.
Proof. reflexivity. Qed.

(** A [\uXXXX] escape that is not the first half of a pair. *)
Lemma scan_u_escape :
  forall n rest,
    (n < 0x10000)%N ->
    is_high_surrogate n = false \/ follows_low rest = false ->
    py_scanstring (u_escape n ++ rest) = consc n (py_scanstring rest).
Proof.
  intros n rest Hn Hcond. unfold u_escape. cbn [app].
  rewrite py_scanstring_u, decode_u_escape by exact Hn.
  destruct rest as [|b [|u [|g1 [|g2 [|g3 [|g4 r4]]]]]]; try reflexivity.
  destruct (is_high_surrogate n) eqn:Eh; [|reflexivity].
  destruct Hcond as [Hc|Hc]; [discriminate|].
  cbn [andb]. unfold follows_low in Hc.
  destruct (b =? BACKSLASH_CHAR)%N eqn:Eb; [|reflexivity].
  destruct (u =? 117)%N eqn:Eu; [|reflexivity].
  cbn [andb] in *. apply N.eqb_eq in Eb, Eu. subst b u.
  rewrite py_scanstring_u.
  destruct (_decode_uXXXX g1 g2 g3 g4) as [uni2|]; [|reflexivity].
  now rewrite Hc.
Qed.

(** The two escapes of a surrogate pair are read as one character. *)
Lemma scan_pair_escape :
  forall hi lo rest,
    (hi < 0x10000)%N -> (lo < 0x10000)%N ->
    is_high_surrogate hi = true -> is_low_surrogate lo = true ->
    py_scanstring (u_escape hi ++ u_escape lo ++ rest)
    = consc (join_surrogates hi lo) (py_scanstring rest).
Proof.
  intros hi lo rest Hhi Hlo Hh Hl. unfold u_escape. cbn [app].
  rewrite py_scanstring_u, decode_u_escape by exact Hhi.
  rewrite Hh, N.eqb_refl. cbn [andb N.eqb Pos.eqb].
  rewrite decode_u_escape by exact Hlo. now rewrite Hl.
Qed.

Ltac eqb_case c k :=
  destruct (N.eqb c k) eqn:?;
  [ match goal with H : N.eqb c k = true |- _ => apply N.eqb_eq in H; subst c end | ].

Lemma surrogate_units :
  forall c : N, (0x10000 <= c <= 0x10FFFF)%N ->
    exists q r : N,
      N.lor 0xD800 (N.land (N.shiftr (c - 0x10000) 10) 0x3FF) = (0xD800 + q)%N /\
      N.lor 0xDC00 (N.land (c - 0x10000) 0x3FF) = (0xDC00 + r)%N /\
      (q < 1024)%N /\ (r < 1024)%N /\
      join_surrogates (0xD800 + q) (0xDC00 + r) = c.
Proof.
  intros c Hc. set (n := (c - 0x10000)%N).
  assert (Hn : (n < 0x100000)%N) by (unfold n; lia).
  exists (n / 1024)%N, (n mod 1024)%N.
  split; [now apply surrogate_pair_high|]. split; [apply surrogate_pair_low|].
  split; [apply N.Div0.div_lt_upper_bound; lia|].
  split; [apply N.mod_lt; discriminate|].
  rewrite join_surrogates_pair by exact Hn. unfold n. lia.
Qed.

(** Reading back the escape of one character. *)
Lemma scan_escape_char :
  forall c rest,
    valid_char c ->
    is_high_surrogate c = false \/ follows_low rest = false ->
    py_scanstring (escape_char c ++ rest) = consc c (py_scanstring rest).
Proof.
  intros c rest Hv Hcond. unfold escape_char, valid_char in *.
  eqb_case c 34%N; [reflexivity|].
  eqb_case c 92%N; [reflexivity|].
  eqb_case c 10%N; [reflexivity|].
  eqb_case c 13%N; [reflexivity|].
  eqb_case c 9%N; [reflexivity|].
  eqb_case c 12%N; [reflexivity|].
  eqb_case c 8%N; [reflexivity|].
  destruct ((32 <=? c) && (c <=? 126))%N eqn:Eprint.
  - apply andb_true_iff in Eprint as [Hlo Hhi]. apply N.leb_le in Hlo.
    cbn [app py_scanstring]. change DQUOTE with 34%N. change BACKSLASH_CHAR with 92%N.
    rewrite Heqb, Heqb0.
    replace (c <? 32)%N with false by (symmetry; apply N.ltb_ge; exact Hlo).
    reflexivity.
  - destruct (c <? 0x10000)%N eqn:Ebmp.
    + apply N.ltb_lt in Ebmp. now apply scan_u_escape.
    + apply N.ltb_ge in Ebmp. cbv zeta.
      destruct (surrogate_units c (conj Ebmp Hv)) as [q [r [H1 [H2 [Hq [Hr Hj]]]]]].
      rewrite H1, H2, <- app_assoc.
      rewrite scan_pair_escape.
      * now rewrite Hj.
      * lia.
      * lia.
      * unfold is_high_surrogate. apply andb_true_iff.
        split; apply N.leb_le; lia.
      * unfold is_low_surrogate. apply andb_true_iff.
        split; apply N.leb_le; lia.
Qed.

Lemma follows_low_u_escape :
  forall n rest, (n < 0x10000)%N ->
    follows_low (u_escape n ++ rest) = is_low_surrogate n.
Proof.
  intros n rest Hn. unfold u_escape, follows_low. cbn [app].
  rewrite !N.eqb_refl. cbn [andb]. now rewrite decode_u_escape.
Qed.

(** The escape of a character that is not a low surrogate does not start
    like the escape of one. *)
Lemma follows_low_escape_char :
  forall c rest,
    valid_char c -> is_low_surrogate c = false ->
    follows_low (escape_char c ++ rest) = false.
Proof.
  intros c rest Hv Hl. unfold escape_char, valid_char in *.
  eqb_case c 34%N; [reflexivity|].
  eqb_case c 92%N; [reflexivity|].
  eqb_case c 10%N; [reflexivity|].
  eqb_case c 13%N; [reflexivity|].
  eqb_case c 9%N; [reflexivity|].
  eqb_case c 12%N; [reflexivity|].
  eqb_case c 8%N; [reflexivity|].
  destruct ((32 <=? c) && (c <=? 126))%N eqn:Eprint.
  - cbn [app follows_low]. change BACKSLASH_CHAR with 92%N. now rewrite Heqb0.
  - destruct (c <? 0x10000)%N eqn:Ebmp.
    + apply N.ltb_lt in Ebmp. now rewrite follows_low_u_escape.
    + apply N.ltb_ge in Ebmp. cbv zeta.
      destruct (surrogate_units c (conj Ebmp Hv)) as [q [r [H1 [_ [Hq _]]]]].
      rewrite H1, <- app_assoc.
      rewrite follows_low_u_escape by lia.
      unfold is_low_surrogate. apply andb_false_iff. left. apply N.leb_gt. lia.
Qed.

(** No high surrogate is directly followed by a low surrogate. *)
Fixpoint surrogate_pair_free (s : list N) : bool :=
  match s with
  | c :: s' =>
      negb (is_high_surrogate c &&
            match s' with
            | c' :: _ => is_low_surrogate c'
            | [] => false
            end)
      && surrogate_pair_free s'
  | [] => true
  end.

(** A string [json.dumps] and [json.loads] agree on. *)
Definition plain_text (s : list N) : Prop :=
  valid_str s /\ surrogate_pair_free s = true.

Lemma scan_escaped_string :
  forall s rest,
    plain_text s ->
    py_scanstring (flat_map escape_char s ++ DQUOTE :: rest) = Some (s, rest).
Proof.
  induction s as [|c s IH]; intros rest [Hv Hp]; [reflexivity|].
  apply Forall_cons_iff in Hv as [Hc Hv].
  cbn [surrogate_pair_free] in Hp. apply andb_true_iff in Hp as [Hpair Hp].
  cbn [flat_map]. rewrite <- app_assoc.
  rewrite scan_escape_char; [rewrite IH by (split; assumption); reflexivity | exact Hc |].
  destruct (is_high_surrogate c); [right | now left].
  cbn [andb] in Hpair. apply negb_true_iff in Hpair.
  destruct s as [|c' s']; [reflexivity|].
  cbn [flat_map]. rewrite <- app_assoc.
  apply follows_low_escape_char; [|exact Hpair].
  now apply Forall_cons_iff in Hv as [Hc' _].
Qed.

Lemma scan_escaped_string_34 :
  forall s rest,
    plain_text s ->
    py_scanstring (flat_map escape_char s ++ 34%N :: rest) = Some (s, rest).
Proof. exact scan_escaped_string. Qed.

(** The members of an object, as [object_items] meets them: after the
    opening quote of the first key, up to the closing brace. *)
Fixpoint members_text (m : list (list N * list N)) (rest : list N) : list N :=
  match m with
  | [] => []
  | (k, v) :: m' =>
      flat_map escape_char k ++ 34%N :: 58%N :: 32%N :: 34%N ::
      flat_map escape_char v ++ 34%N ::
      match m' with
      | [] => 125%N :: rest
      | _ :: _ => 44%N :: 32%N :: 34%N :: members_text m' rest
      end
  end.

Definition member_value (kv : list N * list N) : list N * pyval :=
  (fst kv, PyStr (snd kv)).

Definition plain_member (kv : list N * list N) : Prop :=
  plain_text (fst kv) /\ plain_text (snd kv).

Lemma members_text_dumps :
  forall m rest,
    m <> [] ->
    join (str ", ") (map dumps_member m) ++ 125%N :: rest
    = 34%N :: members_text m rest.
Proof.
  induction m as [|[k v] m IH]; intros rest Hne; [contradiction|].
  destruct m as [|kv' m'].
  - cbn [map join members_text]. unfold dumps_member, py_encode_basestring_ascii.
    cbn [fst snd]. change (str ": ") with [58%N; 32%N]. change DQUOTE with 34%N.
    repeat (progress (rewrite <- ?app_assoc; cbn [app])). reflexivity.
  - change (map dumps_member ((k, v) :: kv' :: m'))
      with (dumps_member (k, v) :: map dumps_member (kv' :: m')).
    rewrite join_cons by discriminate.
    rewrite <- !app_assoc. rewrite IH by discriminate.
    cbn [members_text]. unfold dumps_member, py_encode_basestring_ascii.
    cbn [fst snd]. change (str ": ") with [58%N; 32%N].
    change (str ", ") with [44%N; 32%N]. change DQUOTE with 34%N.
    repeat (progress (rewrite <- ?app_assoc; cbn [app])). reflexivity.
Qed.

Lemma object_items_members :
  forall m rest fuel,
    m <> [] -> Forall plain_member m -> length m < fuel ->
    object_items fuel (members_text m rest) = Done (map member_value m) rest.
Proof.
  induction m as [|[k v] m IH]; intros rest fuel Hne Hall Hfuel; [contradiction|].
  apply Forall_cons_iff in Hall as [[Hk Hv] Hall]. cbn [fst snd] in Hk, Hv.
  destruct fuel as [|fuel]; [lia|]. cbn [length] in Hfuel.
  cbn [members_text object_items]. change DQUOTE with 34%N.
  rewrite scan_escaped_string_34 by exact Hk.
  cbn [skip_ws is_json_ws N.eqb Pos.eqb orb].
  destruct fuel as [|fuel]; [lia|]. cbn [scan_once]. change DQUOTE with 34%N.
  cbn [N.eqb Pos.eqb].
  rewrite scan_escaped_string_34 by exact Hv.
  destruct m as [|kv' m'].
  - reflexivity.
  - cbn [skip_ws is_json_ws N.eqb Pos.eqb orb].
    rewrite IH; [reflexivity | discriminate | exact Hall | cbn [length] in *; lia].
Qed.

Lemma join_length :
  forall (sep : list N) (parts : list (list N)),
    Forall (fun p => 1 <= length p) parts -> length parts <= length (join sep parts).
Proof.
  intros sep. induction parts as [|p parts IH]; intros H; [cbn; lia|].
  apply Forall_cons_iff in H as [Hp H]. destruct parts as [|q parts].
  - cbn [join length]. lia.
  - rewrite join_cons by discriminate. rewrite !length_app.
    specialize (IH H). cbn [length] in *. lia.
Qed.

Lemma dict_setitem_new :
  forall k v d, ~ In k (map fst d) -> dict_setitem k v d = d ++ [(k, v)].
Proof.
  intros k v. induction d as [|[k' v'] d IH]; intros Hn; [reflexivity|].
  cbn [dict_setitem map fst In] in *.
  destruct (str_eqb k k') eqn:E.
  - apply str_eqb_eq in E. subst. exfalso. apply Hn. now left.
  - cbn [app]. f_equal. apply IH. intros Hin. apply Hn. now right.
Qed.

Lemma dict_of_pairs_distinct :
  forall pairs, NoDup (map fst pairs) -> dict_of_pairs pairs = pairs.
Proof.
  intros pairs. unfold dict_of_pairs.
  enough (H : forall acc,
             NoDup (map fst (acc ++ pairs)) ->
             fold_left (fun d kv => dict_setitem (fst kv) (snd kv) d) pairs acc
             = acc ++ pairs) by (intros Hnd; exact (H [] Hnd)).
  induction pairs as [|[k v] pairs IH]; intros acc Hnd; cbn [fold_left].
  - now rewrite app_nil_r.
  - cbn [fst snd]. rewrite dict_setitem_new.
    + rewrite IH; rewrite <- app_assoc; [reflexivity | exact Hnd].
    + rewrite map_app in Hnd. cbn [map fst] in Hnd.
      apply NoDup_remove_2 in Hnd. intros Hin. apply Hnd.
      apply in_or_app. now left.
Qed.

Lemma loads_dumps :
  forall m,
    Forall plain_member m ->
    loads (dumps m) = Loaded (PyDict (dict_of_pairs (map member_value m))).
Proof.
  intros m Hall. destruct m as [|kv m]; [reflexivity|].
  unfold dumps. change (str "{") with [123%N]. change (str "}") with [125%N].
  cbn [app]. rewrite members_text_dumps by discriminate.
  assert (Hlen : length (kv :: m) <= length (34%N :: members_text (kv :: m) [])).
  { rewrite <- members_text_dumps by discriminate. rewrite length_app.
    pose proof (join_length (str ", ") (map dumps_member (kv :: m))) as Hj.
    rewrite length_map in Hj.
    enough (length (kv :: m) <= length (join (str ", ") (map dumps_member (kv :: m))))
      by lia.
    apply Hj. apply Forall_forall. intros p Hp. apply in_map_iff in Hp as [x [<- _]].
    unfold dumps_member, py_encode_basestring_ascii. rewrite !length_app.
    cbn [length]. lia. }
  unfold loads. cbn [startswith N.eqb Pos.eqb andb skip_ws is_json_ws orb].
  unfold fuel_for. rewrite Nat.add_comm. cbn [Nat.add scan_once].
  change DQUOTE with 34%N. cbn [N.eqb Pos.eqb]. unfold JSONObject.
  cbn [skip_ws is_json_ws N.eqb Pos.eqb orb]. change DQUOTE with 34%N.
  cbn [N.eqb Pos.eqb].
  rewrite object_items_members; [reflexivity | discriminate | exact Hall |].
  cbn [length] in *. lia.
Qed.

(** ** [str.strip] *)

Lemma lstrip_nonspace :
  forall c s, is_space c = false -> lstrip (c :: s) = c :: s.
Proof. intros c s H. cbn [lstrip]. now rewrite H. Qed.

Lemma rstrip_nonspace :
  forall c s, is_space c = false -> rstrip (s ++ [c]) = s ++ [c].
Proof.
  intros c s H. unfold rstrip. rewrite rev_app_distr. cbn [rev app].
  rewrite lstrip_nonspace by exact H. cbn [rev]. now rewrite rev_involutive.
Qed.

Lemma strip_framed :
  forall a b s,
    is_space a = false -> is_space b = false ->
    strip (a :: s ++ [b]) = a :: s ++ [b].
Proof.
  intros a b s Ha Hb. unfold strip. rewrite lstrip_nonspace by exact Ha.
  change (a :: s ++ [b]) with ((a :: s) ++ [b]). now apply rstrip_nonspace.
Qed.

Lemma dumps_framed :
  forall m, exists body, dumps m = 123%N :: body ++ [125%N].
Proof.
  intros m. exists (join (str ", ") (map dumps_member m)). reflexivity.
Qed.

Lemma cleaned_text_dumps : forall m, cleaned_text (dumps m) = inr (dumps m).
Proof.
  intros m. destruct (dumps_framed m) as [body ->]. unfold cleaned_text.
  rewrite strip_framed by reflexivity. reflexivity.
Qed.

(** C7, as amended.  [_parse_json_response] reads back what [json.dumps]
    writes for a flat mapping from strings to strings (keys all different),
    provided no string of the mapping has a high surrogate directly
    followed by a low surrogate: parsing the serialisation gives the
    mapping itself, key for key and in the same order. *)
Theorem parse_json_response_round_trip :
  forall m : list (list N * list N),
    NoDup (map fst m) ->
    Forall plain_member m ->
    _parse_json_response (dumps m) = inr (map member_value m).
Proof.
  intros m Hkeys Hplain. unfold _parse_json_response.
  rewrite cleaned_text_dumps, loads_dumps by exact Hplain.
  rewrite dict_of_pairs_distinct; [reflexivity|].
  rewrite map_map. cbn [member_value fst]. exact Hkeys.
Qed.

Lemma parse_json_response_round_trip_witness :
  NoDup (map fst [(str "Summary", str "ok"); (str "Date", [233%N; 0x1F600%N])]) /\
  Forall plain_member [(str "Summary", str "ok"); (str "Date", [233%N; 0x1F600%N])] /\
  _parse_json_response (dumps [(str "Summary", str "ok"); (str "Date", [233%N; 0x1F600%N])])
  = inr (map member_value [(str "Summary", str "ok"); (str "Date", [233%N; 0x1F600%N])]).
Proof.
  assert (Hkeys : NoDup (map fst [(str "Summary", str "ok");
                                  (str "Date", [233%N; 0x1F600%N])])).
  { repeat constructor; simpl; intuition discriminate. }
  assert (Hplain : Forall plain_member [(str "Summary", str "ok");
                                        (str "Date", [233%N; 0x1F600%N])]).
  { repeat constructor; vm_compute; discriminate. }
  split; [exact Hkeys|]. split; [exact Hplain|].
  exact (parse_json_response_round_trip _ Hkeys Hplain).
Defined.

(** C7 as stated fails: a string made of a high surrogate followed by a
    low surrogate is written as two escapes, which are read back as one
    character. *)
Lemma round_trip_joins_surrogates :
  dumps [(str "k", [0xD83D%N; 0xDE00%N])]
    = [123; 34; 107; 34; 58; 32; 34;
       92; 117; 100; 56; 51; 100; 92; 117; 100; 101; 48; 48; 34; 125]%N /\
  _parse_json_response (dumps [(str "k", [0xD83D%N; 0xDE00%N])])
    = inr [(str "k", PyStr [0x1F600%N])] /\
  str_eqb [0x1F600%N] [0xD83D%N; 0xDE00%N] = false.
Proof. repeat split; reflexivity. Qed.

(** ** The fence pattern on a fenced text *)

(** The end of a fenced block: a newline and three backticks. *)
Definition FENCE_END : list N := [10; 96; 96; 96]%N.

(** The answer of [re.match]: the match object as it is. *)
Definition matched (pos : nat) (s : list N) (g : option (list N))
    : option (option (list N)) := Some g.

(** The part of the pattern after the group. *)
Definition fence_tail : regex := Seq (Lit [LF; BACKTICK; BACKTICK; BACKTICK]) Eol.

(** The part of the pattern after the white space. *)
Definition fence_body : regex :=
  Seq (Chr LF) (Seq (Grp (LazyStar (fun _ => true))) fence_tail).






Lemma fence_body_elsewhere :
  forall c s pos, (c =? LF)%N = false ->
    rmatch fence_body pos (c :: s) None matched = None.
Proof. intros c s pos H. unfold fence_body. cbn [rmatch]. now rewrite H. Qed.


Definition all_space (w : list N) : Prop := Forall (fun c => is_space c = true) w.




(** The pattern after the three backticks: the optional tag and what
    comes next. *)
Definition after_ticks (pos : nat) (s : list N) (g : option (list N))
    : option (option (list N)) :=
  star_greedy is_space (fun pos' s' => rmatch fence_body pos' s' g matched) pos s.

Lemma json_pattern_after_ticks :
  forall s,
    re_match json_pattern (BACKTICK :: BACKTICK :: BACKTICK :: s) =
    match rmatch (Lit (str "json")) 3 s None after_ticks with
    | Some res => Some res
    | None => after_ticks 3 s None
    end.
Proof. reflexivity. Qed.

Lemma json_pattern_needs_ticks :
  forall c s, (c =? BACKTICK)%N = false -> re_match json_pattern (c :: s) = None.
Proof.
  intros c s H. unfold re_match, json_pattern. cbn [rmatch Lit Nat.eqb].
  now rewrite H.
Qed.


(** ** [str.strip] and white space *)

Lemma lstrip_split : forall t, exists w, all_space w /\ t = w ++ lstrip t.
Proof.
  induction t as [|c t [w [Hw Ht]]].
  - exists []. split; [constructor | reflexivity].
  - cbn [lstrip]. destruct (is_space c) eqn:E.
    + exists (c :: w). split; [now constructor | cbn; now f_equal].
    + exists []. split; [constructor | reflexivity].
Qed.

Lemma lstrip_head : forall t c u, lstrip t = c :: u -> is_space c = false.
Proof.
  induction t as [|x t IH]; intros c u H; [discriminate|].
  cbn [lstrip] in H. destruct (is_space x) eqn:E; [now apply IH in H|].
  now injection H as <- _.
Qed.



Lemma strip_fenced :
  forall tag t,
    strip (BACKTICK :: BACKTICK :: BACKTICK :: tag ++ LF :: t ++ FENCE_END)
    = BACKTICK :: BACKTICK :: BACKTICK :: tag ++ LF :: t ++ FENCE_END.
Proof.
  intros tag t. unfold strip. rewrite lstrip_nonspace by reflexivity.
  replace (BACKTICK :: BACKTICK :: BACKTICK :: tag ++ LF :: t ++ FENCE_END)
    with ((BACKTICK :: BACKTICK :: BACKTICK :: tag ++ LF :: t ++ [10; 96; 96]%N)
          ++ [96%N]).
  - now apply rstrip_nonspace.
  - cbn [app]. rewrite <- !app_assoc. cbn [app]. rewrite <- !app_assoc. reflexivity.
Qed.

Lemma loads_backtick : forall s, loads (BACKTICK :: s) = JSONDecodeError.
Proof.
  intros s. unfold loads, fuel_for. rewrite Nat.add_comm. reflexivity.
Qed.

Lemma loads_nil : loads [] = JSONDecodeError.
Proof. reflexivity. Qed.


(** ** [_parse_json_response] on a fenced block *)

(** A text wrapped in a markdown fence, with a language tag or with
    none. *)
Definition fenced (tag t : list N) : list N :=
  [BACKTICK; BACKTICK; BACKTICK] ++ tag ++ [LF] ++ t
  ++ [LF; BACKTICK; BACKTICK; BACKTICK].

Lemma fenced_shape :
  forall tag t,
    fenced tag t = BACKTICK :: BACKTICK :: BACKTICK :: tag ++ LF :: t ++ FENCE_END.
Proof. reflexivity. Qed.






(** ** The decoder reads a value from a prefix of the text *)

(** A character that can continue a number literal. *)
Definition number_char (c : N) : bool :=
  (is_digit c || (c =? 46) || (c =? 101) || (c =? 69))%N.

(** The text cannot continue a number literal that ends before it. *)
Definition stops (s : list N) : Prop :=
  match s with
  | [] => True
  | c :: _ => number_char c = false
  end.

Definition all_digits (d : list N) : Prop := Forall (fun c => is_digit c = true) d.

Lemma number_char_parts :
  forall c, number_char c = false ->
    is_digit c = false /\ (c =? 46)%N = false /\ (c =? 101)%N = false /\ (c =? 69)%N = false.
Proof.
  intros c H. unfold number_char in H.
  repeat (apply orb_false_iff in H as [H ?]). now repeat split.
Qed.

Lemma take_digits_split :
  forall s d r, take_digits s = (d, r) -> s = d ++ r /\ all_digits d.
Proof.
  induction s as [|c s IH]; intros d r H; cbn [take_digits] in H.
  - injection H as <- <-. split; [reflexivity | constructor].
  - destruct (is_digit c) eqn:Ec.
    + destruct (take_digits s) as [d' r'] eqn:E. injection H as <- <-.
      destruct (IH _ _ eq_refl) as [-> Hd]. split; [reflexivity | now constructor].
    + injection H as <- <-. split; [reflexivity | constructor].
Qed.

Lemma take_digits_app :
  forall d r, all_digits d -> stops r -> take_digits (d ++ r) = (d, r).
Proof.
  induction 1 as [|c d Hc _ IH]; intros Hr; cbn [app take_digits].
  - destruct r as [|x r]; [reflexivity|]. cbn [take_digits].
    apply number_char_parts in Hr as [-> _]. reflexivity.
  - rewrite Hc, (IH Hr). reflexivity.
Qed.

(** A text that starts with a character that is no digit, or with a
    digit-free continuation, stops the digits before it. *)
Lemma take_digits_stop :
  forall d c r, all_digits d -> is_digit c = false -> take_digits (d ++ c :: r) = (d, c :: r).
Proof.
  induction 1 as [|x d Hx _ IH]; intros Hc; cbn [app take_digits].
  - now rewrite Hc.
  - now rewrite Hx, (IH Hc).
Qed.

(** The text does not start with a digit. *)
Definition no_digit_ahead (s : list N) : Prop :=
  match s with
  | [] => True
  | c :: _ => is_digit c = false
  end.

Lemma take_digits_ahead :
  forall d r, all_digits d -> no_digit_ahead r -> take_digits (d ++ r) = (d, r).
Proof.
  intros d [|c r] Hd Hr.
  - rewrite app_nil_r. induction Hd as [|x d Hx _ IH]; [reflexivity|].
    cbn [take_digits]. now rewrite Hx, IH.
  - now apply take_digits_stop.
Qed.

Lemma stops_no_digit : forall r, stops r -> no_digit_ahead r.
Proof.
  intros [|c r] H; [exact I|]. now apply number_char_parts in H as [H _].
Qed.

Lemma match_integer_stable :
  forall s i r,
    match_integer s = Some (i, r) ->
    s = i ++ r /\
    forall r', no_digit_ahead r' -> match_integer (i ++ r') = Some (i, r').
Proof.
  intros s i r H. unfold match_integer in H.
  assert (Hcore : forall u sign,
            match u with
            | c :: r' =>
                if (c =? 48)%N then Some (sign ++ [c], r')
                else if is_digit c then
                  let (d, rest) := take_digits r' in Some (sign ++ c :: d, rest)
                else None
            | [] => None
            end = Some (i, r) ->
            exists j, i = sign ++ j /\ u = j ++ r /\
              forall r',
                no_digit_ahead r' ->
                match j ++ r' with
                | c :: r'' =>
                    if (c =? 48)%N then Some (sign ++ [c], r'')
                    else if is_digit c then
                      let (d, rest) := take_digits r'' in Some (sign ++ c :: d, rest)
                    else None
                | [] => None
                end = Some (i, r')).
  { clear H. intros u sign Hu. destruct u as [|c u]; [discriminate|].
    destruct (c =? 48)%N eqn:E0.
    - injection Hu as <- <-. exists [c]. repeat split. intros r' _.
      cbn [app]. now rewrite E0.
    - destruct (is_digit c) eqn:Ec; [|discriminate].
      destruct (take_digits u) as [d rest] eqn:E. injection Hu as <- <-.
      apply take_digits_split in E as [-> Hd]. exists (c :: d). repeat split.
      intros r' Hr'. cbn [app]. rewrite E0, Ec.
      now rewrite (take_digits_ahead d r' Hd Hr'). }
  destruct s as [|c s]; [discriminate|].
  destruct (c =? 45)%N eqn:Em.
  - apply Hcore in H as [j [-> [-> Hj]]]. split; [reflexivity|].
    intros r' Hr'. unfold match_integer. cbn [app]. rewrite Em.
    exact (Hj r' Hr').
  - apply (Hcore (c :: s) []) in H as [j [-> [Hs Hj]]]. cbn [app] in *.
    split; [exact Hs|].
    intros r' Hr'. unfold match_integer.
    destruct j as [|x j]; [specialize (Hj r' Hr'); destruct r'; cbn in Hj |].
    + discriminate.
    + cbn [app] in Hj. destruct (n =? 48)%N; [injection Hj as Hj _; discriminate|].
      destruct (is_digit n); [|discriminate].
      destruct (take_digits r'); injection Hj as Hj _; discriminate.
    + injection Hs as -> _. cbn [app]. rewrite Em. exact (Hj r' Hr').
Qed.

Lemma match_frac_stable :
  forall s f r,
    match_frac s = (Some f, r) ->
    s = f ++ r /\ no_digit_ahead f /\ f <> [] /\
    forall r', no_digit_ahead r' -> match_frac (f ++ r') = (Some f, r').
Proof.
  intros s f r H. unfold match_frac in H.
  destruct s as [|c s]; [discriminate|].
  destruct (c =? 46)%N eqn:Ec; [|discriminate].
  destruct (take_digits s) as [[|x d] rest] eqn:E; [discriminate|].
  injection H as <- <-. apply take_digits_split in E as [-> Hd].
  apply N.eqb_eq in Ec. subst c.
  repeat split; [discriminate|].
  intros r' Hr'. unfold match_frac. cbn [app N.eqb Pos.eqb].
  change (x :: d ++ r') with ((x :: d) ++ r').
  now rewrite (take_digits_ahead _ _ Hd Hr').
Qed.

Lemma match_frac_none :
  forall s r, match_frac s = (None, r) -> r = s.
Proof.
  intros s r H. unfold match_frac in H.
  destruct s as [|c s]; [now injection H|].
  destruct (c =? 46)%N; [|now injection H].
  destruct (take_digits s) as [[|x d] rest]; [now injection H | discriminate].
Qed.

Lemma match_frac_other :
  forall s, match s with [] => True | c :: _ => (c =? 46)%N = false end ->
            match_frac s = (None, s).
Proof.
  intros [|c s] H; [reflexivity|]. unfold match_frac. now rewrite H.
Qed.

Lemma match_exp_stable :
  forall s e r,
    match_exp s = (Some e, r) ->
    s = e ++ r /\
    (exists c e', e = c :: e' /\ is_digit c = false /\ (c =? 46)%N = false) /\
    forall r', no_digit_ahead r' -> match_exp (e ++ r') = (Some e, r').
Proof.
  intros s e r H. unfold match_exp in H.
  destruct s as [|c s]; [discriminate|].
  destruct ((c =? 101) || (c =? 69))%N eqn:Ec; [|discriminate].
  assert (Hc : is_digit c = false /\ (c =? 46)%N = false).
  { apply orb_true_iff in Ec as [Ec|Ec]; apply N.eqb_eq in Ec; subst c; now split. }
  destruct s as [|x s].
  - discriminate.
  - destruct ((x =? 45) || (x =? 43))%N eqn:Ex.
    + destruct (take_digits s) as [[|y d] rest] eqn:E; [discriminate|].
      injection H as <- <-. apply take_digits_split in E as [-> Hd].
      split; [reflexivity|]. split; [now exists c, ([x] ++ y :: d)|].
      intros r' Hr'. unfold match_exp. cbn [app]. rewrite Ec, Ex.
      change (y :: d ++ r') with ((y :: d) ++ r').
      now rewrite (take_digits_ahead _ _ Hd Hr').
    + destruct (take_digits (x :: s)) as [[|y d] rest] eqn:E; [discriminate|].
      injection H as <- <-. apply take_digits_split in E as [E Hd].
      cbn [app] in E. injection E as -> ->.
      split; [reflexivity|]. split; [now exists c, ([] ++ y :: d)|].
      intros r' Hr'. unfold match_exp. cbn [app]. rewrite Ec, Ex.
      change (y :: d ++ r') with ((y :: d) ++ r').
      now rewrite (take_digits_ahead _ _ Hd Hr').
Qed.

Lemma match_exp_none :
  forall s r, match_exp s = (None, r) -> r = s.
Proof.
  intros s r H. unfold match_exp in H.
  destruct s as [|c s]; [now injection H|].
  destruct ((c =? 101) || (c =? 69))%N; [|now injection H].
  destruct s as [|x s].
  - cbn in H. now injection H.
  - destruct ((x =? 45) || (x =? 43))%N.
    + destruct (take_digits s) as [[|y d] rest]; [now injection H | discriminate].
    + destruct (take_digits (x :: s)) as [[|y d] rest]; [now injection H | discriminate].
Qed.

Lemma match_exp_other :
  forall s,
    match s with [] => True | c :: _ => (c =? 101)%N = false /\ (c =? 69)%N = false end ->
    match_exp s = (None, s).
Proof.
  intros [|c s] H; [reflexivity|]. destruct H as [H1 H2].
  unfold match_exp. now rewrite H1, H2.
Qed.

Lemma stops_frac_exp :
  forall r, stops r -> match_frac r = (None, r) /\ match_exp r = (None, r).
Proof.
  intros [|c r] H; [now split|].
  apply number_char_parts in H as [_ [H1 [H2 H3]]].
  split; [now apply match_frac_other | now apply match_exp_other].
Qed.

(** The number literal at the head of a text is read the same way before
    any text that cannot continue it. *)
Lemma match_number_stable :
  forall s v rest,
    match_number s = Some (v, rest) ->
    exists body,
      s = body ++ rest /\
      forall rest', stops rest' -> match_number (body ++ rest') = Some (v, rest').
Proof.
  intros s v rest H. unfold match_number in H.
  destruct (match_integer s) as [[i r1]|] eqn:Ei; [|discriminate].
  destruct (match_frac r1) as [frac r2] eqn:Ef.
  destruct (match_exp r2) as [exp r3] eqn:Ee.
  apply match_integer_stable in Ei as [-> Hi].
  destruct frac as [f|], exp as [e|].
  - injection H as <- <-.
    apply match_frac_stable in Ef as [-> [Hf0 [_ Hf]]].
    apply match_exp_stable in Ee as [-> [[c [e' [-> [Hc Hc']]]] He]].
    exists (i ++ f ++ c :: e'). split; [now rewrite <- !app_assoc|].
    intros rest' Hr. destruct (stops_frac_exp _ Hr) as [Hf' He'].
    unfold match_number. rewrite <- !app_assoc.
    rewrite (Hi (f ++ (c :: e') ++ rest')) by (destruct f; [exact Hc | exact Hf0]).
    rewrite (Hf ((c :: e') ++ rest')) by exact Hc.
    rewrite (He rest') by (now apply stops_no_digit). reflexivity.
  - injection H as <- <-.
    apply match_frac_stable in Ef as [-> [Hf0 [Hne Hf]]].
    apply match_exp_none in Ee as ->.
    exists (i ++ f). split; [now rewrite <- !app_assoc|].
    intros rest' Hr. destruct (stops_frac_exp _ Hr) as [Hf' He'].
    unfold match_number. rewrite <- !app_assoc.
    rewrite (Hi (f ++ rest')) by (destruct f; [congruence | exact Hf0]).
    rewrite (Hf rest') by (now apply stops_no_digit).
    rewrite He'. reflexivity.
  - injection H as <- <-.
    apply match_frac_none in Ef as ->.
    apply match_exp_stable in Ee as [-> [[c [e' [-> [Hc Hc']]]] He]].
    exists (i ++ c :: e'). split; [now rewrite <- !app_assoc|].
    intros rest' Hr. unfold match_number. rewrite <- !app_assoc.
    rewrite (Hi ((c :: e') ++ rest')) by exact Hc.
    rewrite (match_frac_other ((c :: e') ++ rest')) by exact Hc'.
    rewrite (He rest') by (now apply stops_no_digit). reflexivity.
  - injection H as <- <-.
    apply match_frac_none in Ef as ->. apply match_exp_none in Ee as ->.
    exists i. split; [reflexivity|].
    intros rest' Hr. destruct (stops_frac_exp _ Hr) as [Hf' He'].
    unfold match_number.
    rewrite (Hi rest') by (now apply stops_no_digit).
    rewrite Hf', He'. reflexivity.
Qed.

(** What [py_scanstring] looks at after the escape of a high surrogate:
    a second [\u] escape and its four characters, decoded. *)
Definition low_escape (r2 : list N) : option (option N) :=
  match r2 with
  | b :: r =>
      if (b =? BACKSLASH_CHAR)%N then
        match r with
        | u :: r' =>
            if (u =? 117)%N then
              match r' with
              | g1 :: g2 :: g3 :: g4 :: _ => Some (_decode_uXXXX g1 g2 g3 g4)
              | _ => None
              end
            else None
        | [] => None
        end
      else None
  | [] => None
  end.

Lemma py_scanstring_ahead :
  forall h1 h2 h3 h4 r2,
    py_scanstring (BACKSLASH_CHAR :: 117%N :: h1 :: h2 :: h3 :: h4 :: r2) =
    match _decode_uXXXX h1 h2 h3 h4 with
    | None => None
    | Some uni =>
        if is_high_surrogate uni then
          match low_escape r2 with
          | Some None => None
          | Some (Some uni2) =>
              if is_low_surrogate uni2
              then consc (join_surrogates uni uni2) (py_scanstring (skipn 6 r2))
              else consc uni (py_scanstring r2)
          | None => consc uni (py_scanstring r2)
          end
        else consc uni (py_scanstring r2)
    end.
Proof.
  intros h1 h2 h3 h4 r2. rewrite py_scanstring_u.
  destruct (_decode_uXXXX h1 h2 h3 h4) as [uni|]; [|reflexivity].
  destruct r2 as [|b [|u [|g1 [|g2 [|g3 [|g4 r4]]]]]]; cbn [low_escape skipn];
    destruct (is_high_surrogate uni); cbn [andb]; try reflexivity;
    destruct (b =? BACKSLASH_CHAR)%N; cbn [andb]; try reflexivity;
    destruct (u =? 117)%N; reflexivity.
Qed.

Lemma low_escape_inv :
  forall r2 o,
    low_escape r2 = Some o ->
    exists g1 g2 g3 g4 r4,
      r2 = BACKSLASH_CHAR :: 117%N :: g1 :: g2 :: g3 :: g4 :: r4 /\
      o = _decode_uXXXX g1 g2 g3 g4.
Proof.
  intros r2 o H. unfold low_escape in H.
  destruct r2 as [|b r]; [discriminate|].
  destruct (b =? BACKSLASH_CHAR)%N eqn:Eb; [|discriminate].
  destruct r as [|u r]; [discriminate|].
  destruct (u =? 117)%N eqn:Eu; [|discriminate].
  destruct r as [|g1 [|g2 [|g3 [|g4 r4]]]]; try discriminate.
  injection H as <-. apply N.eqb_eq in Eb, Eu. subst b u.
  now exists g1, g2, g3, g4, r4.
Qed.

Lemma hexval_quote : hexval DQUOTE = None.
Proof. reflexivity. Qed.

Lemma decode_with_quote :
  forall h1 h2 h3 h4,
    h1 = DQUOTE \/ h2 = DQUOTE \/ h3 = DQUOTE \/ h4 = DQUOTE ->
    _decode_uXXXX h1 h2 h3 h4 = None.
Proof.
  intros h1 h2 h3 h4 H. unfold _decode_uXXXX.
  destruct H as [-> | [-> | [-> | ->]]]; rewrite hexval_quote;
    repeat match goal with
    | |- context [match hexval ?h with _ => _ end] => destruct (hexval h)
    end; reflexivity.
Qed.

(** A [\u] escape needs its four characters before the closing quote. *)
Lemma py_scanstring_short_escape :
  forall k rest,
    length k < 4 ->
    py_scanstring (BACKSLASH_CHAR :: 117%N :: k ++ DQUOTE :: rest) = None.
Proof.
  intros k rest Hk.
  destruct k as [|k1 [|k2 [|k3 [|k4 k]]]]; [| | | |cbn [length] in Hk; lia];
    cbn [app];
    destruct rest as [|x1 [|x2 [|x3 rest]]]; try reflexivity;
    rewrite py_scanstring_u, decode_with_quote; auto.
Qed.

(** What [py_scanstring] looks at after a high surrogate lies before the
    closing quote of a string it accepts. *)
Lemma low_escape_stable :
  forall body rest rest' res,
    py_scanstring (body ++ DQUOTE :: rest) = Some res ->
    low_escape (body ++ DQUOTE :: rest') = low_escape (body ++ DQUOTE :: rest) /\
    (low_escape (body ++ DQUOTE :: rest) <> None ->
     skipn 6 (body ++ DQUOTE :: rest') = skipn 6 body ++ DQUOTE :: rest' /\
     skipn 6 (body ++ DQUOTE :: rest) = skipn 6 body ++ DQUOTE :: rest).
Proof.
  intros body rest rest' res H.
  destruct body as [|b body]; [split; [reflexivity | intros E; now elim E]|].
  cbn [app low_escape].
  destruct (b =? BACKSLASH_CHAR)%N eqn:Eb; [|split; [reflexivity | intros E; now elim E]].
  destruct body as [|u body]; [split; [reflexivity | intros E; now elim E]|].
  cbn [app].
  destruct (u =? 117)%N eqn:Eu; [|split; [reflexivity | intros E; now elim E]].
  apply N.eqb_eq in Eb, Eu. subst b u.
  destruct (Nat.ltb (length body) 4) eqn:El.
  { apply Nat.ltb_lt in El. cbn [app] in H.
    rewrite (py_scanstring_short_escape body rest El) in H. discriminate. }
  apply Nat.ltb_ge in El.
  destruct body as [|g1 [|g2 [|g3 [|g4 body]]]]; cbn [length] in El; try lia.
  cbn [app skipn]. split; [reflexivity | intros _; split; reflexivity].
Qed.

Lemma py_scanstring_stable_aux :
  forall n s x rest,
    length s <= n ->
    py_scanstring s = Some (x, rest) ->
    exists body,
      s = body ++ DQUOTE :: rest /\
      forall rest', py_scanstring (body ++ DQUOTE :: rest') = Some (x, rest').
Proof.
  induction n as [|n IH]; intros s x rest Hn H.
  { destruct s; [discriminate | cbn [length] in Hn; lia]. }
  destruct s as [|c r]; [discriminate|]. cbn [length] in Hn.
  destruct (c =? DQUOTE)%N eqn:Eq.
  { cbn [py_scanstring] in H. rewrite Eq in H. injection H as <- <-.
    apply N.eqb_eq in Eq. subst c. exists []. split; [reflexivity|].
    intros rest'. reflexivity. }
  destruct (c =? BACKSLASH_CHAR)%N eqn:Eb.
  2:{ cbn [py_scanstring] in H. rewrite Eq, Eb in H.
      destruct (c <? 32)%N eqn:Ec; [discriminate|].
      apply consc_inv in H as [x' [H ->]].
      apply IH in H as [body [-> Hs]]; [|lia].
      exists (c :: body). split; [reflexivity|].
      intros rest'. cbn [app py_scanstring]. now rewrite Eq, Eb, Ec, Hs. }
  apply N.eqb_eq in Eb. subst c.
  destruct r as [|esc r1]; [discriminate|]. cbn [length] in Hn.
  destruct (esc =? 117)%N eqn:Eu.
  2:{ cbn [py_scanstring] in H. change (BACKSLASH_CHAR =? DQUOTE)%N with false in H.
      rewrite N.eqb_refl, Eu in H.
      destruct (BACKSLASH esc) as [ch|] eqn:Ech; [|discriminate].
      apply consc_inv in H as [x' [H ->]].
      apply IH in H as [body [-> Hs]]; [|lia].
      exists (BACKSLASH_CHAR :: esc :: body). split; [reflexivity|].
      intros rest'. cbn [app py_scanstring].
      change (BACKSLASH_CHAR =? DQUOTE)%N with false.
      now rewrite N.eqb_refl, Eu, Ech, Hs. }
  apply N.eqb_eq in Eu. subst esc.
  destruct r1 as [|h1 [|h2 [|h3 [|h4 r2]]]]; try discriminate.
  cbn [length] in Hn.
  rewrite py_scanstring_ahead in H.
  destruct (_decode_uXXXX h1 h2 h3 h4) as [uni|] eqn:Eh; [|discriminate].
  assert (Hplain :
    forall x', py_scanstring r2 = Some (x', rest) ->
      exists body,
        r2 = body ++ DQUOTE :: rest /\
        (forall rest', py_scanstring (body ++ DQUOTE :: rest') = Some (x', rest')) /\
        (forall rest', low_escape (body ++ DQUOTE :: rest') = low_escape r2)).
  { intros x' E. pose proof E as E'. apply IH in E as [body [-> Hs]]; [|lia].
    exists body. split; [reflexivity|]. split; [exact Hs|].
    intros rest'. now apply (low_escape_stable body rest rest' _ E'). }
  destruct (is_high_surrogate uni) eqn:Ehigh.
  2:{ apply consc_inv in H as [x' [H ->]].
      apply Hplain in H as [body [-> [Hs _]]].
      exists (BACKSLASH_CHAR :: 117%N :: h1 :: h2 :: h3 :: h4 :: body).
      split; [reflexivity|].
      intros rest'. cbn [app]. now rewrite py_scanstring_ahead, Eh, Ehigh, Hs. }
  destruct (low_escape r2) as [[uni2|]|] eqn:El; [|discriminate|].
  - destruct (is_low_surrogate uni2) eqn:Elow.
    + apply low_escape_inv in El as [g1 [g2 [g3 [g4 [r4 [-> Eg]]]]]].
      cbn [skipn] in H. apply consc_inv in H as [x' [H ->]].
      apply IH in H as [body [-> Hs]]; [|cbn [length] in Hn; lia].
      exists (BACKSLASH_CHAR :: 117%N :: h1 :: h2 :: h3 :: h4 ::
              BACKSLASH_CHAR :: 117%N :: g1 :: g2 :: g3 :: g4 :: body).
      split; [reflexivity|].
      intros rest'. cbn [app]. rewrite py_scanstring_ahead, Eh, Ehigh.
      cbn [low_escape]. rewrite !N.eqb_refl, <- Eg, Elow. cbn [skipn].
      now rewrite Hs.
    + apply consc_inv in H as [x' [H ->]].
      apply Hplain in H as [body [-> [Hs Hl]]].
      exists (BACKSLASH_CHAR :: 117%N :: h1 :: h2 :: h3 :: h4 :: body).
      split; [reflexivity|].
      intros rest'. cbn [app].
      now rewrite py_scanstring_ahead, Eh, Ehigh, Hl, Elow, Hs.
  - apply consc_inv in H as [x' [H ->]].
    apply Hplain in H as [body [-> [Hs Hl]]].
    exists (BACKSLASH_CHAR :: 117%N :: h1 :: h2 :: h3 :: h4 :: body).
    split; [reflexivity|].
    intros rest'. cbn [app].
    now rewrite py_scanstring_ahead, Eh, Ehigh, Hl, Hs.
Qed.

(** [py_scanstring] reads a string up to its closing quote, whatever
    follows the quote. *)
Lemma py_scanstring_stable :
  forall s x rest,
    py_scanstring s = Some (x, rest) ->
    exists body,
      s = body ++ DQUOTE :: rest /\
      forall rest', py_scanstring (body ++ DQUOTE :: rest') = Some (x, rest').
Proof. intros s x rest. now apply (py_scanstring_stable_aux (length s)). Qed.

(** *** White space between the tokens *)

Lemma skip_ws_found :
  forall s c r,
    skip_ws s = c :: r ->
    exists ws, all_json_ws ws /\ s = ws ++ c :: r /\ is_json_ws c = false.
Proof.
  induction s as [|x s IH]; intros c r H; [discriminate|].
  cbn [skip_ws] in H. destruct (is_json_ws x) eqn:Ex.
  - destruct (IH _ _ H) as [ws [Hws [-> Hc]]].
    exists (x :: ws). repeat split; [now constructor | exact Hc].
  - injection H as <- <-. exists []. repeat split; [constructor | exact Ex].
Qed.

Lemma skip_to :
  forall ws c r,
    all_json_ws ws -> is_json_ws c = false -> skip_ws (ws ++ c :: r) = c :: r.
Proof.
  intros ws c r Hws Hc. rewrite skip_ws_app by exact Hws.
  cbn [skip_ws]. now rewrite Hc.
Qed.

Lemma json_ws_stops : forall c, is_json_ws c = true -> number_char c = false.
Proof.
  intros c H. unfold is_json_ws in H.
  repeat (apply orb_true_iff in H as [H|H]); apply N.eqb_eq in H; subst c; reflexivity.
Qed.

Lemma stops_after_ws :
  forall ws c r, all_json_ws ws -> number_char c = false -> stops (ws ++ c :: r).
Proof.
  intros ws c r Hws Hc. destruct Hws as [|x ws Hx _]; [exact Hc|].
  cbn [app stops]. now apply json_ws_stops.
Qed.

(** *** Values, members and elements *)

(** A scanning function that reads a value from a prefix of the text: the
    prefix gives the same value before any text that cannot continue a
    number. *)
Definition value_prefix (p : list N -> scan pyval) : Prop :=
  forall s v rest,
    p s = Done v rest ->
    exists body,
      s = body ++ rest /\
      forall rest', stops rest' -> p (body ++ rest') = Done v rest'.

(** A scanning function that reads up to a closing character. *)
Definition closed_prefix {A : Type} (close : N) (p : list N -> scan A) : Prop :=
  forall s a rest,
    p s = Done a rest ->
    exists body,
      s = body ++ close :: rest /\
      forall rest', p (body ++ close :: rest') = Done a rest'.

Lemma JSONObject_stable :
  forall items, closed_prefix 125%N items -> closed_prefix 125%N (JSONObject items).
Proof.
  intros items Hitems s v rest H. unfold JSONObject in H.
  destruct (skip_ws s) as [|c r] eqn:Es; [discriminate|].
  apply skip_ws_found in Es as [ws [Hws [-> Hc]]].
  destruct (c =? 125)%N eqn:E1.
  - injection H as <- <-. apply N.eqb_eq in E1. subst c.
    exists ws. split; [reflexivity|].
    intros rest'. unfold JSONObject. now rewrite skip_to.
  - destruct (c =? DQUOTE)%N eqn:E2; [|discriminate].
    destruct (items r) as [pairs rest0| |] eqn:Ei; try discriminate.
    injection H as <- <-. apply Hitems in Ei as [body [-> Hs]].
    exists (ws ++ c :: body). split; [now rewrite <- app_assoc|].
    intros rest'. unfold JSONObject. rewrite <- app_assoc. cbn [app].
    rewrite skip_to by assumption. now rewrite E1, E2, Hs.
Qed.

Lemma JSONArray_stable :
  forall items, closed_prefix 93%N items -> closed_prefix 93%N (JSONArray items).
Proof.
  intros items Hitems s v rest H. unfold JSONArray in H.
  destruct (skip_ws s) as [|c r] eqn:Es; [discriminate|].
  apply skip_ws_found in Es as [ws [Hws [-> Hc]]].
  destruct (c =? 93)%N eqn:E1.
  - injection H as <- <-. apply N.eqb_eq in E1. subst c.
    exists ws. split; [reflexivity|].
    intros rest'. unfold JSONArray. now rewrite skip_to.
  - destruct (items (c :: r)) as [values rest0| |] eqn:Ei; try discriminate.
    injection H as <- <-. apply Hitems in Ei as [body [Eb Hs]].
    destruct body as [|b body]; cbn [app] in Eb; injection Eb as Ec ->; subst c.
    + discriminate E1.
    + exists (ws ++ b :: body). split; [now rewrite <- app_assoc|].
      intros rest'. unfold JSONArray. rewrite <- app_assoc. cbn [app].
      rewrite skip_to by assumption. rewrite E1.
      change (b :: body ++ 93%N :: rest') with ((b :: body) ++ 93%N :: rest').
      now rewrite Hs.
Qed.

Lemma match_number_head :
  forall c r res,
    match_number (c :: r) = Some res -> ((c =? 45)%N || is_digit c) = true.
Proof.
  intros c r res H. unfold match_number, match_integer in H.
  destruct (c =? 45)%N eqn:Em; [reflexivity|]. cbn [orb].
  destruct (c =? 48)%N eqn:E0.
  - apply N.eqb_eq in E0. now subst c.
  - destruct (is_digit c); [reflexivity | discriminate].
Qed.

(** A character that starts a number starts nothing else. *)
Lemma number_head_only :
  forall c,
    ((c =? 45)%N || is_digit c) = true ->
    (c =? DQUOTE)%N = false /\ (c =? 123)%N = false /\ (c =? 91)%N = false /\
    (c =? 110)%N = false /\ (c =? 116)%N = false /\ (c =? 102)%N = false.
Proof.
  intros c H. unfold is_digit, DQUOTE in *.
  rewrite orb_true_iff, andb_true_iff, N.eqb_eq, !N.leb_le in H.
  repeat split; apply N.eqb_neq; lia.
Qed.

Lemma literal_prefix :
  forall c lit s,
    ((c =? hd 0%N lit)%N && startswith lit s) = true ->
    s = lit ++ skipn (length lit) s.
Proof.
  intros c lit s H. apply andb_true_iff in H as [_ H].
  apply startswith_prefix in H as [r ->].
  f_equal. clear. induction lit as [|x lit IH]; [reflexivity | exact IH].
Qed.

Ltac norm_app := repeat (progress (rewrite <- ?app_assoc; cbn [app])).

(** Every scanning function reads its value from a prefix of the text. *)
Lemma scan_prefix :
  forall fuel,
    value_prefix (scan_once fuel) /\
    closed_prefix 125%N (object_items fuel) /\
    closed_prefix 93%N (array_items fuel).
Proof.
  induction fuel as [|fuel [IHs [IHo IHa]]].
  { repeat split; intros s v rest H; discriminate. }
  split; [|split].
  - intros s v rest H. destruct s as [|c r]; [discriminate|].
    cbn [scan_once] in H.
    destruct (c =? DQUOTE)%N eqn:E1.
    { destruct (py_scanstring r) as [[x rest0]|] eqn:Ex; [|discriminate].
      injection H as <- <-. apply py_scanstring_stable in Ex as [body [-> Hs]].
      exists (c :: body ++ [DQUOTE]). split; [now norm_app|].
      intros rest' _. norm_app. cbn [scan_once]. now rewrite E1, Hs. }
    destruct (c =? 123)%N eqn:E2.
    { apply (JSONObject_stable _ IHo) in H as [body [-> Hs]].
      exists (c :: body ++ [125%N]). split; [now norm_app|].
      intros rest' _. norm_app. cbn [scan_once]. now rewrite E1, E2, Hs. }
    destruct (c =? 91)%N eqn:E3.
    { apply (JSONArray_stable _ IHa) in H as [body [-> Hs]].
      exists (c :: body ++ [93%N]). split; [now norm_app|].
      intros rest' _. norm_app. cbn [scan_once]. now rewrite E1, E2, E3, Hs. }
    destruct ((c =? 110)%N && startswith (str "null") (c :: r)) eqn:E4.
    { injection H as <- <-. pose proof (literal_prefix _ (str "null") _ E4) as E.
      apply andb_true_iff in E4 as [E4 _]. apply N.eqb_eq in E4. subst c.
      exists (str "null"). split; [exact E|]. intros rest' _. reflexivity. }
    destruct ((c =? 116)%N && startswith (str "true") (c :: r)) eqn:E5.
    { injection H as <- <-. pose proof (literal_prefix _ (str "true") _ E5) as E.
      apply andb_true_iff in E5 as [E5 _]. apply N.eqb_eq in E5. subst c.
      exists (str "true"). split; [exact E|]. intros rest' _. reflexivity. }
    destruct ((c =? 102)%N && startswith (str "false") (c :: r)) eqn:E6.
    { injection H as <- <-. pose proof (literal_prefix _ (str "false") _ E6) as E.
      apply andb_true_iff in E6 as [E6 _]. apply N.eqb_eq in E6. subst c.
      exists (str "false"). split; [exact E|]. intros rest' _. reflexivity. }
    destruct (match_number (c :: r)) as [[number rest0]|] eqn:En.
    { injection H as <- <-.
      pose proof (match_number_shorter _ _ _ En) as Hlen.
      pose proof (match_number_head _ _ _ En) as Hhead.
      apply number_head_only in Hhead as [T1 [T2 [T3 [T4 [T5 T6]]]]].
      apply match_number_stable in En as [body [Eb Hs]].
      destruct body as [|b body]; cbn [app] in Eb.
      { rewrite Eb in Hlen. lia. }
      injection Eb as <- ->.
      exists (c :: body). split; [reflexivity|].
      intros rest' Hr. cbn [app scan_once]. rewrite T1, T2, T3, T4, T5, T6.
      cbn [andb].
      change (c :: body ++ rest') with ((c :: body) ++ rest').
      now rewrite (Hs rest' Hr). }
    destruct ((c =? 78)%N && startswith (str "NaN") (c :: r)) eqn:E7.
    { injection H as <- <-. pose proof (literal_prefix _ (str "NaN") _ E7) as E.
      apply andb_true_iff in E7 as [E7 _]. apply N.eqb_eq in E7. subst c.
      exists (str "NaN"). split; [exact E|]. intros rest' _. reflexivity. }
    destruct ((c =? 73)%N && startswith (str "Infinity") (c :: r)) eqn:E8.
    { injection H as <- <-. pose proof (literal_prefix _ (str "Infinity") _ E8) as E.
      apply andb_true_iff in E8 as [E8 _]. apply N.eqb_eq in E8. subst c.
      exists (str "Infinity"). split; [exact E|]. intros rest' _. reflexivity. }
    destruct ((c =? 45)%N && startswith (str "-Infinity") (c :: r)) eqn:E9;
      [|discriminate].
    injection H as <- <-. pose proof (literal_prefix _ (str "-Infinity") _ E9) as E.
    apply andb_true_iff in E9 as [E9 _]. apply N.eqb_eq in E9. subst c.
    exists (str "-Infinity"). split; [exact E|]. intros rest' _. reflexivity.
  - intros s ps rest H. cbn [object_items] in H.
    destruct (py_scanstring s) as [[key r1]|] eqn:Ek; [|discriminate].
    apply py_scanstring_stable in Ek as [bk [-> Hk]].
    destruct (skip_ws r1) as [|c r2] eqn:W1; [discriminate|].
    apply skip_ws_found in W1 as [ws1 [Hws1 [-> Hc]]].
    destruct (c =? 58)%N eqn:Ec; [|discriminate].
    apply N.eqb_eq in Ec. subst c.
    destruct (scan_once fuel (skip_ws r2)) as [value r3| |] eqn:Ev; try discriminate.
    pose proof (proj1 (scan_shorter fuel) _ _ _ Ev) as Hlen.
    apply IHs in Ev as [bv [Ebv Hv]].
    destruct bv as [|b bv]; [cbn [app] in Ebv; rewrite Ebv in Hlen; lia|].
    clear Hlen. cbn [app] in Ebv.
    apply skip_ws_found in Ebv as [ws2 [Hws2 [-> Hb]]].
    destruct (skip_ws r3) as [|c' r4] eqn:W3; [discriminate|].
    apply skip_ws_found in W3 as [ws3 [Hws3 [-> Hc']]].
    destruct (c' =? 125)%N eqn:E125.
    { injection H as <- <-. apply N.eqb_eq in E125. subst c'.
      exists (bk ++ DQUOTE :: ws1 ++ 58%N :: ws2 ++ b :: bv ++ ws3).
      split; [now norm_app|].
      intros rest'. norm_app. cbn [object_items]. rewrite Hk.
      rewrite (skip_to ws1 58%N) by (exact Hws1 || reflexivity).
      rewrite N.eqb_refl, (skip_to ws2 b) by assumption.
      change (b :: bv ++ ws3 ++ 125%N :: rest')
        with ((b :: bv) ++ ws3 ++ 125%N :: rest').
      rewrite Hv by (now apply stops_after_ws).
      rewrite (skip_to ws3 125%N) by (exact Hws3 || reflexivity).
      now rewrite N.eqb_refl. }
    destruct (c' =? 44)%N eqn:E44; [|discriminate].
    apply N.eqb_eq in E44. subst c'.
    destruct (skip_ws r4) as [|q r5] eqn:W4; [discriminate|].
    apply skip_ws_found in W4 as [ws4 [Hws4 [-> Hq]]].
    destruct (q =? DQUOTE)%N eqn:Eq; [|discriminate].
    apply N.eqb_eq in Eq. subst q.
    destruct (object_items fuel r5) as [pairs rest0| |] eqn:Ei; try discriminate.
    injection H as <- <-. apply IHo in Ei as [bi [-> Hi]].
    exists (bk ++ DQUOTE :: ws1 ++ 58%N :: ws2 ++ b :: bv ++ ws3
               ++ 44%N :: ws4 ++ DQUOTE :: bi).
    split; [now norm_app|].
    intros rest'. norm_app. cbn [object_items]. rewrite Hk.
    rewrite (skip_to ws1 58%N) by (exact Hws1 || reflexivity).
    rewrite N.eqb_refl, (skip_to ws2 b) by assumption.
    change (b :: bv ++ ws3 ++ 44%N :: ws4 ++ DQUOTE :: bi ++ 125%N :: rest')
      with ((b :: bv) ++ ws3 ++ 44%N :: ws4 ++ DQUOTE :: bi ++ 125%N :: rest').
    rewrite Hv by (now apply stops_after_ws).
    rewrite (skip_to ws3 44%N) by (exact Hws3 || reflexivity).
    change (44 =? 125)%N with false. rewrite N.eqb_refl.
    rewrite (skip_to ws4 DQUOTE) by (exact Hws4 || reflexivity).
    now rewrite N.eqb_refl, Hi.
  - intros s vs rest H. cbn [array_items] in H.
    destruct (scan_once fuel s) as [value r1| |] eqn:Ev; try discriminate.
    apply IHs in Ev as [bv [-> Hv]].
    destruct (skip_ws r1) as [|c r2] eqn:W1; [discriminate|].
    apply skip_ws_found in W1 as [ws1 [Hws1 [-> Hc]]].
    destruct (c =? 93)%N eqn:E93.
    { injection H as <- <-. apply N.eqb_eq in E93. subst c.
      exists (bv ++ ws1). split; [now norm_app|].
      intros rest'. norm_app. cbn [array_items].
      rewrite Hv by (now apply stops_after_ws).
      rewrite (skip_to ws1 93%N) by (exact Hws1 || reflexivity).
      now rewrite N.eqb_refl. }
    destruct (c =? 44)%N eqn:E44; [|discriminate].
    apply N.eqb_eq in E44. subst c.
    destruct (array_items fuel (skip_ws r2)) as [values rest0| |] eqn:Ei;
      try discriminate.
    injection H as <- <-. apply IHa in Ei as [bi [Ebi Hi]].
    destruct (skip_ws_split r2) as [ws2 [Hws2 E2]]. rewrite Ebi in E2. subst r2.
    assert (Hskip : forall rest', skip_ws (ws2 ++ bi ++ 93%N :: rest')
                                  = bi ++ 93%N :: rest').
    { intros rest'. destruct bi as [|x bi]; cbn [app] in *.
      - apply skip_to; [exact Hws2 | reflexivity].
      - apply skip_ws_found in Ebi as [_ [_ [_ Hx]]]. now apply skip_to. }
    exists (bv ++ ws1 ++ 44%N :: ws2 ++ bi). split; [now norm_app|].
    intros rest'. norm_app. cbn [array_items].
    rewrite Hv by (now apply stops_after_ws).
    rewrite (skip_to ws1 44%N) by (exact Hws1 || reflexivity).
    change (44 =? 93)%N with false. rewrite N.eqb_refl.
    now rewrite Hskip, Hi.
Qed.

(** *** More fuel changes nothing *)

Ltac break_scan H IHs IHo IHa :=
  repeat (first
    [ discriminate
    | match type of H with
      | context [match scan_once ?f ?x with _ => _ end] =>
          let E := fresh "E" in
          destruct (scan_once f x) eqn:E;
          [ rewrite (IHs _ _ E) by discriminate
          | rewrite (IHs _ _ E) by discriminate
          | ]
      | context [match object_items ?f ?x with _ => _ end] =>
          let E := fresh "E" in
          destruct (object_items f x) eqn:E;
          [ rewrite (IHo _ _ E) by discriminate
          | rewrite (IHo _ _ E) by discriminate
          | ]
      | context [match array_items ?f ?x with _ => _ end] =>
          let E := fresh "E" in
          destruct (array_items f x) eqn:E;
          [ rewrite (IHa _ _ E) by discriminate
          | rewrite (IHa _ _ E) by discriminate
          | ]
      end
    | break_in H ]).

Lemma scan_fuel_step :
  forall fuel,
    (forall s r, scan_once fuel s = r -> r <> Exhausted -> scan_once (S fuel) s = r) /\
    (forall s r, object_items fuel s = r -> r <> Exhausted ->
                 object_items (S fuel) s = r) /\
    (forall s r, array_items fuel s = r -> r <> Exhausted ->
                 array_items (S fuel) s = r).
Proof.
  induction fuel as [|fuel [IHs [IHo IHa]]].
  { repeat split; intros s r H Hr; subst r; now elim Hr. }
  remember (S fuel) as fuel' eqn:Ef.
  split; [|split]; intros s r H Hr; rewrite Ef in H; clear Ef.
  - cbn [scan_once] in H |- *. unfold JSONObject, JSONArray in *.
    break_scan H IHs IHo IHa; try (subst r; now elim Hr); exact H.
  - cbn [object_items] in H |- *.
    break_scan H IHs IHo IHa; try (subst r; now elim Hr); exact H.
  - cbn [array_items] in H |- *.
    break_scan H IHs IHo IHa; try (subst r; now elim Hr); exact H.
Qed.

Lemma scan_fuel_more :
  forall fuel fuel' s v rest,
    fuel <= fuel' -> scan_once fuel s = Done v rest -> scan_once fuel' s = Done v rest.
Proof.
  intros fuel fuel' s v rest Hle H. induction Hle as [|m _ IH]; [exact H|].
  now apply (proj1 (scan_fuel_step m)).
Qed.

(** The result does not depend on the fuel, once there is enough of it. *)
Lemma scan_fuel_enough :
  forall fuel fuel' s v rest,
    2 * length s + 1 <= fuel' ->
    scan_once fuel s = Done v rest -> scan_once fuel' s = Done v rest.
Proof.
  intros fuel fuel' s v rest Hf H.
  destruct (Nat.le_ge_cases fuel fuel') as [Hle|Hge].
  - now apply (scan_fuel_more fuel).
  - destruct (scan_once fuel' s) as [v' rest'| |] eqn:E.
    + apply (scan_fuel_more fuel' fuel) in E; [|exact Hge]. congruence.
    + pose proof (proj1 (scan_fuel_step fuel')) as Hstep.
      assert (Hinv : forall m, fuel' <= m -> scan_once m s = Invalid).
      { intros m Hm. induction Hm as [|m _ IH]; [exact E|].
        now apply (proj1 (scan_fuel_step m)). }
      rewrite (Hinv fuel Hge) in H. discriminate.
    + now apply (proj1 (scan_has_fuel fuel')) in E.
Qed.

(** *** A JSON object, with white space around it *)









(** The text of the scenario of the specification: an object followed by
    a newline. *)
Definition summary_ok : list N := [123; 34; 83; 117; 109; 109; 97; 114; 121; 34; 58; 32;
                                   34; 111; 107; 34; 125; 10]%N.


(** The scenario, run: the fenced response of document A. *)
Example fenced_scenario :
  _parse_json_response (fenced (str "json") summary_ok)
  = inr [(str "Summary", PyStr (str "ok"))] /\
  _parse_json_response (str "not json")
  = inr [(str "Raw Response", PyStr (str "not json"))].
Proof. split; reflexivity. Qed.

(* ================================================================== *)
(** * Further properties of the code *)
(* ================================================================== *)

(** ** gemini_client.py: settings outside the range of the sliders *)

Lemma range_nonpositive : forall n, (n <= 0)%Z -> range n = [].
Proof.
  intros n H. unfold range. replace (Z.to_nat n) with 0 by lia. reflexivity.
Qed.

Lemma no_attempts_no_call :
  forall env self file prompt w,
    (max_retries self < 0)%Z ->
    _generate_content_with_retry env self file prompt w = (inr None, w).
Proof.
  intros env self file prompt w H. unfold _generate_content_with_retry.
  rewrite range_nonpositive by lia. reflexivity.
Qed.

Definition is_generate (e : event) : bool :=
  match e with EvGenerate _ _ _ _ => true | _ => false end.

(** X1.  With a negative [max_retries] the loop of
    [_generate_content_with_retry] has no turn: the function returns
    [None] without calling the service.  [analyze_pdf] then never
    succeeds and never asks for a generation; when the document was
    staged and uploaded, the reason it gives is that [None] has no
    [strip]. *)
Theorem negative_max_retries_never_generates :
  forall (env : Environment) (self : GeminiPDFAnalyzer) (pdf_bytes : bytes)
         (filename prompt : pystr) (w : World),
    (max_retries self < 0)%Z ->
    (forall file, _generate_content_with_retry env self file prompt w = (inr None, w)) /\
    (exists reason,
       fst (analyze_pdf env self pdf_bytes filename prompt w) = (false, [], Some reason)) /\
    filter is_generate (history (snd (analyze_pdf env self pdf_bytes filename prompt w)))
      = filter is_generate (history w) /\
    (forall path file,
       fst (_write_temp_pdf env pdf_bytes filename w) = inr path ->
       fst (_upload_file env path (snd (_write_temp_pdf env pdf_bytes filename w)))
         = inr file ->
       fst (analyze_pdf env self pdf_bytes filename prompt w) =
         (false, [],
          Some (str "Error analyzing " ++ filename ++ str ": "
                ++ str "'NoneType' object has no attribute 'strip'"))).
Proof.
  intros env self pdf_bytes filename prompt w Hneg.
  split; [intros file; now apply no_attempts_no_call|].
  unfold analyze_pdf, analyze_try.
  destruct (_write_temp_pdf env pdf_bytes filename w) as [[e|path] w1] eqn:Ew.
  { assert (Hh : filter is_generate (history w1) = filter is_generate (history w)).
    { revert Ew. unfold _write_temp_pdf, bind, NamedTemporaryFile, file_write, ret.
      destruct (env_create_temp env (history w)) as [e'|stem].
      - intros H. injection H as _ <-. reflexivity.
      - cbn [history]. destruct (env_write_temp env _ _ pdf_bytes) as [e'|].
        + intros H. injection H as _ <-. reflexivity.
        + intros H. discriminate. }
    cbn [cleanup fst snd]. split; [eexists; reflexivity|].
    split; [exact Hh|]. intros path file H. discriminate. }
  assert (Hh : filter is_generate (history w1) = filter is_generate (history w)).
  { revert Ew. unfold _write_temp_pdf, bind, NamedTemporaryFile, file_write, ret.
    destruct (env_create_temp env (history w)) as [e'|stem]; [discriminate|].
    cbn [history]. destruct (env_write_temp env _ _ pdf_bytes) as [e'|];
      [discriminate|].
    intros H. injection H as _ <-. reflexivity. }
  unfold _upload_file, files_upload. cbn [fst snd].
  destruct (env_upload env (history w1) path) as [e|file] eqn:Eu.
  - cbn [cleanup fst snd]. split; [eexists; reflexivity|]. split.
    + destruct (truthy path && os_path_exists path _); [|exact Hh].
      unfold os_remove. cbn [snd history filter is_generate]. exact Hh.
    + intros path' file' H1 H2. injection H1 as <-. rewrite Eu in H2. discriminate H2.
  - unfold analyze_uploaded, bind. rewrite no_attempts_no_call by exact Hneg.
    cbn [raise cleanup fst snd]. split; [eexists; reflexivity|]. split.
    + unfold files_delete. cbn [snd].
      destruct (truthy path && os_path_exists path _);
        unfold os_remove; cbn [snd history filter is_generate]; exact Hh.
    + intros path' file' _ _. reflexivity.
Qed.

Definition no_retry_analyzer : GeminiPDFAnalyzer :=
  mkAnalyzer (str "gemini-2.5-flash") (-1) 0%Q.

Lemma negative_max_retries_never_generates_witness :
  (max_retries no_retry_analyzer < 0)%Z /\
  (forall file,
     _generate_content_with_retry flaky_env no_retry_analyzer file (str "P") empty_world
     = (inr None, empty_world)) /\
  (exists reason,
     fst (analyze_pdf flaky_env no_retry_analyzer [] (str "a.pdf") (str "P") empty_world)
     = (false, [], Some reason)) /\
  filter is_generate
    (history (snd (analyze_pdf flaky_env no_retry_analyzer [] (str "a.pdf") (str "P")
                     empty_world)))
    = filter is_generate (history empty_world) /\
  (forall path file,
     fst (_write_temp_pdf flaky_env [] (str "a.pdf") empty_world) = inr path ->
     fst (_upload_file flaky_env path
            (snd (_write_temp_pdf flaky_env [] (str "a.pdf") empty_world))) = inr file ->
     fst (analyze_pdf flaky_env no_retry_analyzer [] (str "a.pdf") (str "P") empty_world)
     = (false, [],
        Some (str "Error analyzing " ++ str "a.pdf" ++ str ": "
              ++ str "'NoneType' object has no attribute 'strip'"))).
Proof.
  split; [reflexivity|].
  apply (negative_max_retries_never_generates flaky_env no_retry_analyzer []
           (str "a.pdf") (str "P") empty_world).
  reflexivity.
Defined.






(** ** gemini_client.py: the time spent waiting between attempts *)

Definition total_wait (trace : list event) : Q :=
  fold_right Qplus 0%Q (waits trace).

Lemma backoff_sum :
  forall len i,
    (fold_right Qplus 0 (map (fun k => backoff (i + Z.of_nat k)) (seq 0 len))
     == inject_Z (Z.of_nat len * (2 * i + Z.of_nat len + 1)))%Q.
Proof.
  induction len as [|len IH]; intros i.
  - reflexivity.
  - cbn [seq map fold_right]. rewrite <- seq_shift, map_map.
    assert (E : map (fun k => backoff (i + Z.of_nat (S k))) (seq 0 len)
                = map (fun k => backoff ((i + 1) + Z.of_nat k)) (seq 0 len)).
    { apply map_ext. intros k. f_equal. lia. }
    rewrite E, IH. unfold backoff. rewrite <- inject_Z_plus.
    replace ((i + Z.of_nat 0 + 1) * 2 + Z.of_nat len * (2 * (i + 1) + Z.of_nat len + 1))%Z
      with (Z.of_nat (S len) * (2 * i + Z.of_nat (S len) + 1))%Z by lia.
    reflexivity.
Qed.

(** X3.  With [max_retries = n] (n not negative) the time
    [_generate_content_with_retry] spends waiting between attempts is at
    most n*(n+1) seconds; it is exactly that when every attempt fails and
    the exception of the last one is raised. *)
Theorem retry_wait_is_bounded :
  forall (env : Environment) (self : GeminiPDFAnalyzer) (file : remote_file)
         (prompt : pystr) (w : World),
    (0 <= max_retries self)%Z ->
    exists new : list event,
      history (snd (_generate_content_with_retry env self file prompt w))
        = rev new ++ history w /\
      (total_wait new <= inject_Z (max_retries self * (max_retries self + 1)))%Q /\
      (forall e,
         fst (_generate_content_with_retry env self file prompt w) = inl e ->
         (total_wait new == inject_Z (max_retries self * (max_retries self + 1)))%Q).
Proof.
  intros env self file prompt w Hn.
  unfold _generate_content_with_retry. rewrite range_seq by exact Hn.
  destruct (retry_loop_trace env self file prompt (S (Z.to_nat (max_retries self))) 0 w)
    as [failed [last [_ [Hh [_ [_ [_ [Hlen Hres]]]]]]]]; [lia | lia |].
  exists (retry_trace (model self) file prompt 0 (failed ++ [last])).
  split; [exact Hh|].
  assert (Hsum : (total_wait (retry_trace (model self) file prompt 0 (failed ++ [last]))
                  == inject_Z (Z.of_nat (length failed) * (Z.of_nat (length failed) + 1)))%Q).
  { unfold total_wait. rewrite retry_trace_waits.
    change (Z.of_nat 0) with 0%Z. rewrite backoff_sum.
    replace (Z.of_nat (length failed) * (2 * 0 + Z.of_nat (length failed) + 1))%Z
      with (Z.of_nat (length failed) * (Z.of_nat (length failed) + 1))%Z by lia.
    reflexivity. }
  split.
  - rewrite Hsum. rewrite <- Zle_Qle. nia.
  - intros e He. rewrite Hsum.
    destruct (attempt_result last) as [e'|text].
    + destruct Hres as [Hm _].
      replace (Z.of_nat (length failed)) with (max_retries self) by lia.
      reflexivity.
    + rewrite Hres in He. discriminate.
Qed.

Lemma retry_wait_is_bounded_witness :
  (0 <= max_retries flaky_analyzer)%Z /\
  exists new : list event,
    history (snd (_generate_content_with_retry flaky_env flaky_analyzer
                    (mkRemoteFile (str "files/abc")) (str "P") empty_world))
      = rev new ++ history empty_world /\
    (total_wait new
     <= inject_Z (max_retries flaky_analyzer * (max_retries flaky_analyzer + 1)))%Q /\
    (forall e,
       fst (_generate_content_with_retry flaky_env flaky_analyzer
              (mkRemoteFile (str "files/abc")) (str "P") empty_world) = inl e ->
       (total_wait new
        == inject_Z (max_retries flaky_analyzer * (max_retries flaky_analyzer + 1)))%Q).
Proof.
  split; [simpl; lia|].
  apply (retry_wait_is_bounded flaky_env flaky_analyzer
           (mkRemoteFile (str "files/abc")) (str "P") empty_world).
  simpl; lia.
Defined.

(** ** gemini_client.py: what [_parse_json_response] does with other texts *)

Lemma not_space_not_newline : forall c, is_space c = false -> (c =? LF)%N = false.
Proof.
  intros c H. destruct (c =? LF)%N eqn:E; [|reflexivity].
  apply N.eqb_eq in E. subst c. discriminate.
Qed.

(** The pattern does not match a fence whose tag starts with a character
    that is neither white space nor the j of [json]. *)
Lemma json_pattern_other_tag :
  forall c s,
    is_space c = false -> (c =? 106)%N = false ->
    re_match json_pattern (BACKTICK :: BACKTICK :: BACKTICK :: c :: s) = None.
Proof.
  intros c s Hs Hj. rewrite json_pattern_after_ticks.
  change (str "json") with [106; 115; 111; 110]%N. cbn [Lit rmatch].
  rewrite Hj. unfold after_ticks. cbn [star_greedy]. rewrite Hs.
  apply fence_body_elsewhere. now apply not_space_not_newline.
Qed.

(** X4.  Only the tag [json], in small letters, is understood: a fenced
    block whose tag starts with any other character that is not white
    space (python, JSON, ...) is not unwrapped, and the whole response,
    fence included, comes back under the key "Raw Response". *)
Theorem parse_json_response_keeps_other_fences :
  forall (c : N) (tag t : list N),
    is_space c = false -> c <> 106%N ->
    _parse_json_response (fenced (c :: tag) t)
    = inr [(str "Raw Response", PyStr (fenced (c :: tag) t))].
Proof.
  intros c tag t Hs Hj. apply N.eqb_neq in Hj.
  unfold _parse_json_response, cleaned_text.
  rewrite fenced_shape, strip_fenced. cbn [app].
  rewrite json_pattern_other_tag by assumption.
  now rewrite loads_backtick.
Qed.

Lemma parse_json_response_keeps_other_fences_witness :
  is_space 74 = false /\ 74%N <> 106%N /\
  _parse_json_response (fenced (74%N :: str "SON") (str "{}"))
  = inr [(str "Raw Response", PyStr (fenced (74%N :: str "SON") (str "{}")))].
Proof.
  split; [reflexivity|]. split; [discriminate|].
  apply (parse_json_response_keeps_other_fences 74 (str "SON") (str "{}"));
    [reflexivity | discriminate].
Defined.







(** ** excel_export.py: the keys of an exported row *)

Lemma format_row_keys :
  forall filename result_dict column_names k,
    dict_get k (format_row filename result_dict column_names) = None <->
    k <> str "Document Name" /\ ~ In k column_names.
Proof.
  intros filename result_dict column_names k. unfold format_row.
  rewrite format_row_fold_get. cbn [dict_get].
  destruct (str_eqb k (str "Document Name")) eqn:Ek.
  - rewrite andb_false_r. apply str_eqb_eq in Ek. split; [discriminate|].
    intros [H _]. contradiction.
  - rewrite andb_true_r. apply str_eqb_neq in Ek.
    destruct (str_in k column_names) eqn:Ein.
    + apply str_in_In in Ein. split; [discriminate|]. intros [_ H]. contradiction.
    + split; [|reflexivity]. intros _. split; [exact Ek|].
      intros Hin. apply str_in_In in Hin. congruence.
Qed.

(** X7.  [format_results_for_export] pairs the file names with the
    results: it makes as many rows as the shorter of the two lists has
    entries, and drops the rest without an error.  A row has a value for
    "Document Name" and for every declared column and for nothing else:
    a key of the response that is not a declared column is never
    exported. *)
Theorem format_results_for_export_declared_keys_only :
  forall (results : list dict) (filenames column_names : list pystr),
    length (format_results_for_export results filenames column_names)
      = Nat.min (length filenames) (length results) /\
    (forall row k,
       In row (format_results_for_export results filenames column_names) ->
       (dict_get k row = None <-> k <> str "Document Name" /\ ~ In k column_names)).
Proof.
  intros results filenames column_names. unfold format_results_for_export. split.
  - now rewrite length_map, length_combine.
  - intros row k Hin. apply in_map_iff in Hin as [[filename result_dict] [<- _]].
    apply format_row_keys.
Qed.

(** ** app.py and excel_export.py: from the batch to the export *)

Lemma analyze_pdfs_lists :
  forall env pdf_files analyzer prompt_text column_names w,
    length (results (fst (analyze_pdfs env pdf_files analyzer prompt_text column_names w)))
      = length pdf_files /\
    filenames (fst (analyze_pdfs env pdf_files analyzer prompt_text column_names w))
      = map pdf_filename pdf_files.
Proof.
  intros env pdf_files analyzer prompt_text column_names w. unfold analyze_pdfs.
  pose proof (analyze_loop_outcomes env analyzer
                (build_analysis_prompt prompt_text column_names)
                (length pdf_files) pdf_files 0 (mkSession [] [] []) w
                eq_refl eq_refl) as H.
  cbv zeta in H.
  destruct (analyze_loop env analyzer (build_analysis_prompt prompt_text column_names)
              (length pdf_files) 0 pdf_files (mkSession [] [] []) w) as [st w1].
  cbn [fst filenames app] in *. destruct H as [Hf [Hlr _]].
  rewrite Hlr, Hf, length_map. split; reflexivity.
Qed.

(** X8.  What [analyze_pdfs] leaves in the session is what
    [format_results_for_export] needs: the export of a batch has exactly
    one row per document, in the order of the documents, and the row of a
    document carries its file name under "Document Name", whether its
    analysis succeeded or failed. *)
Theorem export_has_one_row_per_document :
  forall (env : Environment) (pdf_files : list pdf_file)
         (analyzer : GeminiPDFAnalyzer) (prompt_text : pystr)
         (column_names : list pystr) (w : World),
    let final := fst (analyze_pdfs env pdf_files analyzer prompt_text column_names w) in
    let rows := format_results_for_export (results final) (filenames final) column_names in
    length rows = length pdf_files /\
    (forall i f, nth_error pdf_files i = Some f ->
       exists row,
         nth_error rows i = Some row /\
         dict_get (str "Document Name") row = Some (PyStr (pdf_filename f))).
Proof.
  intros env pdf_files analyzer prompt_text column_names w. cbv zeta.
  destruct (analyze_pdfs_lists env pdf_files analyzer prompt_text column_names w)
    as [Hlen Hnames].
  set (final := fst (analyze_pdfs env pdf_files analyzer prompt_text column_names w))
    in *.
  unfold format_results_for_export. split.
  - rewrite length_map, length_combine, Hnames, Hlen, length_map. lia.
  - intros i f Hi.
    assert (Hname : nth_error (filenames final) i = Some (pdf_filename f)).
    { rewrite Hnames. now apply map_nth_error. }
    destruct (nth_error (results final) i) as [result_dict|] eqn:Er.
    + exists (format_row (pdf_filename f) result_dict column_names).
      split; [|apply format_row_identity].
      pose proof (nth_error_zip _ _ _ _ _ Hname Er) as Hz.
      apply (map_nth_error (fun fr => format_row (fst fr) (snd fr) column_names)) in Hz.
      exact Hz.
    + apply nth_error_None in Er.
      assert (i < length pdf_files) by (apply nth_error_Some; congruence). lia.
Qed.

(** ** app.py: what the batch asks of the service *)

(** A generation call is made with this model and this prompt. *)
Definition asks (m p : pystr) (e : event) : Prop :=
  match e with
  | EvGenerate m' _ p' _ => m' = m /\ p' = p
  | _ => True
  end.

(** A step that only adds calls of a given kind. *)
Definition only_adds (P : event -> Prop) (w w' : World) : Prop :=
  exists new, history w' = new ++ history w /\ Forall P new.

Lemma only_adds_refl : forall P w, only_adds P w w.
Proof. intros P w. exists []. split; [reflexivity | constructor]. Qed.

Lemma only_adds_trans :
  forall P w1 w2 w3, only_adds P w1 w2 -> only_adds P w2 w3 -> only_adds P w1 w3.
Proof.
  intros P w1 w2 w3 [n1 [H1 Q1]] [n2 [H2 Q2]].
  exists (n2 ++ n1). rewrite H2, H1, app_assoc. split; [reflexivity|].
  apply Forall_app. now split.
Qed.

Lemma only_adds_one :
  forall (P : event -> Prop) e w w',
    P e -> history w' = e :: history w -> only_adds P w w'.
Proof.
  intros P e w w' He Hh. exists [e]. split; [exact Hh | now constructor].
Qed.

Lemma time_sleep_adds :
  forall m p seconds w, only_adds (asks m p) w (snd (time_sleep seconds w)).
Proof.
  intros m p seconds w. unfold time_sleep. destruct (Qle_bool 0 seconds); cbn [snd].
  - now apply (only_adds_one _ (EvSleep seconds)).
  - apply only_adds_refl.
Qed.

Lemma generate_attempt_adds :
  forall env self file prompt w,
    only_adds (asks (model self) prompt) w (snd (generate_attempt env self file prompt w)).
Proof.
  intros. rewrite generate_attempt_run. cbn [snd].
  eapply only_adds_one; [|reflexivity]. now split.
Qed.

Lemma retry_loop_adds :
  forall env self file prompt attempts w,
    only_adds (asks (model self) prompt) w
      (snd (retry_loop env self file prompt attempts w)).
Proof.
  intros env self file prompt. induction attempts as [|attempt rest IH]; intros w.
  - apply only_adds_refl.
  - cbn [retry_loop].
    pose proof (generate_attempt_adds env self file prompt w) as Hg.
    destruct (generate_attempt env self file prompt w) as [[e|text] w1]; cbn [snd] in *;
      [|exact Hg].
    destruct (attempt <? max_retries self)%Z; cbn [snd]; [|exact Hg].
    cbv zeta. unfold bind.
    pose proof (time_sleep_adds (model self) prompt (inject_Z ((attempt + 1) * 2)) w1)
      as Hs.
    destruct (time_sleep (inject_Z ((attempt + 1) * 2)) w1) as [[e'|u] w2];
      cbn [snd] in *.
    + eapply only_adds_trans; eassumption.
    + eapply only_adds_trans; [exact Hg|].
      eapply only_adds_trans; [exact Hs | apply IH].
Qed.

Lemma analyze_uploaded_adds :
  forall env self file prompt w,
    only_adds (asks (model self) prompt) w
      (snd (analyze_uploaded env self file prompt w)).
Proof.
  intros env self file prompt w.
  unfold analyze_uploaded, bind, _generate_content_with_retry.
  pose proof (retry_loop_adds env self file prompt (range (max_retries self + 1)) w)
    as Hr.
  destruct (retry_loop env self file prompt (range (max_retries self + 1)) w)
    as [[e|response_text] w1]; cbn [snd] in *; [exact Hr|].
  pose proof (time_sleep_adds (model self) prompt (api_delay self) w1) as Hs.
  destruct response_text as [text|]; [|exact Hr].
  destruct (_parse_json_response text) as [e|d]; cbn [raise ret snd]; [exact Hr|].
  destruct (time_sleep (api_delay self) w1) as [[e|u] w2]; cbn [snd] in *;
    eapply only_adds_trans; eassumption.
Qed.

Lemma cleanup_adds :
  forall env m p uploaded_file temp_file_path w,
    only_adds (asks m p) w (cleanup env uploaded_file temp_file_path w).
Proof.
  intros env m p uploaded_file temp_file_path w. unfold cleanup.
  assert (H1 : only_adds (asks m p) w
                 (match uploaded_file with
                  | Some f => snd (files_delete env (file_name f) w)
                  | None => w
                  end)).
  { destruct uploaded_file as [f|]; [|apply only_adds_refl].
    eapply only_adds_one; [|reflexivity]. exact I. }
  set (w1 := match uploaded_file with
             | Some f => snd (files_delete env (file_name f) w)
             | None => w
             end) in *.
  destruct temp_file_path as [path|]; [|exact H1].
  destruct (truthy path && os_path_exists path w1); [|exact H1].
  eapply only_adds_trans; [exact H1|].
  eapply only_adds_one; [|reflexivity]. exact I.
Qed.

Lemma write_temp_pdf_adds :
  forall env m p pdf_bytes filename w,
    only_adds (asks m p) w (snd (_write_temp_pdf env pdf_bytes filename w)).
Proof.
  intros env m p pdf_bytes filename w.
  unfold _write_temp_pdf, bind, NamedTemporaryFile, file_write, ret.
  destruct (env_create_temp env (history w)) as [e|stem]; cbn [snd].
  - eapply only_adds_one; [|reflexivity]. exact I.
  - cbn [history].
    destruct (env_write_temp env _ _ pdf_bytes) as [e|]; cbn [snd];
      (eapply only_adds_trans; [|eapply only_adds_one; [|reflexivity]; exact I]);
      (eapply only_adds_one; [|reflexivity]; exact I).
Qed.

Lemma analyze_pdf_adds :
  forall env self pdf_bytes filename prompt w,
    only_adds (asks (model self) prompt) w
      (snd (analyze_pdf env self pdf_bytes filename prompt w)).
Proof.
  intros env self pdf_bytes filename prompt w. unfold analyze_pdf, analyze_try.
  pose proof (write_temp_pdf_adds env (model self) prompt pdf_bytes filename w) as Hw.
  destruct (_write_temp_pdf env pdf_bytes filename w) as [[e|path] w1]; cbn [snd] in *.
  { eapply only_adds_trans; [exact Hw | apply cleanup_adds]. }
  assert (Hu : only_adds (asks (model self) prompt) w1
                 (snd (_upload_file env path w1))).
  { unfold _upload_file, files_upload. cbn [snd].
    eapply only_adds_one; [|reflexivity]. exact I. }
  destruct (_upload_file env path w1) as [[e|file] w2]; cbn [snd] in *.
  { eapply only_adds_trans; [exact Hw|].
    eapply only_adds_trans; [exact Hu | apply cleanup_adds]. }
  pose proof (analyze_uploaded_adds env self file prompt w2) as Ha.
  destruct (analyze_uploaded env self file prompt w2) as [outcome w3]; cbn [snd] in *.
  eapply only_adds_trans; [exact Hw|].
  eapply only_adds_trans; [exact Hu|].
  eapply only_adds_trans; [exact Ha | apply cleanup_adds].
Qed.

Lemma analyze_loop_adds :
  forall env analyzer full_prompt total pdf_files idx st w,
    only_adds (asks (model analyzer) full_prompt) w
      (snd (analyze_loop env analyzer full_prompt total idx pdf_files st w)).
Proof.
  intros env analyzer full_prompt total.
  induction pdf_files as [|[[file_path filename] pdf_bytes] rest IH]; intros idx st w.
  - apply only_adds_refl.
  - cbn [analyze_loop].
    pose proof (analyze_pdf_adds env analyzer pdf_bytes filename full_prompt
                  (record_event (EvProgress idx total) w)) as Ha.
    destruct (analyze_pdf env analyzer pdf_bytes filename full_prompt
                (record_event (EvProgress idx total) w)) as [a w1]; cbn [snd] in *.
    eapply only_adds_trans; [|apply IH].
    eapply only_adds_trans; [|exact Ha].
    eapply only_adds_one; [|reflexivity]. exact I.
Qed.

(** X9.  [analyze_pdfs] compiles the prompt once: every generation call
    of the batch, for every document and every attempt, is made with the
    model of the analyzer and with
    [build_analysis_prompt(prompt_text, column_names)]. *)
Theorem analyze_pdfs_asks_one_prompt :
  forall (env : Environment) (pdf_files : list pdf_file)
         (analyzer : GeminiPDFAnalyzer) (prompt_text : pystr)
         (column_names : list pystr) (w : World),
    exists new : list event,
      history (snd (analyze_pdfs env pdf_files analyzer prompt_text column_names w))
        = new ++ history w /\
      (forall m file p outcome,
         In (EvGenerate m file p outcome) new ->
         m = model analyzer /\ p = build_analysis_prompt prompt_text column_names).
Proof.
  intros env pdf_files analyzer prompt_text column_names w. unfold analyze_pdfs.
  pose proof (analyze_loop_adds env analyzer
                (build_analysis_prompt prompt_text column_names)
                (length pdf_files) pdf_files 0 (mkSession [] [] []) w) as [new [Hh Hall]].
  destruct (analyze_loop env analyzer (build_analysis_prompt prompt_text column_names)
              (length pdf_files) 0 pdf_files (mkSession [] [] []) w) as [st w1].
  cbn [snd] in *.
  exists (EvProgress (length pdf_files) (length pdf_files) :: new). split.
  - cbn [record_event history app]. now rewrite Hh.
  - intros m file p outcome [H|Hin]; [discriminate|].
    rewrite Forall_forall in Hall. exact (Hall _ Hin).
Qed.

(** ** app.py: the list of columns *)

Lemma rstrip_split : forall s, exists w, all_space w /\ s = rstrip s ++ w.
Proof.
  intros s. destruct (lstrip_split (rev s)) as [w [Hw Hs]].
  exists (rev w). split; [now apply Forall_rev|].
  unfold rstrip. rewrite <- rev_app_distr, <- Hs. now rewrite rev_involutive.
Qed.

Lemma rstrip_ends :
  forall s, rstrip s = [] \/ exists m x, rstrip s = m ++ [x] /\ is_space x = false.
Proof.
  intros s. unfold rstrip. destruct (lstrip (rev s)) as [|c u] eqn:E.
  - now left.
  - right. exists (rev u), c. split; [reflexivity|]. exact (lstrip_head _ _ _ E).
Qed.

Lemma rstrip_fixed : forall s, rstrip (rstrip s) = rstrip s.
Proof.
  intros s. destruct (rstrip_ends s) as [->|[m [x [-> Hx]]]]; [reflexivity|].
  now apply rstrip_nonspace.
Qed.

(** [strip] leaves a trimmed text as it is. *)
Lemma strip_fixed : forall s, strip (strip s) = strip s.
Proof.
  intros s. unfold strip. destruct (lstrip s) as [|c u] eqn:El; [reflexivity|].
  pose proof (lstrip_head _ _ _ El) as Hc.
  destruct (rstrip_split (c :: u)) as [w [Hw Hs]].
  destruct (rstrip (c :: u)) as [|c' r] eqn:Er.
  - cbn [app] in Hs. subst w. apply Forall_cons_iff in Hw as [Hw _]. congruence.
  - cbn [app] in Hs. injection Hs as <- _.
    rewrite lstrip_nonspace by exact Hc. rewrite <- Er. apply rstrip_fixed.
Qed.

(** The list of columns as the page keeps it: "Document Name" first, no
    name twice, no empty name and no white space around a name. *)
Definition tidy_columns (cols : list pystr) : Prop :=
  NoDup cols /\
  hd_error cols = Some (str "Document Name") /\
  Forall (fun c => c <> [] /\ strip c = c) cols.

Lemma NoDup_snoc :
  forall (l : list pystr) x, NoDup l -> ~ In x l -> NoDup (l ++ [x]).
Proof.
  intros l x Hl Hx. induction Hl as [|y l Hy Hl IH]; cbn [app].
  - constructor; [intros [] | constructor].
  - constructor.
    + intros Hin. apply in_app_or in Hin as [Hin|[<-|[]]]; [contradiction|].
      apply Hx. now left.
    + apply IH. intros Hin. apply Hx. now right.
Qed.

Lemma str_in_false : forall x l, str_in x l = false <-> ~ In x l.
Proof.
  intros x l. split.
  - intros H Hin. apply str_in_In in Hin. congruence.
  - intros H. destruct (str_in x l) eqn:E; [|reflexivity].
    apply str_in_In in E. contradiction.
Qed.

(** The name [add_column] reads from the text input. *)
Definition typed_name (st : Configuration) : pystr :=
  strip (match new_column_input st with Some text => text | None => [] end).

(** X10.  [add_column] keeps the list of columns tidy: "Document Name"
    stays first, no name comes twice, and the name added has no white
    space around it and is not empty.  The columns there were keep their
    places (at most one name is added, at the end) and the prompt is not
    touched.  The list changes exactly when the trimmed input is neither
    empty nor a column already. *)
Theorem add_column_keeps_columns_tidy :
  forall st : Configuration,
    (tidy_columns (columns st) -> tidy_columns (columns (add_column st))) /\
    prompt_text (add_column st) = prompt_text st /\
    (exists added,
       columns (add_column st) = columns st ++ added /\ length added <= 1) /\
    (add_column st = st <-> typed_name st = [] \/ In (typed_name st) (columns st)).
Proof.
  intros st. unfold add_column. fold (typed_name st).
  destruct (truthy (typed_name st)) eqn:Et;
    [destruct (str_in (typed_name st) (columns st)) eqn:Ein|]; cbn [andb negb].
  - split; [tauto|]. split; [reflexivity|]. split.
    + exists []. split; [now rewrite app_nil_r | cbn; lia].
    + apply str_in_In in Ein. tauto.
  - apply str_in_false in Ein.
    assert (Hne : typed_name st <> []).
    { intros E. rewrite E in Et. discriminate. }
    cbn [columns prompt_text]. split; [|split; [reflexivity | split]].
    + intros [Hnd [Hhd Hall]]. split; [now apply NoDup_snoc|]. split.
      * destruct (columns st); [discriminate | exact Hhd].
      * apply Forall_app. split; [exact Hall|].
        constructor; [|constructor]. split; [exact Hne|].
        unfold typed_name. apply strip_fixed.
    + exists [typed_name st]. split; [reflexivity | cbn; lia].
    + split.
      * intros E. apply (f_equal columns) in E. cbn [columns] in E.
        apply (f_equal (@length _)) in E. rewrite length_app in E. cbn in E. lia.
      * intros [E|Hin]; contradiction.
  - assert (E : typed_name st = []).
    { destruct (typed_name st); [reflexivity | discriminate]. }
    split; [tauto|]. split; [reflexivity|]. split.
    + exists []. split; [now rewrite app_nil_r | cbn; lia].
    + tauto.
Qed.

Lemma output_columns_snoc_variant :
  forall cols n,
    lower n = str "document name" -> output_columns (cols ++ [n]) = output_columns cols.
Proof.
  intros cols n Hn. unfold output_columns. rewrite filter_app. cbn [filter].
  rewrite Hn, str_eqb_refl. cbn [negb]. apply app_nil_r.
Qed.

(** X11.  Names are compared as they are written: a spelling of
    "Document Name" in other letter case that is not yet a column (say
    "document name") is added by [add_column] as a column of its own.
    [build_analysis_prompt] never asks for it: the compiled prompt is the
    one of the columns before. *)
Theorem add_column_takes_case_variants :
  forall (st : Configuration) (n : pystr),
    typed_name st = n ->
    lower n = str "document name" ->
    ~ In n (columns st) ->
    columns (add_column st) = columns st ++ [n] /\
    (forall user_prompt,
       build_analysis_prompt user_prompt (columns (add_column st))
       = build_analysis_prompt user_prompt (columns st)).
Proof.
  intros st n Hn Hl Hin.
  assert (Hcols : columns (add_column st) = columns st ++ [n]).
  { unfold add_column. fold (typed_name st). rewrite Hn.
    apply str_in_false in Hin. rewrite Hin.
    destruct n; [discriminate Hl | reflexivity]. }
  split; [exact Hcols|].
  intros user_prompt. unfold build_analysis_prompt.
  now rewrite Hcols, output_columns_snoc_variant.
Qed.

Definition fresh_configuration : Configuration :=
  mkConfiguration [str "Document Name"] (str "P") (Some (str " document name ")).

Lemma add_column_takes_case_variants_witness :
  typed_name fresh_configuration = str "document name" /\
  lower (str "document name") = str "document name" /\
  columns (add_column fresh_configuration)
    = columns fresh_configuration ++ [str "document name"] /\
  (forall user_prompt,
     build_analysis_prompt user_prompt (columns (add_column fresh_configuration))
     = build_analysis_prompt user_prompt (columns fresh_configuration)).
Proof.
  split; [reflexivity|]. split; [reflexivity|].
  apply (add_column_takes_case_variants fresh_configuration (str "document name"));
    [reflexivity | reflexivity |].
  intros [H|[]]. discriminate H.
Defined.

(** What [list.remove] does to a list that holds the item. *)
Lemma list_remove_split :
  forall x l,
    In x l ->
    exists a b, l = a ++ x :: b /\ ~ In x a /\ list_remove x l = inr (a ++ b).
Proof.
  intros x. induction l as [|y l IH]; intros Hin; [contradiction|].
  cbn [list_remove]. destruct (str_eqb y x) eqn:E.
  - apply str_eqb_eq in E. subst y. exists [], l. repeat split. intros [].
  - apply str_eqb_neq in E. destruct Hin as [Hin|Hin]; [contradiction|].
    destruct (IH Hin) as [a [b [-> [Ha ->]]]].
    exists (y :: a), b. repeat split. intros [H|H]; [congruence | contradiction].
Qed.

(** X12.  [remove_column] never fails ([list.remove] is only called for
    a name the list holds) and never removes "Document Name".  It takes
    out the first occurrence of the name and nothing else: the other
    columns stay, in their order, and the prompt is not touched.  A tidy
    list stays tidy and no longer holds the name. *)
Theorem remove_column_keeps_identity :
  forall (col_name : pystr) (st : Configuration),
    exists st',
      remove_column col_name st = inr st' /\
      prompt_text st' = prompt_text st /\
      (In (str "Document Name") (columns st) -> In (str "Document Name") (columns st')) /\
      (forall c, c <> col_name -> (In c (columns st') <-> In c (columns st))) /\
      (In col_name (columns st) -> col_name <> str "Document Name" ->
       exists a b, columns st = a ++ col_name :: b /\ ~ In col_name a /\
                   columns st' = a ++ b) /\
      (tidy_columns (columns st) ->
       tidy_columns (columns st') /\
       (col_name <> str "Document Name" -> ~ In col_name (columns st'))).
Proof.
  intros col_name st. unfold remove_column.
  destruct (str_in col_name (columns st)) eqn:Ein; cbn [andb].
  2:{ apply str_in_false in Ein. exists st. split; [reflexivity|].
      split; [reflexivity|]. split; [tauto|]. split; [tauto|].
      split; [tauto|]. intros Ht. split; [exact Ht | tauto]. }
  apply str_in_In in Ein.
  destruct (str_eqb col_name (str "Document Name")) eqn:Edn; cbn [negb].
  { apply str_eqb_eq in Edn. exists st. split; [reflexivity|].
    split; [reflexivity|]. split; [tauto|]. split; [tauto|].
    split; [tauto|]. intros Ht. split; [exact Ht | tauto]. }
  apply str_eqb_neq in Edn.
  destruct (list_remove_split col_name (columns st) Ein) as [a [b [Hl [Ha Hr]]]].
  rewrite Hr. eexists. split; [reflexivity|]. cbn [columns prompt_text].
  split; [reflexivity|].
  assert (Hother : forall c, c <> col_name -> (In c (a ++ b) <-> In c (columns st))).
  { intros c Hc. rewrite Hl, !in_app_iff. cbn [In]. split; [tauto|].
    intros [H|[H|H]]; [tauto | congruence | tauto]. }
  split; [intros H; apply Hother; [congruence | exact H]|].
  split; [exact Hother|].
  split; [intros _ _; now exists a, b|].
  intros [Hnd [Hhd Hall]]. rewrite Hl in Hnd, Hhd, Hall.
  assert (Hnd' : NoDup (a ++ b) /\ ~ In col_name (a ++ b)).
  { split; [now apply NoDup_remove_1 in Hnd | now apply NoDup_remove_2 in Hnd]. }
  split; [|intros _; apply Hnd'].
  split; [apply Hnd'|]. split.
  - destruct a as [|y a]; cbn [app hd_error] in *; [congruence | exact Hhd].
  - apply Forall_app in Hall as [H1 H2]. apply Forall_cons_iff in H2 as [_ H2].
    apply Forall_app. now split.
Qed.

Lemma list_remove_snoc :
  forall x l, ~ In x l -> list_remove x (l ++ [x]) = inr l.
Proof.
  intros x. induction l as [|y l IH]; intros Hin; cbn [app list_remove].
  - now rewrite str_eqb_refl.
  - destruct (str_eqb y x) eqn:E.
    + apply str_eqb_eq in E. subst y. elim Hin. now left.
    + rewrite IH; [reflexivity|]. intros H. apply Hin. now right.
Qed.

(** X13.  Removing the column that [add_column] has just added gives
    back the list of columns there was before. *)
Theorem remove_column_undoes_add_column :
  forall st : Configuration,
    typed_name st <> [] ->
    ~ In (typed_name st) (columns st) ->
    typed_name st <> str "Document Name" ->
    remove_column (typed_name st) (add_column st)
    = inr (mkConfiguration (columns st) (prompt_text st) (Some [])).
Proof.
  intros st Hne Hin Hdn.
  assert (Ha : add_column st
               = mkConfiguration (columns st ++ [typed_name st]) (prompt_text st)
                   (Some [])).
  { unfold add_column. fold (typed_name st).
    apply str_in_false in Hin. rewrite Hin.
    destruct (typed_name st); [contradiction | reflexivity]. }
  rewrite Ha. unfold remove_column. cbn [columns prompt_text new_column_input].
  assert (Hin' : str_in (typed_name st) (columns st ++ [typed_name st]) = true).
  { apply str_in_In, in_or_app. right. now left. }
  apply str_eqb_neq in Hdn. rewrite Hin', Hdn. cbn [andb negb].
  now rewrite list_remove_snoc.
Qed.

Lemma remove_column_undoes_add_column_witness :
  typed_name fresh_configuration <> [] /\
  typed_name fresh_configuration <> str "Document Name" /\
  remove_column (typed_name fresh_configuration) (add_column fresh_configuration)
  = inr (mkConfiguration (columns fresh_configuration) (prompt_text fresh_configuration)
           (Some [])).
Proof.
  split; [discriminate|]. split; [discriminate|].
  apply (remove_column_undoes_add_column fresh_configuration);
    [discriminate | | discriminate].
  intros [H|[]]. discriminate H.
Defined.

(** ** excel_export.py: the width of a column *)

Lemma split_lines_nonempty : forall s, split_lines s <> [].
Proof.
  induction s as [|c s IH]; cbn [split_lines]; [discriminate|].
  destruct (c =? LF)%N; [discriminate|].
  destruct (split_lines s); [contradiction | discriminate].
Qed.

Lemma max_line_length_bound :
  forall lines line, In line lines -> length line <= max_line_length lines.
Proof.
  induction lines as [|l lines IH]; intros line Hin; [contradiction|].
  cbn [max_line_length fold_right]. destruct Hin as [->|Hin]; [lia|].
  specialize (IH line Hin). unfold max_line_length in IH. lia.
Qed.

Lemma max_line_length_reached :
  forall lines, lines <> [] ->
    exists line, In line lines /\ max_line_length lines = length line.
Proof.
  induction lines as [|l lines IH]; intros Hne; [contradiction|].
  cbn [max_line_length fold_right]. fold (max_line_length lines).
  destruct lines as [|l' lines'].
  - exists l. split; [now left | cbn; lia].
  - destruct IH as [line [Hin Hmax]]; [discriminate|].
    destruct (Nat.max_spec (length l) (max_line_length (l' :: lines'))) as [[_ E]|[_ E]];
      rewrite E.
    + exists line. split; [now right | exact Hmax].
    + exists l. split; [now left | reflexivity].
Qed.

(** [split] loses nothing: the lines, joined by newlines, are the text,
    and no line holds a newline. *)
Lemma split_lines_join :
  forall s, join [LF] (split_lines s) = s /\ Forall (fun line => ~ In LF line) (split_lines s).
Proof.
  induction s as [|c s [IHj IHl]]; cbn [split_lines].
  - split; [reflexivity|]. constructor; [intros [] | constructor].
  - destruct (c =? LF)%N eqn:E.
    + apply N.eqb_eq in E. subst c. split.
      * rewrite join_cons by (apply split_lines_nonempty). cbn [app]. now rewrite IHj.
      * constructor; [intros [] | exact IHl].
    + apply N.eqb_neq in E.
      destruct (split_lines s) as [|line lines] eqn:Es;
        [now elim (split_lines_nonempty s)|].
      apply Forall_cons_iff in IHl as [Hline Hlines]. split.
      * destruct lines as [|l lines].
        -- cbn [join] in *. now rewrite IHj.
        -- rewrite join_cons in * by discriminate. rewrite <- IHj. reflexivity.
      * constructor; [|exact Hlines]. intros [H|H]; [congruence | contradiction].
Qed.

(** The loop over the rows: the largest of the start value and of the
    needs of the rows. *)
Lemma fold_max_bounds :
  forall (need : dict -> nat) results init,
    let widest := fold_left (fun acc r => Nat.max acc (need r)) results init in
    init <= widest /\
    (forall r, In r results -> need r <= widest) /\
    (widest = init \/ exists r, In r results /\ widest = need r).
Proof.
  intros need rows. induction rows as [|r rows IH]; intros init; cbv zeta.
  - cbn [fold_left]. split; [lia|]. split; [intros r []|]. now left.
  - cbn [fold_left]. specialize (IH (Nat.max init (need r))). cbv zeta in IH.
    destruct IH as [H1 [H2 H3]]. split; [lia|]. split.
    + intros r' [<-|Hin]; [lia | now apply H2].
    + destruct H3 as [E|[r' [Hin E]]].
      * destruct (Nat.max_spec init (need r)) as [[_ E']|[_ E']].
        -- right. exists r. split; [now left | now rewrite E].
        -- left. now rewrite E.
      * right. exists r'. split; [now right | exact E].
Qed.

(** The lines of the value of a row under a column, as
    [_auto_size_columns] measures them. *)
Definition lines_of (rendering : pyval -> pystr) (col_name : pystr) (result_dict : dict)
    : list pystr :=
  split_lines (str_text rendering (dict_get_default col_name (PyStr []) result_dict)).

(** X14.  The width [_auto_size_columns] computes for a column is never
    more than 50.  Unless it is 50, it is wide enough for the header and
    for every line of every value of the column, with two characters of
    padding; and it is never wider than needed: it is 50, or the length
    of the header plus 2, or the length of some line of some value plus
    2.  A value is measured line by line, not as a whole. *)
Theorem column_width_fits_longest_line :
  forall (rendering : pyval -> pystr) (col_name : pystr) (results : list dict),
    let width := max_width rendering col_name results in
    width <= 50 /\
    Nat.min (length col_name + 2) 50 <= width /\
    (forall result_dict line,
       In result_dict results -> In line (lines_of rendering col_name result_dict) ->
       Nat.min (length line + 2) 50 <= width) /\
    (width = 50 \/ width = length col_name + 2 \/
     exists result_dict line,
       In result_dict results /\ In line (lines_of rendering col_name result_dict) /\
       width = length line + 2).
Proof.
  intros rendering col_name results. cbv zeta. unfold max_width.
  pose proof (fold_max_bounds
                (fun r => max_line_length (lines_of rendering col_name r) + 2)
                results (length col_name + 2)) as H.
  cbv zeta in H. unfold lines_of in *.
  set (widest := fold_left _ results (length col_name + 2)) in *.
  destruct H as [H1 [H2 H3]].
  split; [lia|]. split; [lia|]. split.
  - intros result_dict line Hr Hl. specialize (H2 _ Hr).
    pose proof (max_line_length_bound _ _ Hl). lia.
  - destruct (Nat.le_gt_cases 50 widest) as [Hbig|Hsmall]; [left; lia|].
    right. rewrite Nat.min_l by lia.
    destruct H3 as [E|[r [Hr E]]]; [now left|]. right.
    destruct (max_line_length_reached
                (split_lines (str_text rendering
                                (dict_get_default col_name (PyStr []) r))))
      as [line [Hl Hmax]]; [apply split_lines_nonempty|].
    exists r, line. split; [exact Hr|]. split; [exact Hl|]. lia.
Qed.

(** A row of two lines: the width follows the longer line, not the
    whole value. *)
Example width_of_two_lines :
  max_width (fun _ => []) (str "Notes")
    [[(str "Notes", PyStr (str "first line" ++ [LF] ++ str "second"))]] = 12 /\
  max_width (fun _ => []) (str "Notes") [] = 7 /\
  max_width (fun _ => []) (str "Notes")
    [[(str "Notes",
       PyStr (str "a line of more than fifty characters, which the cap cuts down"))]]
  = 50.
Proof. repeat split; reflexivity. Qed.

(** ** app.py: loading a template *)

(** X15.  [load_template] is not all or nothing.  When the template is
    an object whose "columns" entry is not a list, the prompt has already
    been replaced (by the "prompt" entry, or by the default prompt when
    there is none) when the columns raise: the page shows an error, the
    columns are the old ones and the prompt is the new one. *)
Theorem load_template_keeps_prompt_of_bad_template :
  forall (template : dict) (other : pyval) (st : TemplateEntries),
    dict_get (str "columns") template = Some other ->
    (forall l, other <> PyList l) ->
    load_template (inr (PyDict template)) st =
      (mkEntries (dict_get_default (str "prompt") (PyStr get_default_prompt) template)
                 (entry_columns st),
       StError (str "Error loading template: can only concatenate list (not "
                ++ quoted (type_name other) ++ str ") to list")).
Proof.
  intros template other st Hc Hl. unfold load_template, dict_get_default.
  rewrite Hc. destruct other; try reflexivity. now elim (Hl items).
Qed.

Lemma load_template_keeps_prompt_of_bad_template_witness :
  dict_get (str "columns")
    [(str "prompt", PyStr (str "new")); (str "columns", PyStr (str "Summary"))]
    = Some (PyStr (str "Summary")) /\
  load_template
    (inr (PyDict [(str "prompt", PyStr (str "new"));
                  (str "columns", PyStr (str "Summary"))]))
    (mkEntries (PyStr (str "old")) (PyList [PyStr (str "Document Name")]))
  = (mkEntries
       (dict_get_default (str "prompt") (PyStr get_default_prompt)
          [(str "prompt", PyStr (str "new")); (str "columns", PyStr (str "Summary"))])
       (entry_columns (mkEntries (PyStr (str "old"))
                         (PyList [PyStr (str "Document Name")]))),
     StError (str "Error loading template: can only concatenate list (not "
              ++ quoted (type_name (PyStr (str "Summary"))) ++ str ") to list")).
Proof.
  split; [reflexivity|].
  apply (load_template_keeps_prompt_of_bad_template
           [(str "prompt", PyStr (str "new")); (str "columns", PyStr (str "Summary"))]
           (PyStr (str "Summary")));
    [reflexivity | discriminate].
Defined.

(** X16.  A file that cannot be read as JSON, and a template that is
    JSON but not an object, leave the session as it was: the page shows
    an error and neither the prompt nor the columns change.  After a
    template that is an object, the columns, when they change, start with
    "Document Name". *)
Theorem load_template_needs_an_object :
  forall (loaded : exn + pyval) (st : TemplateEntries),
    ((forall template, loaded <> inr (PyDict template)) ->
       fst (load_template loaded st) = st /\
       exists text,
         snd (load_template loaded st) = StError (str "Error loading template: " ++ text)) /\
    (entry_columns (fst (load_template loaded st)) = entry_columns st \/
     exists loaded_columns,
       entry_columns (fst (load_template loaded st))
       = PyList (PyStr (str "Document Name") :: loaded_columns)).
Proof.
  intros loaded st. split.
  - intros Hno. unfold load_template.
    destruct loaded as [e|v]; [split; [reflexivity | eexists; reflexivity]|].
    destruct v; try (split; [reflexivity | eexists; reflexivity]).
    now elim (Hno items).
  - unfold load_template. destruct loaded as [e|v]; [now left|].
    destruct v; try (now left).
    destruct (dict_get_default (str "columns") (PyList []) items); try (now left).
    right. eexists. reflexivity.
Qed.

(** ** app.py: a template that was saved is loaded back *)

(** The columns a template holds. *)
Definition template_columns (st : Configuration) : list pystr :=
  filter (fun col => negb (str_eqb col (str "Document Name"))) (columns st).

(** The items of a list of strings written with [indent=2] at level 1,
    as [array_items] meets them: after the opening quote of the first
    item, up to the closing bracket. *)
Fixpoint items_text (items : list pystr) (rest : pystr) : pystr :=
  match items with
  | [] => []
  | c :: items' =>
      flat_map escape_char c ++ 34%N ::
      match items' with
      | [] => 10%N :: 32%N :: 32%N :: 93%N :: rest
      | _ :: _ =>
          44%N :: 10%N :: 32%N :: 32%N :: 32%N :: 32%N :: 34%N :: items_text items' rest
      end
  end.

Lemma items_text_join :
  forall items rest,
    items <> [] ->
    join [44; 10; 32; 32; 32; 32]%N (map py_encode_basestring_ascii items)
      ++ 10%N :: 32%N :: 32%N :: 93%N :: rest
    = 34%N :: items_text items rest.
Proof.
  induction items as [|c items IH]; intros rest Hne; [contradiction|].
  destruct items as [|c' items'].
  - cbn [map join items_text]. unfold py_encode_basestring_ascii.
    change DQUOTE with 34%N. norm_app. reflexivity.
  - change (map py_encode_basestring_ascii (c :: c' :: items'))
      with (py_encode_basestring_ascii c :: map py_encode_basestring_ascii (c' :: items')).
    rewrite join_cons by discriminate.
    rewrite <- !app_assoc. rewrite IH by discriminate.
    cbn [items_text]. unfold py_encode_basestring_ascii.
    change DQUOTE with 34%N. norm_app. reflexivity.
Qed.

Lemma dumps_list_indent_text :
  forall items rest,
    items <> [] ->
    dumps_list_indent 1 items ++ rest
    = 91%N :: 10%N :: 32%N :: 32%N :: 32%N :: 32%N :: 34%N :: items_text items rest.
Proof.
  intros items rest Hne. rewrite <- items_text_join by exact Hne.
  destruct items as [|c items]; [contradiction|].
  unfold dumps_list_indent, newline_indent.
  change (str "[") with [91%N]. change (str "]") with [93%N].
  change (str ",") with [44%N]. change LF with 10%N.
  cbn [repeat Nat.mul Nat.add]. norm_app. reflexivity.
Qed.

Lemma array_items_strings :
  forall items rest fuel,
    items <> [] -> Forall plain_text items -> length items < fuel ->
    array_items fuel (34%N :: items_text items rest) = Done (map PyStr items) rest.
Proof.
  induction items as [|c items IH]; intros rest fuel Hne Hall Hfuel; [contradiction|].
  apply Forall_cons_iff in Hall as [Hc Hall].
  destruct fuel as [|fuel]; [lia|]. cbn [length] in Hfuel.
  cbn [array_items items_text].
  destruct fuel as [|fuel]; [lia|]. cbn [scan_once]. change DQUOTE with 34%N.
  cbn [N.eqb Pos.eqb]. rewrite scan_escaped_string_34 by exact Hc.
  destruct items as [|c' items'].
  - reflexivity.
  - cbn [skip_ws is_json_ws N.eqb Pos.eqb orb].
    rewrite IH; [reflexivity | discriminate | exact Hall | cbn [length] in *; lia].
Qed.

Lemma skip_ws_dumps_list_indent :
  forall items rest,
    skip_ws (dumps_list_indent 1 items ++ rest) = dumps_list_indent 1 items ++ rest.
Proof.
  intros [|c items] rest; [reflexivity|].
  rewrite dumps_list_indent_text by discriminate. reflexivity.
Qed.

(** The list of the columns, as [json.loads] reads it. *)
Lemma scan_once_string_list :
  forall items rest fuel,
    Forall plain_text items -> length items + 2 <= fuel ->
    scan_once fuel (dumps_list_indent 1 items ++ rest)
    = Done (PyList (map PyStr items)) rest.
Proof.
  intros items rest fuel Hall Hfuel.
  destruct fuel as [|fuel]; [lia|].
  destruct items as [|c items].
  - reflexivity.
  - rewrite dumps_list_indent_text by discriminate.
    cbn [scan_once]. change DQUOTE with 34%N. cbn [N.eqb Pos.eqb].
    unfold JSONArray. cbn [skip_ws is_json_ws N.eqb Pos.eqb orb].
    rewrite array_items_strings; [reflexivity | discriminate | exact Hall |].
    cbn [length] in *. lia.
Qed.

Lemma save_template_text :
  forall st,
    save_template st =
    123%N :: 10%N :: 32%N :: 32%N :: 34%N ::
    flat_map escape_char (str "prompt") ++ 34%N :: 58%N :: 32%N :: 34%N ::
    flat_map escape_char (prompt_text st) ++ 34%N :: 44%N :: 10%N :: 32%N :: 32%N :: 34%N ::
    flat_map escape_char (str "columns") ++ 34%N :: 58%N :: 32%N ::
    dumps_list_indent 1 (template_columns st) ++ [10; 125]%N.
Proof.
  intros st. unfold save_template, py_encode_basestring_ascii, newline_indent.
  cbv zeta. fold (template_columns st).
  change (str "{") with [123%N]. change (str "}") with [125%N].
  change (str ": ") with [58; 32]%N. change (str ",") with [44%N].
  change LF with 10%N. change DQUOTE with 34%N.
  cbn [repeat Nat.mul Nat.add]. norm_app. reflexivity.
Qed.

Lemma plain_text_prompt : plain_text (str "prompt").
Proof.
  split; [|reflexivity].
  repeat constructor; vm_compute; discriminate.
Qed.

Lemma plain_text_columns : plain_text (str "columns").
Proof.
  split; [|reflexivity].
  repeat constructor; vm_compute; discriminate.
Qed.

(** The template, as a value. *)
Definition template_value (st : Configuration) : dict :=
  [(str "prompt", PyStr (prompt_text st));
   (str "columns", PyList (map PyStr (template_columns st)))].

Lemma scan_once_template :
  forall st,
    plain_text (prompt_text st) -> Forall plain_text (template_columns st) ->
    scan_once (S (S (S (length (template_columns st) + 2)))) (save_template st)
    = Done (PyDict (template_value st)) [].
Proof.
  intros st Hp Hcols. rewrite save_template_text.
  cbn [scan_once]. change DQUOTE with 34%N. cbn [N.eqb Pos.eqb].
  unfold JSONObject. cbn [skip_ws is_json_ws N.eqb Pos.eqb orb].
  change DQUOTE with 34%N. cbn [N.eqb Pos.eqb].
  cbn [object_items].
  rewrite scan_escaped_string_34 by exact plain_text_prompt.
  cbn [skip_ws is_json_ws N.eqb Pos.eqb orb].
  cbn [scan_once]. change DQUOTE with 34%N. cbn [N.eqb Pos.eqb].
  rewrite scan_escaped_string_34 by exact Hp.
  cbn [skip_ws is_json_ws N.eqb Pos.eqb orb].
  change DQUOTE with 34%N. cbn [N.eqb Pos.eqb].
  rewrite scan_escaped_string_34 by exact plain_text_columns.
  cbn [skip_ws is_json_ws N.eqb Pos.eqb orb].
  rewrite skip_ws_dumps_list_indent.
  rewrite scan_once_string_list by (exact Hcols || lia).
  reflexivity.
Qed.

Lemma loads_save_template :
  forall st,
    plain_text (prompt_text st) -> Forall plain_text (template_columns st) ->
    loads (save_template st) = Loaded (PyDict (template_value st)).
Proof.
  intros st Hp Hcols. pose proof (scan_once_template st Hp Hcols) as Hscan.
  assert (Hstart : startswith [0xFEFF%N] (save_template st) = false)
    by (rewrite save_template_text; reflexivity).
  assert (Hskip : skip_ws (save_template st) = save_template st)
    by (rewrite save_template_text; reflexivity).
  unfold loads. rewrite Hstart, Hskip.
  assert (Hfuel : 2 * length (save_template st) + 1 <= fuel_for (save_template st))
    by (unfold fuel_for; lia).
  rewrite (scan_fuel_enough _ _ _ _ _ Hfuel Hscan).
  reflexivity.
Qed.

Lemma filter_other_columns :
  forall rest,
    ~ In (str "Document Name") rest ->
    filter (fun col => negb (str_eqb col (str "Document Name"))) rest = rest.
Proof.
  induction rest as [|c rest IH]; intros Hnot; [reflexivity|].
  cbn [filter]. destruct (str_eqb c (str "Document Name")) eqn:E.
  - apply str_eqb_eq in E. subst c. elim Hnot. now left.
  - cbn [negb]. f_equal. apply IH. intros Hin. apply Hnot. now right.
Qed.

Lemma template_columns_plain :
  forall st, Forall plain_text (columns st) -> Forall plain_text (template_columns st).
Proof.
  intros st H. unfold template_columns. rewrite Forall_forall in *.
  intros c Hc. apply filter_In in Hc as [Hc _]. now apply H.
Qed.

(** X17.  A template that was saved is loaded back.  When the prompt and
    the column names hold no high surrogate followed by a low one, the
    text [save_template] offers for download is read by [json.loads] as
    the object with the prompt and with the columns other than
    "Document Name", and [load_template], given that object, succeeds:
    the prompt is the saved prompt and the columns are "Document Name"
    followed by the saved columns, whatever the session held before.
    They are the columns of the session that was saved when those start
    with "Document Name" and do not hold it a second time. *)
Theorem saved_template_loads_back :
  forall (st : Configuration) (old : TemplateEntries),
    plain_text (prompt_text st) ->
    Forall plain_text (columns st) ->
    loads (save_template st) = Loaded (PyDict (template_value st)) /\
    load_template (inr (PyDict (template_value st))) old =
      (mkEntries (PyStr (prompt_text st))
                 (PyList (map PyStr (str "Document Name" :: template_columns st))),
       StSuccess (str "Template loaded successfully!")) /\
    (forall rest,
       columns st = str "Document Name" :: rest ->
       ~ In (str "Document Name") rest ->
       str "Document Name" :: template_columns st = columns st).
Proof.
  intros st old Hp Hcols. split.
  - apply loads_save_template; [exact Hp | now apply template_columns_plain].
  - split; [reflexivity|].
    intros rest E Hnot. unfold template_columns. rewrite E.
    cbn [filter]. rewrite str_eqb_refl. cbn [negb].
    now rewrite filter_other_columns.
Qed.

Definition two_column_configuration : Configuration :=
  mkConfiguration [str "Document Name"; str "Summary"; [233%N; 0x1F600%N]]
                  (str "List the " ++ [DQUOTE] ++ str "parties" ++ [DQUOTE; LF]) None.

Lemma saved_template_loads_back_witness :
  plain_text (prompt_text two_column_configuration) /\
  Forall plain_text (columns two_column_configuration) /\
  loads (save_template two_column_configuration)
    = Loaded (PyDict (template_value two_column_configuration)) /\
  load_template (inr (PyDict (template_value two_column_configuration)))
    (mkEntries PyNone PyNone) =
    (mkEntries (PyStr (prompt_text two_column_configuration))
               (PyList (map PyStr (str "Document Name"
                                     :: template_columns two_column_configuration))),
     StSuccess (str "Template loaded successfully!")) /\
  (forall rest,
     columns two_column_configuration = str "Document Name" :: rest ->
     ~ In (str "Document Name") rest ->
     str "Document Name" :: template_columns two_column_configuration
     = columns two_column_configuration).
Proof.
  assert (Hp : plain_text (prompt_text two_column_configuration)).
  { split; [|reflexivity]. repeat constructor; vm_compute; discriminate. }
  assert (Hcols : Forall plain_text (columns two_column_configuration)).
  { repeat constructor; vm_compute; discriminate. }
  split; [exact Hp|]. split; [exact Hcols|].
  exact (saved_template_loads_back two_column_configuration (mkEntries PyNone PyNone)
           Hp Hcols).
Defined.

(** The text of the template of that session. *)
Example saved_template_text :
  save_template (mkConfiguration [str "Document Name"; str "Summary"] (str "P") None)
  = str "{" ++ [LF] ++ str "  " ++ [DQUOTE] ++ str "prompt" ++ [DQUOTE] ++ str ": "
    ++ [DQUOTE] ++ str "P" ++ [DQUOTE] ++ str "," ++ [LF]
    ++ str "  " ++ [DQUOTE] ++ str "columns" ++ [DQUOTE] ++ str ": [" ++ [LF]
    ++ str "    " ++ [DQUOTE] ++ str "Summary" ++ [DQUOTE] ++ [LF]
    ++ str "  ]" ++ [LF] ++ str "}" /\
  save_template (mkConfiguration [str "Document Name"] (str "P") None)
  = str "{" ++ [LF] ++ str "  " ++ [DQUOTE] ++ str "prompt" ++ [DQUOTE] ++ str ": "
    ++ [DQUOTE] ++ str "P" ++ [DQUOTE] ++ str "," ++ [LF]
    ++ str "  " ++ [DQUOTE] ++ str "columns" ++ [DQUOTE] ++ str ": []" ++ [LF]
    ++ str "}".
Proof. split; reflexivity. Qed.

(** ** app.py: the text of a template is ASCII *)

Definition is_ascii_text (c : char) : Prop := (c = 10 \/ 32 <= c <= 126)%N.

Lemma hex_digit_ascii : forall d : N, (d < 16)%N -> is_ascii_text (hex_digit d).
Proof.
  intros d Hd. unfold is_ascii_text, hex_digit.
  destruct (d <? 10)%N eqn:E; [apply N.ltb_lt in E | apply N.ltb_ge in E]; lia.
Qed.

Lemma u_escape_ascii :
  forall n : N, (n < 0x10000)%N -> Forall is_ascii_text (u_escape n).
Proof.
  intros n Hn. unfold u_escape.
  apply Forall_cons; [unfold is_ascii_text, BACKSLASH_CHAR; lia|].
  apply Forall_cons; [unfold is_ascii_text; lia|].
  apply Forall_cons; [apply hex_digit_ascii, N.Div0.div_lt_upper_bound; lia|].
  apply Forall_cons; [apply hex_digit_ascii, N.mod_lt; discriminate|].
  apply Forall_cons; [apply hex_digit_ascii, N.mod_lt; discriminate|].
  apply Forall_cons; [apply hex_digit_ascii, N.mod_lt; discriminate|].
  apply Forall_nil.
Qed.

(** Literals of the encoder. *)
Ltac ascii_literal :=
  repeat (apply Forall_cons; [unfold is_ascii_text; vm_compute; right; split; discriminate|]);
  apply Forall_nil.

Lemma escape_char_ascii :
  forall c : char, valid_char c -> Forall is_ascii_text (escape_char c).
Proof.
  intros c Hv. unfold escape_char, valid_char in *.
  eqb_case c 34%N; [ascii_literal|].
  eqb_case c 92%N; [ascii_literal|].
  eqb_case c 10%N; [ascii_literal|].
  eqb_case c 13%N; [ascii_literal|].
  eqb_case c 9%N; [ascii_literal|].
  eqb_case c 12%N; [ascii_literal|].
  eqb_case c 8%N; [ascii_literal|].
  destruct ((32 <=? c) && (c <=? 126))%N eqn:Hr.
  - apply andb_true_iff in Hr as [H1 H2].
    apply N.leb_le in H1. apply N.leb_le in H2.
    apply Forall_cons; [unfold is_ascii_text; lia | apply Forall_nil].
  - destruct (c <? 0x10000)%N eqn:Hb.
    + apply N.ltb_lt in Hb. now apply u_escape_ascii.
    + apply N.ltb_ge in Hb. cbv zeta.
      destruct (surrogate_units c) as [q [r [Eh [El [Hq [Hr' _]]]]]]; [lia|].
      rewrite Eh, El. apply Forall_app. split; apply u_escape_ascii; lia.
Qed.

Lemma encoded_string_ascii :
  forall s, valid_str s -> Forall is_ascii_text (py_encode_basestring_ascii s).
Proof.
  intros s Hs. unfold py_encode_basestring_ascii.
  apply Forall_app. split; [ascii_literal|].
  apply Forall_app. split; [|ascii_literal].
  induction Hs as [|c s Hc _ IH]; [constructor|].
  cbn [flat_map]. apply Forall_app. split; [now apply escape_char_ascii | exact IH].
Qed.

Lemma join_ascii :
  forall sep items,
    Forall is_ascii_text sep -> Forall (Forall is_ascii_text) items ->
    Forall is_ascii_text (join sep items).
Proof.
  intros sep items Hsep Hall. induction Hall as [|x items Hx Hall IH]; [constructor|].
  destruct items as [|y items]; [exact Hx|].
  rewrite join_cons by discriminate.
  apply Forall_app. split; [exact Hx|]. apply Forall_app. split; [exact Hsep | exact IH].
Qed.

Lemma newline_indent_ascii : forall level, Forall is_ascii_text (newline_indent level).
Proof.
  intros level. unfold newline_indent. constructor; [now left|].
  induction (2 * level) as [|n IH]; [constructor|].
  cbn [repeat]. constructor; [unfold is_ascii_text; lia | exact IH].
Qed.

Lemma dumps_list_indent_ascii :
  forall level items,
    Forall valid_str items -> Forall is_ascii_text (dumps_list_indent level items).
Proof.
  intros level items Hall. unfold dumps_list_indent.
  destruct items as [|c items]; [ascii_literal|].
  apply Forall_app. split; [ascii_literal|].
  apply Forall_app. split; [apply newline_indent_ascii|].
  apply Forall_app. split.
  - apply join_ascii.
    + apply Forall_app. split; [ascii_literal|].
      apply newline_indent_ascii.
    + apply Forall_map. revert Hall. apply Forall_impl. exact encoded_string_ascii.
  - apply Forall_app. split; [apply newline_indent_ascii|].
    ascii_literal.
Qed.

(** X18.  The text of a template is ASCII, whatever the prompt and the
    column names hold: every character of it is a newline or one of the
    characters from the space to the tilde.  Accented letters, emoji and
    control characters of the prompt are written as escapes. *)
Theorem save_template_is_ascii :
  forall st : Configuration,
    valid_str (prompt_text st) -> Forall valid_str (columns st) ->
    Forall (fun c => c = 10 \/ 32 <= c <= 126)%N (save_template st).
Proof.
  intros st Hp Hcols. change (Forall is_ascii_text (save_template st)).
  unfold save_template. cbv zeta.
  apply Forall_app; split; [ascii_literal|].
  apply Forall_app; split; [apply newline_indent_ascii|].
  apply Forall_app; split;
    [apply encoded_string_ascii; repeat constructor; vm_compute; discriminate|].
  apply Forall_app; split; [ascii_literal|].
  apply Forall_app; split; [now apply encoded_string_ascii|].
  apply Forall_app; split; [ascii_literal|].
  apply Forall_app; split; [apply newline_indent_ascii|].
  apply Forall_app; split;
    [apply encoded_string_ascii; repeat constructor; vm_compute; discriminate|].
  apply Forall_app; split; [ascii_literal|].
  apply Forall_app; split; [|apply Forall_app; split;
                              [apply newline_indent_ascii | ascii_literal]].
  apply dumps_list_indent_ascii. rewrite Forall_forall in *.
  intros c Hc. apply filter_In in Hc as [Hc _]. now apply Hcols.
Qed.

Lemma save_template_is_ascii_witness :
  valid_str (prompt_text two_column_configuration) /\
  Forall valid_str (columns two_column_configuration) /\
  Forall (fun c => c = 10 \/ 32 <= c <= 126)%N (save_template two_column_configuration).
Proof.
  assert (Hp : valid_str (prompt_text two_column_configuration))
    by (repeat constructor; vm_compute; discriminate).
  assert (Hcols : Forall valid_str (columns two_column_configuration))
    by (repeat constructor; vm_compute; discriminate).
  split; [exact Hp|]. split; [exact Hcols|].
  exact (save_template_is_ascii two_column_configuration Hp Hcols).
Defined.

(** ** gemini_client.py: the exceptions [_parse_json_response] lets out *)

(** A text with no white space at its ends and no backtick at its start
    is handed to [json.loads] as it is. *)
Lemma cleaned_text_plain :
  forall c m x,
    is_space c = false -> (c =? BACKTICK)%N = false -> is_space x = false ->
    cleaned_text (c :: m ++ [x]) = inr (c :: m ++ [x]) /\
    cleaned_text [c] = inr [c].
Proof.
  intros c m x Hc Hb Hx. unfold cleaned_text. split.
  - rewrite strip_framed by assumption. now rewrite json_pattern_needs_ticks.
  - assert (Hs : strip [c] = [c]).
    { unfold strip. rewrite lstrip_nonspace by exact Hc.
      exact (rstrip_nonspace c [] Hc). }
    rewrite Hs. now rewrite json_pattern_needs_ticks.
Qed.

Lemma cleaned_text_repeat :
  forall c n,
    is_space c = false -> (c =? BACKTICK)%N = false ->
    cleaned_text (repeat c (S n)) = inr (repeat c (S n)).
Proof.
  intros c n Hc Hb. destruct n as [|n].
  - exact (proj2 (cleaned_text_plain c [] c Hc Hb Hc)).
  - cbn [repeat]. rewrite (repeat_cons n c).
    exact (proj1 (cleaned_text_plain c (repeat c n) c Hc Hb Hc)).
Qed.

Lemma take_digits_all : forall d, all_digits d -> take_digits d = (d, []).
Proof.
  intros d H. rewrite <- (app_nil_r d) at 1. apply take_digits_app; [exact H | exact I].
Qed.

(** An integer literal of more digits than the limit, alone in the
    text. *)
Lemma match_number_bounded_long :
  forall d ds,
    (49 <= d <= 57)%N -> all_digits ds -> int_max_str_digits < S (length ds) ->
    match_number_bounded (d :: ds) = inl (int_digits_exceeded (S (length ds))).
Proof.
  intros d ds Hd Hds Hlen. unfold match_number_bounded, match_integer.
  assert (E45 : (d =? 45)%N = false) by (apply N.eqb_neq; lia).
  assert (E48 : (d =? 48)%N = false) by (apply N.eqb_neq; lia).
  assert (Edig : is_digit d = true).
  { unfold is_digit. apply andb_true_iff. split; apply N.leb_le; lia. }
  rewrite E45, E48, Edig, (take_digits_all ds Hds). cbn [app match_frac match_exp].
  unfold parse_int_bounded, literal_digits. rewrite E45. cbn [length].
  apply Nat.ltb_lt in Hlen. now rewrite Hlen.
Qed.

Lemma scan_once_bounded_long :
  forall room fuel d ds,
    (49 <= d <= 57)%N -> all_digits ds -> int_max_str_digits < S (length ds) ->
    scan_once_bounded room (S fuel) (d :: ds)
    = Raised (int_digits_exceeded (S (length ds))).
Proof.
  intros room fuel d ds Hd Hds Hlen. cbn [scan_once_bounded].
  rewrite (match_number_bounded_long d ds Hd Hds Hlen).
  replace (d =? DQUOTE)%N with false by (symmetry; apply N.eqb_neq; unfold DQUOTE; lia).
  replace (d =? 123)%N with false by (symmetry; apply N.eqb_neq; lia).
  replace (d =? 91)%N with false by (symmetry; apply N.eqb_neq; lia).
  replace (d =? 110)%N with false by (symmetry; apply N.eqb_neq; lia).
  replace (d =? 116)%N with false by (symmetry; apply N.eqb_neq; lia).
  replace (d =? 102)%N with false by (symmetry; apply N.eqb_neq; lia).
  reflexivity.
Qed.

(** Arrays that open one inside the other: where the room ends, the
    scanner raises; with room for all of them, the text is not JSON. *)
Lemma scan_once_bounded_deep :
  forall room fuel depth,
    room < depth -> 2 * room + 1 <= fuel ->
    scan_once_bounded room fuel (repeat 91%N depth) = Raised (recursion_exceeded "array").
Proof.
  induction room as [|room IH]; intros fuel depth Hd Hf.
  - destruct fuel as [|fuel]; [lia|]. destruct depth as [|depth]; [lia|]. reflexivity.
  - destruct fuel as [|[|fuel]]; [lia | lia |].
    destruct depth as [|[|depth]]; [lia | lia |].
    cbn [repeat scan_once_bounded N.eqb Pos.eqb DQUOTE].
    unfold JSONArray_bounded. cbn [skip_ws is_json_ws N.eqb Pos.eqb orb].
    cbn [array_items_bounded].
    change (91%N :: repeat 91%N depth) with (repeat 91%N (S depth)).
    rewrite IH by lia. reflexivity.
Qed.

Lemma scan_once_bounded_open :
  forall depth room fuel,
    0 < depth <= room -> 2 * depth <= fuel ->
    scan_once_bounded room fuel (repeat 91%N depth) = Within Invalid.
Proof.
  induction depth as [|depth IH]; intros room fuel Hd Hf; [lia|].
  destruct fuel as [|[|fuel]]; [lia | lia |].
  destruct room as [|room]; [lia|].
  cbn [repeat scan_once_bounded N.eqb Pos.eqb DQUOTE]. unfold JSONArray_bounded.
  destruct depth as [|depth]; [reflexivity|].
  cbn [repeat skip_ws is_json_ws N.eqb Pos.eqb orb].
  cbn [array_items_bounded].
  change (91%N :: repeat 91%N depth) with (repeat 91%N (S depth)).
  rewrite IH by lia. reflexivity.
Qed.

(** An integer literal of more digits than the limit as the response. *)
Lemma parse_json_response_long_integer :
  forall (room : nat) (d : char) (ds : pystr),
    (49 <= d <= 57)%N -> all_digits ds -> int_max_str_digits < S (length ds) ->
    _parse_json_response_bounded room (d :: ds)
    = inl (int_digits_exceeded (S (length ds))).
Proof.
  intros room d ds Hd Hds Hlen.
  assert (Hsp : is_space d = false).
  { unfold is_space. repeat (apply orb_false_iff; split);
      try (apply andb_false_iff; left; apply N.leb_gt; lia);
      try (apply andb_false_iff; right; apply N.leb_gt; lia);
      apply N.eqb_neq; lia. }
  assert (Hc : cleaned_text (d :: ds) = inr (d :: ds)).
  { destruct (exists_last (l := ds)) as [m [x E]].
    { intros ->. cbn [length] in Hlen. unfold int_max_str_digits in Hlen. lia. }
    rewrite E. apply cleaned_text_plain; [exact Hsp | apply N.eqb_neq; unfold BACKTICK; lia |].
    rewrite E in Hds. apply Forall_app in Hds as [_ Hx].
    apply Forall_cons_iff in Hx as [Hx _]. unfold is_digit in Hx.
    apply andb_true_iff in Hx as [H1 H2]. apply N.leb_le in H1. apply N.leb_le in H2.
    unfold is_space. repeat (apply orb_false_iff; split);
      try (apply andb_false_iff; left; apply N.leb_gt; lia);
      try (apply andb_false_iff; right; apply N.leb_gt; lia);
      apply N.eqb_neq; lia. }
  unfold _parse_json_response_bounded. rewrite Hc. unfold loads_bounded, fuel_for.
  rewrite Nat.add_comm. cbn [Nat.add startswith skip_ws].
  replace (0xFEFF =? d)%N with false by (symmetry; apply N.eqb_neq; lia).
  replace (is_json_ws d) with false.
  2:{ symmetry. unfold is_json_ws. repeat (apply orb_false_iff; split); apply N.eqb_neq; lia. }
  cbn [andb]. now rewrite scan_once_bounded_long.
Qed.

Lemma parse_json_response_deep :
  forall room depth : nat,
    room < depth ->
    _parse_json_response_bounded room (repeat 91%N depth)
    = inl (recursion_exceeded "array").
Proof.
  intros room [|depth] Hd; [lia|].
  unfold _parse_json_response_bounded.
  rewrite cleaned_text_repeat by reflexivity. unfold loads_bounded.
  cbn [repeat startswith N.eqb Pos.eqb andb skip_ws is_json_ws orb].
  change (91%N :: repeat 91%N depth) with (repeat 91%N (S depth)).
  rewrite scan_once_bounded_deep; [reflexivity | exact Hd |].
  unfold fuel_for. rewrite repeat_length. lia.
Qed.

Lemma parse_json_response_open :
  forall room depth : nat,
    0 < depth <= room ->
    _parse_json_response_bounded room (repeat 91%N depth)
    = inr [(str "Raw Response", PyStr (repeat 91%N depth))].
Proof.
  intros room [|depth] Hd; [lia|].
  unfold _parse_json_response_bounded.
  rewrite cleaned_text_repeat by reflexivity. unfold loads_bounded.
  cbn [repeat startswith N.eqb Pos.eqb andb skip_ws is_json_ws orb].
  change (91%N :: repeat 91%N depth) with (repeat 91%N (S depth)).
  rewrite scan_once_bounded_open; [reflexivity | exact Hd |].
  unfold fuel_for. rewrite repeat_length. lia.
Qed.

(** X19.  [_parse_json_response] catches [json.JSONDecodeError] only, and
    [json.loads] raises two exceptions that are not one.  A response that
    is an integer literal of more than 4300 digits raises the [ValueError]
    of [int()]; arrays that open one inside the other deeper than the
    interpreter has room for raise [RecursionError]; neither comes back
    as a raw response.  Where the room is enough for them, the same
    opening brackets are a text that is not JSON and come back under
    "Raw Response". *)
Theorem parse_json_response_raises_beyond_limits :
  forall room : nat,
    (forall (d : char) (ds : pystr),
       (49 <= d <= 57)%N -> all_digits ds -> int_max_str_digits < S (length ds) ->
       _parse_json_response_bounded room (d :: ds)
       = inl (int_digits_exceeded (S (length ds)))) /\
    (forall depth : nat,
       room < depth ->
       _parse_json_response_bounded room (repeat 91%N depth)
       = inl (recursion_exceeded "array")) /\
    (forall depth : nat,
       0 < depth <= room ->
       _parse_json_response_bounded room (repeat 91%N depth)
       = inr [(str "Raw Response", PyStr (repeat 91%N depth))]).
Proof.
  intros room. split; [|split].
  - intros d ds. apply parse_json_response_long_integer.
  - intros depth. apply parse_json_response_deep.
  - intros depth. apply parse_json_response_open.
Qed.

(** Run on two texts: 4301 times the digit 1, and 2000 opening brackets
    where the interpreter has room for 1000 arrays. *)
Example beyond_limits_run :
  _parse_json_response_bounded 1000 (repeat 49%N 4301) = inl (int_digits_exceeded 4301) /\
  _parse_json_response_bounded 1000 (repeat 91%N 2000) = inl (recursion_exceeded "array") /\
  exn_str (int_digits_exceeded 4301)
    = str "Exceeds the limit (4300 digits) for integer string conversion: value has 4301 digits; use sys.set_int_max_str_digits() to increase the limit".
Proof.
  split; [|split; [|reflexivity]].
  - assert (Hlen : length (repeat 49%N 4300) = 4300) by apply repeat_length.
    change (repeat 49%N 4301) with (49%N :: repeat 49%N 4300).
    rewrite <- Hlen at 2.
    apply parse_json_response_long_integer; [lia | |].
    + apply Forall_forall. intros c Hc. apply repeat_spec in Hc. now subst c.
    + rewrite Hlen. apply Nat.lt_succ_diag_r.
  - apply parse_json_response_deep. apply Nat.ltb_lt. vm_compute. reflexivity.
Qed.

(** ** gemini_client.py: responses that meet no limit *)

(** A text that is part of another: some characters before it and some
    after it. *)
Definition part_of (t s : pystr) : Prop := exists pre post, s = pre ++ t ++ post.

Lemma part_of_refl : forall s, part_of s s.
Proof. intros s. exists [], []. now rewrite app_nil_r. Qed.

Lemma part_of_trans : forall a b c, part_of a b -> part_of b c -> part_of a c.
Proof.
  intros a b c [p1 [q1 ->]] [p2 [q2 ->]]. exists (p2 ++ p1), (q1 ++ q2).
  now rewrite <- !app_assoc.
Qed.

Lemma part_of_tail : forall pre t, part_of t (pre ++ t).
Proof. intros pre t. exists pre, []. now rewrite app_nil_r. Qed.

Lemma part_of_head : forall t post, part_of t (t ++ post).
Proof. intros t post. now exists [], post. Qed.

Lemma part_of_cons : forall c t s, part_of t s -> part_of t (c :: s).
Proof.
  intros c t s H. apply (part_of_trans _ s); [exact H|]. exact (part_of_tail [c] s).
Qed.

Lemma part_of_skip_ws : forall s, part_of (skip_ws s) s.
Proof. intros s. destruct (skip_ws_split s) as [ws [_ E]]. rewrite E at 2. apply part_of_tail. Qed.

Lemma part_of_strip : forall s, part_of (strip s) s.
Proof.
  intros s. destruct (lstrip_split s) as [w [_ Hl]].
  destruct (rstrip_split (lstrip s)) as [w' [_ Hr]].
  exists w, w'. unfold strip. now rewrite <- Hr.
Qed.

Create HintDb parts.
#[local] Hint Resolve part_of_refl part_of_tail part_of_head part_of_cons
  part_of_skip_ws part_of_strip : parts.

(** *** Group 1 is part of the text *)

Lemma star_greedy_tail :
  forall {R : Type} cls (k : nat -> pystr -> option R) s pos res,
    star_greedy cls k pos s = Some res ->
    exists pos' s', k pos' s' = Some res /\ part_of s' s.
Proof.
  intros R cls k. induction s as [|x s IH]; intros pos res H; cbn [star_greedy] in H.
  - eauto with parts.
  - destruct (cls x); [|eauto with parts].
    destruct (star_greedy cls k (S pos) s) eqn:E; [|eauto with parts].
    injection H as <-. destruct (IH _ _ E) as [pos' [s' [Hk Hs]]].
    eauto with parts.
Qed.

Lemma star_lazy_tail :
  forall {R : Type} cls (k : nat -> pystr -> option R) s pos res,
    star_lazy cls k pos s = Some res ->
    exists pos' s', k pos' s' = Some res /\ part_of s' s.
Proof.
  intros R cls k. induction s as [|x s IH]; intros pos res H; cbn [star_lazy] in H.
  - destruct (k pos []) eqn:E; [injection H as <-; eauto with parts | discriminate].
  - destruct (k pos (x :: s)) eqn:E; [injection H as <-; eauto with parts|].
    destruct (cls x); [|discriminate].
    destruct (IH _ _ H) as [pos' [s' [Hk Hs]]]. eauto with parts.
Qed.

(** What the continuation of a match is called with: a rest of the text,
    and the group as it was or a part of the text. *)
Lemma rmatch_parts :
  forall {R : Type} (r : regex) pos s g (k : nat -> pystr -> option pystr -> option R) res,
    rmatch r pos s g k = Some res ->
    exists pos' s' g',
      k pos' s' g' = Some res /\ part_of s' s /\
      (g' = g \/ exists t, g' = Some t /\ part_of t s).
Proof.
  intros R. induction r as [| | |c|r1 IH1 r2 IH2|r1 IH1|cls|cls|r1 IH1];
    intros pos s g k res H; cbn [rmatch] in H.
  - exists pos, s, g. auto with parts.
  - destruct (Nat.eqb pos 0); [|discriminate]. exists pos, s, g. auto with parts.
  - destruct s as [|c [|c' s]]; [| |discriminate].
    + exists pos, [], g. auto with parts.
    + destruct (c =? LF)%N; [|discriminate]. exists pos, [c], g. auto with parts.
  - destruct s as [|x s]; [discriminate|].
    destruct (x =? c)%N; [|discriminate]. exists (S pos), s, g. auto with parts.
  - apply IH1 in H as [pos1 [s1 [g1 [H [Hs1 Hg1]]]]].
    apply IH2 in H as [pos2 [s2 [g2 [H [Hs2 Hg2]]]]].
    exists pos2, s2, g2. split; [exact H|]. split; [eauto using part_of_trans|].
    destruct Hg2 as [->|[t [-> Ht]]]; [exact Hg1|].
    right. exists t. split; [reflexivity | eauto using part_of_trans].
  - destruct (rmatch r1 pos s g k) as [res'|] eqn:E.
    + injection H as <-. now apply IH1 in E.
    + exists pos, s, g. auto with parts.
  - apply star_greedy_tail in H as [pos' [s' [H Hs]]]. exists pos', s', g. auto.
  - apply star_lazy_tail in H as [pos' [s' [H Hs]]]. exists pos', s', g. auto.
  - apply IH1 in H as [pos' [s' [g' [H [Hs _]]]]].
    exists pos', s', (Some (firstn (pos' - pos) s)). split; [exact H|].
    split; [exact Hs|]. right. eexists. split; [reflexivity|].
    rewrite <- (firstn_skipn (pos' - pos) s) at 2. apply part_of_head.
Qed.

(** The text handed to [json.loads] is part of the response. *)
Lemma cleaned_text_part :
  forall response_text cleaned,
    cleaned_text response_text = inr cleaned -> part_of cleaned response_text.
Proof.
  intros response_text cleaned H. unfold cleaned_text in H.
  destruct (re_match json_pattern (strip response_text)) as [[group1|]|] eqn:E;
    [|discriminate|]; injection H as <-; [|apply part_of_strip].
  unfold re_match in E. apply rmatch_parts in E as [pos [s [g [E [_ Hg]]]]].
  injection E as ->. destruct Hg as [Hg|[t [Ht Hpart]]]; [discriminate|].
  injection Ht as <-.
  eapply part_of_trans; [apply part_of_strip|].
  eapply part_of_trans; [exact Hpart | apply part_of_strip].
Qed.

(** *** What a limit that is met says about the text *)

(** The opening brackets and braces of a text. *)
Definition is_opening (c : char) : bool := ((c =? 91) || (c =? 123))%N.

Definition openings (s : pystr) : nat := length (filter is_opening s).

(** A run of more digits than [int()] converts. *)
Definition long_digit_run (s : pystr) : Prop :=
  exists d, part_of d s /\ all_digits d /\ int_max_str_digits < length d.

Lemma openings_app : forall a b, openings (a ++ b) = openings a + openings b.
Proof. intros a b. unfold openings. now rewrite filter_app, length_app. Qed.

Lemma openings_part : forall t s, part_of t s -> openings t <= openings s.
Proof. intros t s [pre [post ->]]. rewrite !openings_app. lia. Qed.

Lemma long_digit_run_part :
  forall t s, part_of t s -> long_digit_run t -> long_digit_run s.
Proof.
  intros t s Hts [d [Hd [Hall Hlen]]]. exists d. eauto using part_of_trans.
Qed.

(** A text that meets a limit: a long run of digits, or more openings
    than there is room for. *)
Definition limit_met (room : nat) (s : pystr) : Prop :=
  long_digit_run s \/ room < openings s.

Lemma limit_met_part :
  forall room t s, part_of t s -> limit_met room t -> limit_met room s.
Proof.
  intros room t s Hts [H|H]; [left | right].
  - eauto using long_digit_run_part.
  - apply openings_part in Hts. lia.
Qed.

Lemma limit_met_inside :
  forall room c t r,
    is_opening c = true -> part_of t r ->
    limit_met room t -> limit_met (S room) (c :: r).
Proof.
  intros room c t r Hc Htr [H|H]; [left | right].
  - eauto using long_digit_run_part, part_of_cons.
  - apply openings_part in Htr. unfold openings in *. cbn [filter]. rewrite Hc.
    cbn [length]. lia.
Qed.

Lemma match_integer_digits :
  forall s i r,
    match_integer s = Some (i, r) ->
    all_digits (literal_digits i) /\ part_of (literal_digits i) s.
Proof.
  intros s i r H. destruct (match_integer_stable _ _ _ H) as [Hs _].
  assert (Hpart : part_of (literal_digits i) i).
  { unfold literal_digits. destruct i as [|c i]; [apply part_of_refl|].
    destruct (c =? 45)%N; [apply (part_of_tail [c]) | apply part_of_refl]. }
  split; [|rewrite Hs; eapply part_of_trans; [exact Hpart | apply part_of_head]].
  unfold match_integer in H.
  assert (Hcore : forall u sign,
            match u with
            | c :: r' =>
                if (c =? 48)%N then Some (sign ++ [c], r')
                else if is_digit c then
                  let (d, rest) := take_digits r' in Some (sign ++ c :: d, rest)
                else None
            | [] => None
            end = Some (i, r) ->
            exists d, i = sign ++ d /\ all_digits d /\ d <> []).
  { intros u sign Hu. destruct u as [|c r']; [discriminate|].
    destruct (c =? 48)%N eqn:E0.
    - injection Hu as <- <-. apply N.eqb_eq in E0. subst c.
      exists [48%N]. repeat split; [now repeat constructor | discriminate].
    - destruct (is_digit c) eqn:Ec; [|discriminate].
      destruct (take_digits r') as [d rest] eqn:Et. injection Hu as <- <-.
      apply take_digits_split in Et as [_ Hd].
      exists (c :: d). repeat split; [now constructor | discriminate]. }
  destruct s as [|c s']; [discriminate|].
  destruct (c =? 45)%N eqn:E.
  - apply (Hcore s' [c]) in H as [d [-> [Hd Hne]]]. cbn [app literal_digits].
    now rewrite E.
  - apply (Hcore (c :: s') []) in H as [d [-> [Hd Hne]]]. cbn [app].
    unfold literal_digits. destruct d as [|x d]; [contradiction|].
    apply Forall_cons_iff in Hd as [Hx Hd].
    replace (x =? 45)%N with false; [now constructor|].
    symmetry. apply N.eqb_neq. intros ->. discriminate.
Qed.

Lemma match_number_bounded_raises :
  forall s e, match_number_bounded s = inl e -> long_digit_run s.
Proof.
  intros s e H. unfold match_number_bounded in H.
  destruct (match_integer s) as [[integer r1]|] eqn:Ei; [|discriminate].
  destruct (match_frac r1) as [frac r2]. destruct (match_exp r2) as [exp r3].
  destruct frac, exp; try discriminate.
  unfold parse_int_bounded in H.
  destruct (Nat.ltb int_max_str_digits (length (literal_digits integer))) eqn:El;
    [|discriminate].
  apply Nat.ltb_lt in El. destruct (match_integer_digits _ _ _ Ei) as [Hd Hp].
  now exists (literal_digits integer).
Qed.

Lemma skip_ws_rest_part :
  forall x c r, skip_ws x = c :: r -> part_of (c :: r) x /\ part_of r x.
Proof.
  intros x c r H. pose proof (part_of_skip_ws x) as Hp. rewrite H in Hp.
  split; [exact Hp|]. eapply part_of_trans; [|exact Hp]. apply (part_of_tail [c]).
Qed.

Lemma py_scanstring_part :
  forall x key r, py_scanstring x = Some (key, r) -> part_of r x.
Proof.
  intros x key r H. apply py_scanstring_stable in H as [body [-> _]].
  exists (body ++ [DQUOTE]), []. rewrite app_nil_r, <- app_assoc. reflexivity.
Qed.

Lemma scan_once_bounded_part :
  forall room fuel x v r,
    scan_once_bounded room fuel x = Within (Done v r) -> part_of r x.
Proof.
  intros room fuel x v r H. apply (proj1 (scan_bounded_agrees fuel)) in H.
  apply (proj1 (scan_prefix fuel)) in H as [body [-> _]]. apply part_of_tail.
Qed.

Ltac part_facts :=
  repeat match goal with
  | H : skip_ws ?x = _ :: _ |- _ =>
      apply skip_ws_rest_part in H; destruct H
  | H : py_scanstring _ = Some (_, _) |- _ => apply py_scanstring_part in H
  | H : scan_once_bounded _ _ _ = Within (Done _ _) |- _ =>
      apply scan_once_bounded_part in H
  end.

Ltac part_chain :=
  part_facts; eauto 8 using part_of_trans, part_of_skip_ws, part_of_refl, part_of_cons.

(** An exception of the decoder comes from a limit that the text
    meets. *)
Lemma scan_bounded_raises :
  forall fuel,
    (forall room s e, scan_once_bounded room fuel s = Raised e -> limit_met room s) /\
    (forall room s e, object_items_bounded room fuel s = Raised e -> limit_met room s) /\
    (forall room s e, array_items_bounded room fuel s = Raised e -> limit_met room s).
Proof.
  induction fuel as [|fuel [IHs [IHo IHa]]].
  { repeat split; intros room s e H; discriminate H. }
  split; [|split]; intros room s e H.
  - cbn [scan_once_bounded] in H. destruct s as [|c r]; [discriminate|].
    destruct (c =? DQUOTE)%N; [destruct (py_scanstring r) as [[x rest]|]; discriminate|].
    destruct (c =? 123)%N eqn:E1.
    { apply N.eqb_eq in E1. subst c. destruct room as [|room].
      - right. unfold openings. cbn. lia.
      - unfold JSONObject_bounded in H.
        destruct (skip_ws r) as [|c' r'] eqn:Es; [discriminate|].
        destruct (c' =? 125)%N; [discriminate|].
        destruct (c' =? DQUOTE)%N; [|discriminate].
        destruct (object_items_bounded room fuel r') as [[pairs rest| |]|e'] eqn:Eo;
          try discriminate.
        apply IHo in Eo. apply (limit_met_inside room _ r'); [reflexivity | part_chain | exact Eo]. }
    destruct (c =? 91)%N eqn:E2.
    { apply N.eqb_eq in E2. subst c. destruct room as [|room].
      - right. unfold openings. cbn. lia.
      - unfold JSONArray_bounded in H.
        destruct (skip_ws r) as [|c' r'] eqn:Es; [discriminate|].
        destruct (c' =? 93)%N; [discriminate|].
        destruct (array_items_bounded room fuel (c' :: r')) as [[values rest| |]|e'] eqn:Ea;
          try discriminate.
        apply IHa in Ea.
        apply (limit_met_inside room _ (c' :: r')); [reflexivity | part_chain | exact Ea]. }
    destruct ((c =? 110)%N && startswith (str "null") (c :: r)); [discriminate|].
    destruct ((c =? 116)%N && startswith (str "true") (c :: r)); [discriminate|].
    destruct ((c =? 102)%N && startswith (str "false") (c :: r)); [discriminate|].
    destruct (match_number_bounded (c :: r)) as [e'|[[number rest]|]] eqn:En.
    + left. exact (match_number_bounded_raises _ _ En).
    + discriminate.
    + repeat break_in H; discriminate.
  - cbn [object_items_bounded] in H.
    destruct (py_scanstring s) as [[key r1]|] eqn:Ek; [|discriminate].
    destruct (skip_ws r1) as [|c r2] eqn:E1; [discriminate|].
    destruct (c =? 58)%N; [|discriminate].
    destruct (scan_once_bounded room fuel (skip_ws r2)) as [[value r3| |]|e'] eqn:Ev;
      try discriminate.
    + destruct (skip_ws r3) as [|c' r4] eqn:E3; [discriminate|].
      destruct (c' =? 125)%N; [discriminate|].
      destruct (c' =? 44)%N; [|discriminate].
      destruct (skip_ws r4) as [|q r5] eqn:E4; [discriminate|].
      destruct (q =? DQUOTE)%N; [|discriminate].
      destruct (object_items_bounded room fuel r5) as [[pairs rest| |]|e''] eqn:Eo;
        try discriminate.
      apply IHo in Eo. apply (limit_met_part room r5); [part_chain | exact Eo].
    + apply IHs in Ev. apply (limit_met_part room (skip_ws r2)); [part_chain | exact Ev].
  - cbn [array_items_bounded] in H.
    destruct (scan_once_bounded room fuel s) as [[value r1| |]|e'] eqn:Ev;
      try discriminate.
    + destruct (skip_ws r1) as [|c r2] eqn:E1; [discriminate|].
      destruct (c =? 93)%N; [discriminate|].
      destruct (c =? 44)%N; [|discriminate].
      destruct (array_items_bounded room fuel (skip_ws r2)) as [[values rest| |]|e''] eqn:Ea;
        try discriminate.
      apply IHa in Ea. apply (limit_met_part room (skip_ws r2)); [part_chain | exact Ea].
    + apply IHs in Ev. exact Ev.
Qed.

(** No run of digits of the text is longer than [int()] converts. *)
Definition digit_runs_within (s : pystr) : Prop :=
  forall d, part_of d s -> all_digits d -> length d <= int_max_str_digits.

Lemma part_of_length : forall t s, part_of t s -> length t <= length s.
Proof. intros t s [pre [post ->]]. rewrite !length_app. lia. Qed.

Lemma short_text_digit_runs :
  forall s, length s <= int_max_str_digits -> digit_runs_within s.
Proof. intros s H d Hd _. apply part_of_length in Hd. lia. Qed.

Lemma loads_bounded_raises :
  forall room s e, loads_bounded room s = inl e -> limit_met room s.
Proof.
  intros room s e H. unfold loads_bounded in H.
  destruct (startswith [0xFEFF%N] s); [discriminate|].
  destruct (scan_once_bounded room (fuel_for s) (skip_ws s)) as [[obj rest| |]|e'] eqn:E;
    try discriminate.
  - destruct (skip_ws rest); discriminate.
  - apply (proj1 (scan_bounded_raises _)) in E.
    apply (limit_met_part room (skip_ws s)); [apply part_of_skip_ws | exact E].
Qed.

(** X20.  The limits, read off the response.  When no run of digits of
    the response is longer than 4300 and the response has no more opening
    brackets and braces than the interpreter has room for arrays and
    objects, [json.loads] meets no limit, whatever else the response
    holds: [_parse_json_response] returns a mapping, the one the decoder
    without the limits gives. *)
Theorem parse_json_response_short_and_shallow :
  forall (room : nat) (response_text : pystr),
    digit_runs_within response_text ->
    openings response_text <= room ->
    (forall cleaned e,
       cleaned_text response_text = inr cleaned -> loads_bounded room cleaned <> inl e) /\
    exists result : dict,
      _parse_json_response_bounded room response_text = inr result /\
      _parse_json_response response_text = inr result.
Proof.
  intros room response_text Hd Ho.
  assert (Hlim : forall cleaned e,
            cleaned_text response_text = inr cleaned ->
            loads_bounded room cleaned <> inl e).
  { intros cleaned e Hc Hl. apply cleaned_text_part in Hc.
    apply loads_bounded_raises in Hl.
    apply (limit_met_part room cleaned response_text Hc) in Hl.
    destruct Hl as [[d [Hp [Hall Hlen]]]|Hl]; [|lia].
    specialize (Hd d Hp Hall). lia. }
  split; [exact Hlim|].
  rewrite (parse_json_response_bounded_agrees _ _ Hlim).
  destruct (parse_json_response_decoded response_text) as [cleaned [result [_ [Hp _]]]].
  now exists result.
Qed.

Lemma parse_json_response_short_and_shallow_witness :
  digit_runs_within fenced_response /\
  openings fenced_response <= 3 /\
  (forall cleaned e,
     cleaned_text fenced_response = inr cleaned -> loads_bounded 3 cleaned <> inl e) /\
  exists result : dict,
    _parse_json_response_bounded 3 fenced_response = inr result /\
    _parse_json_response fenced_response = inr result.
Proof.
  assert (Hd : digit_runs_within fenced_response).
  { apply short_text_digit_runs. apply Nat.leb_le. vm_compute. reflexivity. }
  assert (Ho : openings fenced_response <= 3) by (vm_compute; lia).
  split; [exact Hd|]. split; [exact Ho|].
  exact (parse_json_response_short_and_shallow 3 fenced_response Hd Ho).
Defined.
